(** * Chunked ingestion, retrying fetch and XOR obfuscation of ccworld020/ALL

    A shallow embedding of the Python sources

      - [ALL/utils.py]     (chunk writer, chunk counter, assembler),
      - [ALL/configLoader.py] (the download constants),
      - [konachan/api.py]  (the retrying page fetcher [get_data]),
      - [fs/api.py]        (the XOR cipher, [merge_chunks], [generate_thumbnail])

    followed by the properties of the design document that were checked
    against them.  The file system is a finite map from path strings to
    nodes, the metadata table a list of rows, exceptions are values of
    [exn] carried by the [result] monad, and every [while] loop is a
    fuelled fixpoint together with a lemma that the fuel handed to it is
    enough. *)

From stdpp Require Import gmap strings list pretty sorting.
From Stdlib Require Import Strings.Byte Strings.Ascii.

Open Scope Z_scope.

(* ===================================================================== *)
(** * Part I.  The embedding                                               *)
(* ===================================================================== *)

(** ** Python values shared by all modules *)

Module Py.

(** The exception classes the modelled code raises or catches. *)
Inductive exn : Type :=
| ChunkError (msg : string)      (* ALL.utils.ChunkError *)
| OSError                        (* IOError, IsADirectoryError, FileNotFoundError *)
| UnicodeDecodeError             (* a ValueError subclass *)
| ValueError
| BinasciiError                  (* binascii.Error, a ValueError subclass *)
| JSONDecodeError                (* a ValueError subclass *)
| ZeroDivisionError
| OverflowError
| TypeError
| Timeout                        (* requests.Timeout *)
| ConnectionError                (* requests.ConnectionError *)
| HTTPError (response : option Z)
    (* requests.HTTPError; [response] is the status code of [e.response],
       [None] when the exception was built without a response *)
| RequestException               (* any other requests exception *)
| IntegrityError                 (* django.db.IntegrityError *)
| OtherException.

(** The outcome of running a piece of Python: a value, a raised
    exception, or no outcome at all (a loop that never exits). *)
Inductive result (A : Type) : Type :=
| Ok (a : A)
| Raise (e : exn)
| Diverge.
Global Arguments Ok {A} a.
Global Arguments Raise {A} e.
Global Arguments Diverge {A}.

(** The outcome of code that also changes a state [S] (the file system,
    the metadata table): the state survives a raised exception. *)
Inductive run (S A : Type) : Type :=
| Returns (a : A) (s : S)
| Raises (e : exn) (s : S)
| Diverges.
Global Arguments Returns {S A} a s.
Global Arguments Raises {S A} e s.
Global Arguments Diverges {S A}.

Definition bind {A B} (k : A → result B) (r : result A) : result B :=
  match r with
  | Ok a => k a
  | Raise e => Raise e
  | Diverge => Diverge
  end.

(** [x ← r; k] sequences two steps; an exception or a divergence of the
    first is the outcome of the whole. *)
Global Instance result_bind : MBind result := @bind.

(** [bytes] objects. *)
Abbreviation bytes := (list byte).

(** [b[i]] for an index known to be in range; [x00] stands for the
    IndexError that the callers below never trigger. *)
Definition byte_at (b : bytes) (i : nat) : byte := nth i b x00.

(** Storing an [int] into a [bytearray] / an [unsigned char]. *)
Definition byte_of_N (n : N) : byte :=
  match Byte.of_N (n mod 256) with
  | Some b => b
  | None => x00
  end.

(** [a ^ b] on two byte values. *)
Definition byte_xor (a b : byte) : byte :=
  byte_of_N (N.lxor (Byte.to_N a) (Byte.to_N b)).

Definition is_ascii_byte (b : byte) : bool := (Byte.to_N b <? 128)%N.

(** [b.decode()] (UTF-8) on ASCII input, where it is the identity on code
    units.  A byte above 0x7F starts a multi-byte sequence; the callers
    below only decode base64 text, so that case is reported as the
    decoding error and not modelled further. *)
Definition bytes_decode (b : bytes) : result string :=
  if forallb is_ascii_byte b then Ok (String.string_of_list_byte b)
  else Raise UnicodeDecodeError.

(** [s.encode()] (UTF-8) for a string of code points below 256: one byte
    below 0x80, the two bytes [0xC0 | c >> 6], [0x80 | c & 0x3F] above. *)
Definition encode_char (c : ascii) : bytes :=
  let n := N_of_ascii c in
  if (n <? 128)%N then [byte_of_N n]
  else [byte_of_N (N.lor 192 (N.shiftr n 6)); byte_of_N (N.lor 128 (N.land n 63))].

Definition str_encode (s : string) : bytes :=
  flat_map encode_char (String.list_ascii_of_string s).

End Py.

Export Py.

(** ** The standard [base64] codec (RFC 4648 alphabet, [=] padding) *)

Module Base64.

Definition alphabet : bytes :=
  String.list_byte_of_string
    "ABCDEFGHIJKLMNOPQRSTUVWXYZabcdefghijklmnopqrstuvwxyz0123456789+/".

Definition BASE64_PAD : byte := "="%byte.

(** [table_b2a_base64[n]] *)
Definition b2a (n : N) : byte := nth (N.to_nat n) alphabet x00.

Fixpoint index_of (b : byte) (l : bytes) (i : N) : option N :=
  match l with
  | [] => None
  | c :: l' => if Byte.eqb b c then Some i else index_of b l' (N.succ i)
  end.

(** [table_a2b_base64[ch]], [None] for a character outside the alphabet. *)
Definition a2b (ch : byte) : option N := index_of ch alphabet 0.

(** [base64.b64encode]: three bytes give four characters; a tail of one
    or two bytes is padded. *)
Fixpoint b64encode (data : bytes) : bytes :=
  match data with
  | [] => []
  | [a] =>
      let a := Byte.to_N a in
      [b2a (N.shiftr a 2); b2a (N.shiftl (N.land a 3) 4); BASE64_PAD; BASE64_PAD]
  | [a; b] =>
      let a := Byte.to_N a in
      let b := Byte.to_N b in
      [b2a (N.shiftr a 2);
       b2a (N.lor (N.shiftl (N.land a 3) 4) (N.shiftr b 4));
       b2a (N.shiftl (N.land b 15) 2); BASE64_PAD]
  | a :: b :: c :: rest =>
      let a := Byte.to_N a in
      let b := Byte.to_N b in
      let c := Byte.to_N c in
      b2a (N.shiftr a 2)
      :: b2a (N.lor (N.shiftl (N.land a 3) 4) (N.shiftr b 4))
      :: b2a (N.lor (N.shiftl (N.land b 15) 2) (N.shiftr c 6))
      :: b2a (N.land c 63)
      :: b64encode rest
  end.

(** [base64.b64decode] with [validate=False], as [binascii.a2b_base64]
    runs it: characters outside the alphabet are skipped, a complete pad
    sequence ends the parse, and input that stops inside a quad is an
    error. *)
Fixpoint a2b_loop (s : bytes) (quad_pos : nat) (leftchar : N) (pads : nat)
    (out : bytes) : result bytes :=
  match s with
  | [] => if (quad_pos =? 0)%nat then Ok out else Raise BinasciiError
  | this_ch :: s' =>
      if Byte.eqb this_ch BASE64_PAD then
        if (2 <=? quad_pos)%nat then
          if (4 <=? quad_pos + S pads)%nat then Ok out
          else a2b_loop s' quad_pos leftchar (S pads) out
        else a2b_loop s' quad_pos leftchar pads out
      else
        match a2b this_ch with
        | None => a2b_loop s' quad_pos leftchar pads out
        | Some v =>
            match quad_pos with
            | 0%nat => a2b_loop s' 1 v 0 out
            | 1%nat =>
                a2b_loop s' 2 (N.land v 15) 0
                  (out ++ [byte_of_N (N.lor (N.shiftl leftchar 2) (N.shiftr v 4))])
            | 2%nat =>
                a2b_loop s' 3 (N.land v 3) 0
                  (out ++ [byte_of_N (N.lor (N.shiftl leftchar 4) (N.shiftr v 2))])
            | _ =>
                a2b_loop s' 0 0 0
                  (out ++ [byte_of_N (N.lor (N.shiftl leftchar 6) v)])
            end
        end
  end.

Definition b64decode (s : bytes) : result bytes := a2b_loop s 0 0 0 [].

End Base64.

(** ** [fs/api.py]: the XOR obfuscation layer *)

Module Cipher.

(** The [while len(key) < 32: key = key + key] loop of
    [get_encryption_key]. *)
Fixpoint stretch_key (fuel : nat) (key : bytes) : result bytes :=
  match fuel with
  | O => Diverge
  | S fuel' =>
      if (length key <? 32)%nat then stretch_key fuel' (key ++ key)
      else Ok key
  end.

(** A non-empty key reaches 32 bytes after five doublings; one more
    iteration performs the final test. *)
Definition stretch_fuel : nat := 6.

Definition get_encryption_key (SECRET_KEY : string) : result bytes :=
  key ← stretch_key stretch_fuel (str_encode SECRET_KEY);
  Ok (take 32 key).

(** [for i, byte in enumerate(data): out.append(byte ^ key[i % len(key)])] *)
Fixpoint xor_loop (key : bytes) (i : nat) (data : bytes) (out : bytes) : bytes :=
  match data with
  | [] => out
  | byte :: rest =>
      xor_loop key (S i) rest
        (out ++ [byte_xor byte (byte_at key (i mod length key))])
  end.

(** [encrypt_data] on a [bytes] argument (a [str] argument is first
    encoded, which [str_encode] does for the callers that need it). *)
Definition encrypt_data (SECRET_KEY : string) (data : bytes) : result string :=
  key ← get_encryption_key SECRET_KEY;
  let encrypted := xor_loop key 0 data [] in
  bytes_decode (Base64.b64encode encrypted).

Definition decrypt_data (SECRET_KEY : string) (encrypted_data : string)
    : result bytes :=
  key ← get_encryption_key SECRET_KEY;
  encrypted_bytes ← Base64.b64decode (str_encode encrypted_data);
  Ok (xor_loop key 0 encrypted_bytes []).

End Cipher.

(** ** Python [str] and [pathlib] operations used by the sources *)

Module PyStr.

(** The characters [str.strip()] removes, among code points below 256. *)
Definition is_space (c : ascii) : bool :=
  let n := N_of_ascii c in
  ((9 <=? n) && (n <=? 13) || (28 <=? n) && (n <=? 32)
   || (n =? 133) || (n =? 160))%N.

Fixpoint lstrip (s : string) : string :=
  match s with
  | EmptyString => EmptyString
  | String c s' => if is_space c then lstrip s' else s
  end.

Fixpoint rstrip (s : string) : string :=
  match s with
  | EmptyString => EmptyString
  | String c s' =>
      match rstrip s' with
      | EmptyString => if is_space c then EmptyString else String c EmptyString
      | r => String c r
      end
  end.

(** [s.strip()] *)
Definition strip (s : string) : string := rstrip (lstrip s).

(** [s.startswith(p)] *)
Definition startswith (p s : string) : bool := String.prefix p s.

(** [s.split(sep)] for a non-empty separator: left to right, occurrences
    do not overlap.  [skip] counts the characters of a separator that was
    just matched and are still to be passed over. *)
Fixpoint split_go (sep : string) (skip : nat) (cur : string) (s : string)
    : list string :=
  match s with
  | EmptyString => [cur]
  | String c s' =>
      match skip with
      | S k => split_go sep k cur s'
      | O =>
          if String.prefix sep s
          then cur :: split_go sep (String.length sep - 1) EmptyString s'
          else split_go sep 0 (cur +:+ String c EmptyString) s'
      end
  end.

Definition split (s sep : string) : list string := split_go sep 0 EmptyString s.

Definition digit_value (c : ascii) : option Z :=
  let n := Z.of_N (N_of_ascii c) in
  if (48 <=? n) && (n <=? 57) then Some (n - 48) else None.

(** Decimal digits, single underscores allowed between two digits. *)
Fixpoint digits_value (acc : Z) (after_digit : bool) (s : string) : option Z :=
  match s with
  | EmptyString => if after_digit then Some acc else None
  | String c s' =>
      match digit_value c with
      | Some d => digits_value (acc * 10 + d) true s'
      | None =>
          if Ascii.eqb c "_" && after_digit then digits_value acc false s'
          else None
      end
  end.


(** [int(s)] in base 10: surrounding whitespace, an optional sign, ASCII
    digits.  [None] is the ValueError. *)
Definition int (s : string) : option Z :=
  match strip s with
  | String "-" r => Z.opp <$> digits_value 0 false r
  | String "+" r => digits_value 0 false r
  | t => digits_value 0 false t
  end.

(** Cutting a string at the last occurrence of [c] ([s.rfind(c)]): what
    is before and what is after it. *)
Fixpoint rsplit_at (c : ascii) (s : string) : option (string * string) :=
  match s with
  | EmptyString => None
  | String x s' =>
      match rsplit_at c s' with
      | Some (before, after) => Some (String x before, after)
      | None => if Ascii.eqb x c then Some (EmptyString, s') else None
      end
  end.

(** [a / b] and [os.path.join(a, b)] for a relative, normalised [b]. *)
Definition path_join (a b : string) : string := a +:+ "/" +:+ b.

(** [Path(p).name]: the final component. *)
Definition path_name (p : string) : string :=
  match rsplit_at "/" p with
  | Some (_, after) => after
  | None => p
  end.

(** [Path(p).stem]: the name without its last suffix; a name has a suffix
    when its last dot is neither its first nor its last character. *)
Definition path_stem (p : string) : string :=
  let name := path_name p in
  match rsplit_at "." name with
  | Some (String x before, String y after) => String x before
  | _ => name
  end.

End PyStr.

(** ** The file system *)

Module Fs.

Inductive node : Type :=
| File (data : bytes)
| Dir.

(** Paths are strings, normalised as the kernel resolves them: names
    joined by single slashes, none of them [.] or [..]; a path that is
    not in the map does not exist.  The disk has no limits of its own:
    no quota, no permissions, no bound on the length of a name; the
    errors below are those that the state of the disk decides.  The type
    is stated once here and used unfolded below so that the map lemmas
    apply directly. *)
Abbreviation fs := (gmap string node).

(** [os.path.exists(p)], [Path(p).exists()] *)
Definition exists_ (m : fs) (p : string) : bool :=
  match m !! p with
  | Some _ => true
  | None => false
  end.

(** [os.path.isdir(p)] *)
Definition isdir (m : fs) (p : string) : bool :=
  match m !! p with
  | Some Dir => true
  | _ => false
  end.

(** [open(p, 'rb').read()] *)
Definition read_bytes (m : fs) (p : string) : result bytes :=
  match m !! p with
  | Some (File data) => Ok data
  | _ => Raise OSError
  end.

(** The directory a path lies in: what precedes its last slash.  A bare
    name lies in the working directory and an entry of the root in the
    root; both exist, and such a path has no parent here. *)
Definition parent (p : string) : option string :=
  match PyStr.rsplit_at "/" p with
  | Some (String c d, _) => Some (String c d)
  | _ => None
  end.

(** The directories above [p], the nearest first.  [parent] shortens a
    path, so its length is fuel enough. *)
Fixpoint ancestors_from (fuel : nat) (p : string) : list string :=
  match fuel with
  | O => []
  | S fuel' =>
      match parent p with
      | Some d => d :: ancestors_from fuel' d
      | None => []
      end
  end.

Definition ancestors (p : string) : list string :=
  ancestors_from (String.length p) p.

(** [open(p, 'wb').write(data)] for a path [p] that names an entry of a
    directory: creates or replaces the file.  The directory of [p] has
    to exist (FileNotFoundError, NotADirectoryError otherwise) and [p]
    must not be a directory (IsADirectoryError). *)
Definition write_bytes (m : fs) (p : string) (data : bytes) : result fs :=
  if match parent p with
     | Some d => isdir m d
     | None => true
     end
  then
    match m !! p with
    | Some Dir => Raise OSError
    | _ => Ok (<[p := File data]> m)
    end
  else Raise OSError.

(** [os.remove(p)] *)
Definition remove (m : fs) (p : string) : result fs :=
  match m !! p with
  | Some (File _) => Ok (delete p m)
  | _ => Raise OSError
  end.

(** The walk of [Path.mkdir(parents=True)] and [os.makedirs] up a chain
    of directories, the nearest first: a directory that is missing is
    created after those above it, the walk ends at the first directory
    that exists, and a regular file met on the way is the
    NotADirectoryError (FileExistsError at the first path) of the call. *)
Fixpoint make_dirs (m : fs) (chain : list string) : result fs :=
  match chain with
  | [] => Ok m
  | d :: up =>
      match m !! d with
      | Some Dir => Ok m
      | Some (File _) => Raise OSError
      | None => m' ← make_dirs m up; Ok (<[d := Dir]> m')
      end
  end.

(** [Path(d).mkdir(parents=True, exist_ok=True)], [os.makedirs(d,
    exist_ok=True)]: nothing to do for a directory, an OSError when [d]
    or the nearest path above it that exists is a regular file, and
    otherwise [d] is created with every directory above it that is
    missing. *)
Definition mkdir (m : fs) (d : string) : result fs :=
  make_dirs m (d :: ancestors d).

End Fs.

(** ** Library functions taken as parameters *)

(** Functions of the Python standard library whose results the sources
    consume without the properties below depending on what they are. *)
Record pylib : Type := {
  (** [f.read()] of a file opened with [open(p, 'r', encoding='utf-8')]
      that holds the given bytes; [None] is the UnicodeDecodeError *)
  read_text : bytes → option string;
  (** [os.path.splitext(p)[1]] *)
  splitext_ext : string → string;
  (** [hashlib.md5(b).hexdigest()] *)
  md5_hexdigest : bytes → string;
  (** [mimetypes.guess_type(name)[0]] *)
  guess_type : string → option string;
  (** [s.lower()] *)
  lower : string → string
}.

(** ** [ALL/configLoader.py]: the download constants *)

Record config : Type := {
  REQUEST_TIMEOUT : Z;
  MAX_RETRIES : Z;
  BASE_DELAY : Z;
  CHUNK_SIZE_SMALL : Z;
  CHUNK_SIZE_THRESHOLD : Z;
  CHUNK_COUNT_SMALL : Z;
  READ_CHUNK_SIZE : Z
}.

(** The [download] section of [DEFAULT_CONFIG]. *)
Definition DEFAULT_CONFIG : config := {|
  REQUEST_TIMEOUT := 60;
  MAX_RETRIES := 5;
  BASE_DELAY := 5;
  CHUNK_SIZE_SMALL := 1024 * 1024;
  CHUNK_SIZE_THRESHOLD := 1024 * 1024;
  CHUNK_COUNT_SMALL := 3;
  READ_CHUNK_SIZE := 8192
|}.

(** ** [ALL/utils.py] *)

Module Utils.
Import PyStr Fs.

(** What [requests.get(url, stream=True)] produces. *)
Record response : Type := {
  (** [raise_for_status()] passes *)
  status_ok : bool;
  (** [response.headers.get('Content-Length')]: the text of the header,
      when there is one *)
  content_length : option string;
  (** the blocks [iter_content] yields, in order *)
  body : list bytes;
  (** the stream raises after the last of those blocks *)
  body_fails : bool
}.

Inductive http_outcome : Type :=
| HttpRaised                        (* a requests.RequestException *)
| HttpResponse (r : response).

(** The file system together with the log of the URLs requested. *)
Record world : Type := {
  files : gmap string node;
  requests : list string
}.

(** [base_dir / f"{file_id}.part{i}"] *)
Definition part_path (base_dir file_id : string) (i : nat) : string :=
  path_join base_dir (file_id +:+ ".part" +:+ pretty i).

(** [count_existing_chunks]: the [while True] probe. *)
Fixpoint count_loop (fuel : nat) (m : gmap string node)
    (base_dir file_id : string) (chunk_count : nat) : result nat :=
  match fuel with
  | O => Diverge
  | S fuel' =>
      if exists_ m (part_path base_dir file_id chunk_count)
      then count_loop fuel' m base_dir file_id (S chunk_count)
      else Ok chunk_count
  end.

(** A map of [size m] paths cannot hold more than [size m] chunk files,
    so the probe is over after at most [S (size m)] tests. *)
Definition count_existing_chunks (m : gmap string node)
    (base_dir file_id : string) : result nat :=
  count_loop (S (size m)) m base_dir file_id 0.

(** [math.ceil(n / d)].  The quotient is a float in Python; below 2^53
    it is an integer only when [n / d] is, so the ceiling is exact there,
    and it is there that the properties below use it. *)
Definition ceil_div (n d : Z) : Z := - ((- n) / d).

(** [int(content_length) if content_length else None] *)
Definition file_size_of (content_length : option string) : result (option Z) :=
  match content_length with
  | Some (String c s) =>
      match int (String c s) with
      | Some n => Ok (Some n)
      | None => Raise ValueError
      end
  | _ => Ok None
  end.

(** The chunk size of [download_file_in_chunks] (lines 146-161). *)
Definition chunk_size_for (cfg : config) (content_length : option string)
    : result Z :=
  file_size ← file_size_of content_length;
  match file_size with
  | Some file_size =>
      if negb (file_size =? 0) && (file_size <? CHUNK_SIZE_THRESHOLD cfg)
      then
        if CHUNK_COUNT_SMALL cfg =? 0 then Raise ZeroDivisionError
        else Ok (ceil_div file_size (CHUNK_COUNT_SMALL cfg))
      else Ok (CHUNK_SIZE_SMALL cfg)
  | None => Ok (CHUNK_SIZE_SMALL cfg)
  end.

(** The variables of the write loop. *)
Record writer_state : Type := {
  disk : gmap string node;
  chunk_index : nat;
  current_chunk_data : bytes
}.

(** [b[:k]] and [b[k:]]: a negative [k] counts from the end. *)
Definition slice_at (k : Z) (b : bytes) : nat :=
  Z.to_nat (if k <? 0 then Z.of_nat (length b) + k else k).

Definition slice_to (k : Z) (b : bytes) : bytes := take (slice_at k b) b.
Definition slice_from (k : Z) (b : bytes) : bytes := drop (slice_at k b) b.

(** [while len(current_chunk_data) >= chunk_size: ...].  With
    [chunk_size <= 0] the test never fails: the loop writes chunk after
    chunk and is left only by a write that raises.  The fuel given below
    is that of a positive [chunk_size]; a write that would raise after
    more passes than that is not reached. *)
Fixpoint flush_loop (fuel : nat) (chunk_size : Z) (base_dir file_id : string)
    (st : writer_state) : run writer_state unit :=
  match fuel with
  | O => Diverges
  | S fuel' =>
      if Z.of_nat (length (current_chunk_data st)) >=? chunk_size then
        let chunk_data := slice_to chunk_size (current_chunk_data st) in
        let rest := slice_from chunk_size (current_chunk_data st) in
        let chunk_path := part_path base_dir file_id (chunk_index st) in
        match write_bytes (disk st) chunk_path chunk_data with
        | Ok disk' =>
            flush_loop fuel' chunk_size base_dir file_id
              {| disk := disk'; chunk_index := S (chunk_index st);
                 current_chunk_data := rest |}
        | Raise e =>
            Raises e {| disk := disk st; chunk_index := chunk_index st;
                        current_chunk_data := rest |}
        | Diverge => Diverges
        end
      else Returns () st
  end.

(** [for chunk in response.iter_content(...)]: empty blocks are skipped,
    a block is appended and every full chunk flushed.  A positive
    [chunk_size] removes at least one byte per flush, so the length of the
    buffer bounds the flushes. *)
Fixpoint write_blocks (chunk_size : Z) (base_dir file_id : string)
    (blocks : list bytes) (st : writer_state) : run writer_state unit :=
  match blocks with
  | [] => Returns () st
  | chunk :: blocks' =>
      match chunk with
      | [] => write_blocks chunk_size base_dir file_id blocks' st
      | _ =>
          let st1 := {| disk := disk st; chunk_index := chunk_index st;
                        current_chunk_data := current_chunk_data st ++ chunk |} in
          match flush_loop (S (length (current_chunk_data st1))) chunk_size
                  base_dir file_id st1 with
          | Returns _ st2 => write_blocks chunk_size base_dir file_id blocks' st2
          | Raises e st2 => Raises e st2
          | Diverges => Diverges
          end
      end
  end.

(** [if current_chunk_data: ...] (lines 188-194): what is left in the
    buffer becomes the last chunk. *)
Definition write_last_chunk (base_dir file_id : string) (st : writer_state)
    : run writer_state unit :=
  match current_chunk_data st with
  | [] => Returns () st
  | data =>
      match write_bytes (disk st)
              (part_path base_dir file_id (chunk_index st)) data with
      | Ok disk' =>
          Returns () {| disk := disk'; chunk_index := S (chunk_index st);
                        current_chunk_data := data |}
      | Raise e => Raises e st
      | Diverge => Diverges
      end
  end.

(** [if file_ext: ...] (lines 196-200): the extension sidecar. *)
Definition write_ext_file (base_dir file_id file_ext : string)
    (m : gmap string node) : result (gmap string node) :=
  match file_ext with
  | EmptyString => Ok m
  | _ => write_bytes m (path_join base_dir (file_id +:+ ".ext"))
           (str_encode file_ext)
  end.

(** The inner [try] of [download_file_in_chunks] (lines 163-209): the
    loop, the final partial chunk, the extension sidecar.  The result is
    the tuple the function returns; an exception of the stream or of a
    write is caught and reported in it. *)
Definition write_chunks (chunk_size : Z) (base_dir file_id file_ext : string)
    (r : response) (m : gmap string node)
    : run (gmap string node) (bool * nat * list exn) :=
  let st0 := {| disk := m; chunk_index := 0; current_chunk_data := [] |} in
  match write_blocks chunk_size base_dir file_id (body r) st0 with
  | Diverges => Diverges
  | Raises e st => Returns (false, chunk_index st, [e]) (disk st)
  | Returns _ st =>
      if body_fails r
      then Returns (false, chunk_index st, [RequestException]) (disk st)
      else
        match write_last_chunk base_dir file_id st with
        | Diverges => Diverges
        | Raises e st => Returns (false, chunk_index st, [e]) (disk st)
        | Returns _ st =>
            match write_ext_file base_dir file_id file_ext (disk st) with
            | Ok disk' => Returns (true, chunk_index st, []) disk'
            | Raise e => Returns (false, chunk_index st, [e]) (disk st)
            | Diverge => Diverges
            end
        end
  end.

(** [download_file_in_chunks].  Every exception is caught and turned into
    the failure tuple, so the function returns or does not terminate. *)
Definition download_file_in_chunks (L : pylib) (cfg : config)
    (server : string → http_outcome) (url base_dir file_id : string)
    (file_ext : option string) (w : world)
    : run world (bool * nat * list exn) :=
  match mkdir (files w) base_dir with
  | Diverge => Diverges
  | Raise e => Returns (false, 0%nat, [e]) w
  | Ok m =>
      let w := {| files := m; requests := requests w |} in
      (* the extension: the argument, else that of the URL, else .jpg *)
      let file_ext :=
        match file_ext with
        | Some (String c e) => String c e
        | _ => match splitext_ext L url with
               | EmptyString => ".jpg"%string
               | e => e
               end
        end in
      if exists_ m (part_path base_dir file_id 0) then
        (* the first chunk is there: nothing is downloaded *)
        match count_existing_chunks m base_dir file_id with
        | Ok chunk_count => Returns (true, chunk_count, []) w
        | Raise e => Returns (false, 0%nat, [e]) w
        | Diverge => Diverges
        end
      else
        let w := {| files := m; requests := requests w ++ [url] |} in
        match server url with
        | HttpRaised => Returns (false, 0%nat, [RequestException]) w
        | HttpResponse r =>
            if negb (status_ok r)
            then Returns (false, 0%nat, [HTTPError None]) w
            else
              match chunk_size_for cfg (content_length r) with
              | Diverge => Diverges
              | Raise e => Returns (false, 0%nat, [e]) w
              | Ok chunk_size =>
                  match write_chunks chunk_size base_dir file_id file_ext r m with
                  | Diverges => Diverges
                  | Raises e m' =>
                      Returns (false, 0%nat, [e])
                        {| files := m'; requests := requests w |}
                  | Returns t m' =>
                      Returns t {| files := m'; requests := requests w |}
                  end
              end
        end
  end.

(** [get_chunk_index] of [assemble_chunks]: the number after [.part] in
    the stem of the path, 0 when there is none. *)
Definition get_chunk_index (chunk_path : string) : Z :=
  match split (path_stem chunk_path) ".part" !! 1%nat with
  | Some t =>
      match int t with
      | Some n => n
      | None => 0            (* ValueError *)
      end
  | None => 0                (* IndexError *)
  end.

(** [sorted(l, key=key)]: the stable sort.  An element is put before the
    first one of the sorted rest whose key is not smaller, so that equal
    keys keep their order. *)
Fixpoint insert_by {A} (key : A → Z) (x : A) (l : list A) : list A :=
  match l with
  | [] => [x]
  | y :: l' => if key x <=? key y then x :: l else y :: insert_by key x l'
  end.

Definition sorted {A} (l : list A) (key : A → Z) : list A :=
  foldr (insert_by key) [] l.

(** The enumeration loop of [assemble_chunks] (lines 272-280). *)
Fixpoint find_chunks (fuel : nat) (m : gmap string node)
    (base_dir file_id : string) (chunk_index : nat) (chunk_files : list string)
    : result (list string) :=
  match fuel with
  | O => Diverge
  | S fuel' =>
      let chunk_path := part_path base_dir file_id chunk_index in
      if exists_ m chunk_path
      then find_chunks fuel' m base_dir file_id (S chunk_index)
             (chunk_files ++ [chunk_path])
      else Ok chunk_files
  end.

(** One sidecar read with its [try ... except (IOError,
    UnicodeDecodeError, ValueError): pass]: the extension after the
    block, given the one before it. *)
Definition read_sidecar (L : pylib) (m : gmap string node) (p : string)
    (file_ext : string) : string :=
  match m !! p with
  | Some (File data) =>
      match read_text L data with
      | Some text =>
          let content := strip text in
          if startswith "." content && (String.length content <? 10)%nat
          then content else file_ext
      | None => file_ext
      end
  | _ => file_ext
  end.

(** The read loop (lines 319-322). *)
Fixpoint read_all (m : gmap string node) (chunk_files : list string)
    (assembled_data : bytes) : result bytes :=
  match chunk_files with
  | [] => Ok assembled_data
  | chunk_file :: rest =>
      data ← read_bytes m chunk_file;
      read_all m rest (assembled_data ++ data)
  end.

(** The extension of a chunk set (lines 285-309): the [.ext] sidecar,
    then, while the extension is still [.jpg], the sidecar named after the
    identifier. *)
Definition resolve_extension (L : pylib) (m : gmap string node)
    (base_dir file_id : string) : string :=
  let ext_file := path_join base_dir (file_id +:+ ".ext") in
  let file_ext := ".jpg"%string in
  let file_ext :=
    if exists_ m ext_file then read_sidecar L m ext_file file_ext
    else file_ext in
  if String.eqb file_ext ".jpg" then
    let name_file := path_join base_dir file_id in
    if exists_ m name_file then read_sidecar L m name_file file_ext
    else file_ext
  else file_ext.

Definition assemble_chunks (L : pylib) (m : gmap string node)
    (base_dir file_id : string) (date_dirs : option (list string))
    : result (bytes * string) :=
  base_dir ←
    match date_dirs with
    | Some (d :: ds) =>
        match List.find (λ date_dir, exists_ m (path_join date_dir file_id))
                (d :: ds) with
        | Some date_dir => Ok (path_join date_dir file_id)
        | None => Raise (ChunkError "no chunk directory")
        end
    | _ => Ok base_dir
    end;
  chunk_files ← find_chunks (S (size m)) m base_dir file_id 0 [];
  match chunk_files with
  | [] => Raise (ChunkError "no chunks")
  | _ =>
      let file_ext := resolve_extension L m base_dir file_id in
      assembled_data ← read_all m (sorted chunk_files get_chunk_index) [];
      Ok (assembled_data, file_ext)
  end.

End Utils.

(** ** A concrete instance of the library parameters *)

(** MD5 (RFC 1321) on 32-bit words held in [N]. *)
Module MD5.

Definition mask32 (x : N) : N := N.land x 4294967295.
Definition add32 (x y : N) : N := mask32 (x + y).
Definition not32 (x : N) : N := N.lxor x 4294967295.
Definition rotl32 (x : N) (c : N) : N :=
  mask32 (N.lor (N.shiftl x c) (N.shiftr x (32 - c))).

Definition S_table : list N :=
  [7; 12; 17; 22; 7; 12; 17; 22; 7; 12; 17; 22; 7; 12; 17; 22;
   5; 9; 14; 20; 5; 9; 14; 20; 5; 9; 14; 20; 5; 9; 14; 20;
   4; 11; 16; 23; 4; 11; 16; 23; 4; 11; 16; 23; 4; 11; 16; 23;
   6; 10; 15; 21; 6; 10; 15; 21; 6; 10; 15; 21; 6; 10; 15; 21]%N.

Definition K_table : list N :=
  [3614090360; 3905402710; 606105819; 3250441966; 4118548399; 1200080426;
   2821735955; 4249261313; 1770035416; 2336552879; 4294925233; 2304563134;
   1804603682; 4254626195; 2792965006; 1236535329; 4129170786; 3225465664;
   643717713; 3921069994; 3593408605; 38016083; 3634488961; 3889429448;
   568446438; 3275163606; 4107603335; 1163531501; 2850285829; 4243563512;
   1735328473; 2368359562; 4294588738; 2272392833; 1839030562; 4259657740;
   2763975236; 1272893353; 4139469664; 3200236656; 681279174; 3936430074;
   3572445317; 76029189; 3654602809; 3873151461; 530742520; 3299628645;
   4096336452; 1126891415; 2878612391; 4237533241; 1700485571; 2399980690;
   4293915773; 2240044497; 1873313359; 4264355552; 2734768916; 1309151649;
   4149444226; 3174756917; 718787259; 3951481745]%N.

(** Little-endian words and bytes. *)
Definition word_of_bytes (b0 b1 b2 b3 : byte) : N :=
  (Byte.to_N b0 + 256 * (Byte.to_N b1 + 256 * (Byte.to_N b2 + 256 * Byte.to_N b3)))%N.

Fixpoint words_of_bytes (l : bytes) : list N :=
  match l with
  | b0 :: b1 :: b2 :: b3 :: rest => word_of_bytes b0 b1 b2 b3 :: words_of_bytes rest
  | _ => []
  end.

Fixpoint bytes_of_N (count : nat) (x : N) : bytes :=
  match count with
  | O => []
  | S k => byte_of_N x :: bytes_of_N k (N.shiftr x 8)
  end.

(** The message followed by 0x80, zeros up to 56 modulo 64, and the bit
    length on eight bytes. *)
Definition pad (msg : bytes) : bytes :=
  let len := length msg in
  let zeros := ((119 - len mod 64) mod 64)%nat in
  msg ++ [x80] ++ repeat x00 zeros ++ bytes_of_N 8 (N.of_nat len * 8).

Definition round (M : list N) (st : N * N * N * N) (i : nat) : N * N * N * N :=
  let '(a, b, c, d) := st in
  let '(f, g) :=
    match (i / 16)%nat with
    | 0%nat => (N.lor (N.land b c) (N.land (not32 b) d), i)
    | 1%nat => (N.lor (N.land d b) (N.land (not32 d) c), ((5 * i + 1) mod 16)%nat)
    | 2%nat => (N.lxor b (N.lxor c d), ((3 * i + 5) mod 16)%nat)
    | _ => (N.lxor c (N.lor b (not32 d)), ((7 * i) mod 16)%nat)
    end in
  let f := add32 (add32 (add32 f a) (nth i K_table 0%N)) (nth g M 0%N) in
  (d, add32 b (rotl32 f (nth i S_table 0%N)), b, c).

Definition block (st : N * N * N * N) (M : list N) : N * N * N * N :=
  let '(a0, b0, c0, d0) := st in
  let '(a, b, c, d) := foldl (round M) st (seq 0 64) in
  (add32 a0 a, add32 b0 b, add32 c0 c, add32 d0 d).

Fixpoint blocks (fuel : nat) (ws : list N) (st : N * N * N * N) : N * N * N * N :=
  match fuel with
  | O => st
  | S k =>
      match ws with
      | [] => st
      | _ => blocks k (drop 16 ws) (block st (take 16 ws))
      end
  end.

Definition digest (msg : bytes) : bytes :=
  let ws := words_of_bytes (pad msg) in
  let '(a, b, c, d) :=
    blocks (length ws) ws (1732584193, 4023233417, 2562383102, 271733878)%N in
  bytes_of_N 4 a ++ bytes_of_N 4 b ++ bytes_of_N 4 c ++ bytes_of_N 4 d.

Definition hex_digit (n : N) : ascii :=
  nth (N.to_nat n) (String.list_ascii_of_string "0123456789abcdef") "0"%char.

Fixpoint hex (l : bytes) : string :=
  match l with
  | [] => EmptyString
  | b :: rest =>
      String (hex_digit (N.shiftr (Byte.to_N b) 4))
        (String (hex_digit (N.land (Byte.to_N b) 15)) (hex rest))
  end.

(** [hashlib.md5(msg).hexdigest()] *)
Definition hexdigest (msg : bytes) : string := hex (digest msg).

End MD5.

(** [posixpath.splitext(p)[1]]: from the last dot of the final component
    on, unless only dots precede it. *)
Fixpoint only_dots (s : string) : bool :=
  match s with
  | EmptyString => true
  | String c s' => Ascii.eqb c "." && only_dots s'
  end.

Definition posix_splitext_ext (p : string) : string :=
  match PyStr.rsplit_at "." (PyStr.path_name p) with
  | Some (before, after) =>
      if only_dots before then EmptyString else String "." after
  | None => EmptyString
  end.

(** [s.lower()] on code points below 256: the letters A to Z, and those
    of U+00C0 to U+00DE, which leaves out the multiplication sign. *)
Definition ascii_lower_char (c : ascii) : ascii :=
  let n := N_of_ascii c in
  if ((65 <=? n) && (n <=? 90)
      || (192 <=? n) && (n <=? 222) && negb (n =? 215))%N
  then ascii_of_N (n + 32) else c.

Fixpoint ascii_lower (s : string) : string :=
  match s with
  | EmptyString => EmptyString
  | String c s' => String (ascii_lower_char c) (ascii_lower s')
  end.

(** Some entries of the [mimetypes] table: those of the usual media
    suffixes.  The table of the library has many more. *)
Definition media_types : list (string * string) :=
  [(".jpg", "image/jpeg"); (".jpeg", "image/jpeg"); (".png", "image/png");
   (".gif", "image/gif"); (".bmp", "image/bmp"); (".webp", "image/webp");
   (".mp4", "video/mp4"); (".webm", "video/webm"); (".avi", "video/x-msvideo");
   (".mov", "video/quicktime"); (".txt", "text/plain");
   (".pdf", "application/pdf")]%string.

Definition posix_guess_type (name : string) : option string :=
  let ext := ascii_lower (posix_splitext_ext name) in
  snd <$> List.find (λ e, String.eqb (fst e) ext) media_types.

(** [bytes.decode('utf-8')] for text of code points below 256: a byte
    below 0x80 stands for itself, [0xC2] and [0xC3] start the two-byte
    forms of U+0080 to U+00FF.  Any other sequence is refused: where it
    is valid UTF-8 it decodes to a character that [string] does not
    have. *)
Fixpoint utf8_decode (b : bytes) : option string :=
  match b with
  | [] => Some EmptyString
  | x :: rest =>
      let n := Byte.to_N x in
      if (n <? 128)%N then String (ascii_of_N n) <$> utf8_decode rest
      else
        match rest with
        | y :: rest' =>
            let k := Byte.to_N y in
            if ((n =? 194) || (n =? 195))%N && ((128 <=? k) && (k <? 192))%N
            then String (ascii_of_N ((n - 192) * 64 + (k - 128)))
                   <$> utf8_decode rest'
            else None
        | [] => None
        end
  end.

(** Reading in text mode: a carriage return, with the line feed that
    follows it when there is one, is read as a line feed. *)
Fixpoint universal_newlines (s : string) : string :=
  match s with
  | EmptyString => EmptyString
  | String "013" s' =>
      match s' with
      | String "010" s'' => String "010" (universal_newlines s'')
      | _ => String "010" (universal_newlines s')
      end
  | String c s' => String c (universal_newlines s')
  end.

(** The library functions on text of code points below 256 and POSIX
    paths, with the real MD5 and the part of the [mimetypes] table given
    above; used where a property is run on concrete input. *)
Definition posix_lib : pylib := {|
  read_text := λ data, universal_newlines <$> utf8_decode data;
  splitext_ext := posix_splitext_ext;
  md5_hexdigest := MD5.hexdigest;
  guess_type := posix_guess_type;
  lower := ascii_lower
|}.

(** ** [konachan/api.py]: the retrying page fetcher *)

Module Konachan.

(** What [save_data(data)] does with a parsed payload.  It catches the
    database errors of every record itself; what can still leave it is
    kept as two cases, a [ValueError] and any other exception. *)
Inductive save_outcome : Type :=
| Saved
| SaveValueError
| SaveOtherError.

(** What [response.json()] gives. *)
Inductive json_outcome : Type :=
| JsonInvalid                      (* ValueError / JSONDecodeError *)
| JsonNull                         (* the document [null]: [data is None] *)
| JsonData (save : save_outcome).  (* a document, and what saving it does *)

Record response : Type := {
  status_code : Z;
  content_empty : bool;            (* [not response.content] *)
  json : json_outcome
}.

(** What one [client.get(BASE_URL, params=..., timeout=...)] does.  The
    libraries build an [HTTPError] only inside [raise_for_status]; a
    failed exchange surfaces from [get] as one of the transport
    exceptions, a completed one as a response whatever its status. *)
Inductive get_outcome : Type :=
| GetTimeout                       (* requests.Timeout *)
| GetConnectionError               (* requests.ConnectionError *)
| GetRequestException              (* another requests.RequestException *)
| GetValueError                    (* a ValueError that is no requests
                                      exception, e.g. for a timeout that is
                                      not positive *)
| GetOtherException                (* an exception of any other class *)
| GetResponse (r : response).

(** The module state and the observable effects of a run. *)
Record fetch_state : Type := {
  http_client : option nat;        (* [_http_client]; [Some k]: the k-th session *)
  clients_created : nat;
  resets : nat;                    (* calls of [_reset_http_client] *)
  sleeps : list Z;                 (* arguments of [time.sleep], in order *)
  requests : list (Z * nat);       (* page and session of every [client.get] *)
  success_pages : Z;
  failed_pages : Z
}.

Definition _get_http_client (s : fetch_state) : nat * fetch_state :=
  match http_client s with
  | Some client => (client, s)
  | None =>
      let client := clients_created s in
      (client,
       {| http_client := Some client; clients_created := S (clients_created s);
          resets := resets s; sleeps := sleeps s; requests := requests s;
          success_pages := success_pages s; failed_pages := failed_pages s |})
  end.

Definition _reset_http_client (s : fetch_state) : fetch_state :=
  {| http_client := None; clients_created := clients_created s;
     resets := S (resets s); sleeps := sleeps s; requests := requests s;
     success_pages := success_pages s; failed_pages := failed_pages s |}.

(** The longest delay [time.sleep] takes: more seconds do not fit the
    64-bit count of nanoseconds it converts them to. *)
Definition MAX_SLEEP : Z := 9223372036.

(** [time.sleep(delay)] for an [int]: a negative delay is a ValueError,
    one beyond [MAX_SLEEP] an OverflowError. *)
Definition sleep (delay : Z) (s : fetch_state) : result fetch_state :=
  if delay <? 0 then Raise ValueError
  else if MAX_SLEEP <? delay then Raise OverflowError
  else
    Ok {| http_client := http_client s; clients_created := clients_created s;
          resets := resets s; sleeps := sleeps s ++ [delay];
          requests := requests s;
          success_pages := success_pages s; failed_pages := failed_pages s |}.

Definition log_request (page_num : Z) (client : nat) (s : fetch_state)
    : fetch_state :=
  {| http_client := http_client s; clients_created := clients_created s;
     resets := resets s; sleeps := sleeps s;
     requests := requests s ++ [(page_num, client)];
     success_pages := success_pages s; failed_pages := failed_pages s |}.

Definition count_success (s : fetch_state) : fetch_state :=
  {| http_client := http_client s; clients_created := clients_created s;
     resets := resets s; sleeps := sleeps s; requests := requests s;
     success_pages := success_pages s + 1; failed_pages := failed_pages s |}.

Definition count_failed (s : fetch_state) : fetch_state :=
  {| http_client := http_client s; clients_created := clients_created s;
     resets := resets s; sleeps := sleeps s; requests := requests s;
     success_pages := success_pages s; failed_pages := failed_pages s + 1 |}.

(** The [try] body of one attempt (lines 114-177), given what [client.get]
    did: it ends normally (the page is saved) or raises.  A status other
    than 200 raises [requests.HTTPError(f"HTTP ...")], an exception built
    without its [response]. *)
Definition try_body (o : get_outcome) : result unit :=
  match o with
  | GetTimeout => Raise Timeout
  | GetConnectionError => Raise ConnectionError
  | GetRequestException => Raise RequestException
  | GetValueError => Raise ValueError
  | GetOtherException => Raise OtherException
  | GetResponse r =>
      if negb (status_code r =? 200) then Raise (HTTPError None)
      else if content_empty r then Raise ValueError
      else
        match json r with
        | JsonInvalid => Raise ValueError
        | JsonNull => Raise ValueError
        | JsonData Saved => Ok ()
        | JsonData SaveValueError => Raise ValueError
        | JsonData SaveOtherError => Raise OtherException
        end
  end.

(** How a handler leaves the [while] loop body. *)
Inductive control : Type :=
| Break
| Again.                           (* [continue], or the end of the body *)

(** [delay = BASE_DELAY * (2 ** (retry_count - 1)); time.sleep(delay)] *)
Definition backoff (cfg : config) (retry_count : nat) (s : fetch_state)
    : result fetch_state :=
  sleep (BASE_DELAY cfg * 2 ^ (Z.of_nat retry_count - 1)) s.

(** [retry_count += 1] followed by the backoff sleep while retries are
    left; the body then ends and the loop test runs. *)
Definition retry_with_backoff (cfg : config) (retry_count : nat)
    (s : fetch_state) : result (nat * fetch_state * control) :=
  let retry_count := S retry_count in
  if Z.of_nat retry_count <? MAX_RETRIES cfg
  then s ← backoff cfg retry_count s; Ok (retry_count, s, Again)
  else Ok (retry_count, s, Again).

(** The [except] clauses (lines 179-253), in their order.  What a clause
    itself raises, the sleep that refuses its delay, is caught by no
    clause and leaves [get_data]. *)
Definition handle (cfg : config) (e : exn) (retry_count : nat)
    (s : fetch_state) : result (nat * fetch_state * control) :=
  match e with
  | Timeout => retry_with_backoff cfg retry_count s
  | ConnectionError => retry_with_backoff cfg retry_count s
  | HTTPError response =>
      (* [status_code = getattr(e.response, 'status_code', None)] *)
      let status_code := response in
      match status_code with
      | Some 403 =>
          let s := _reset_http_client s in
          let retry_count := S retry_count in
          if Z.of_nat retry_count <? MAX_RETRIES cfg
          then s ← backoff cfg retry_count s; Ok (retry_count, s, Again)
          else Ok (retry_count, count_failed s, Break)
      | _ =>
          match status_code with
          | Some code =>
              if negb (code =? 0) && (code >=? 500) then
                let retry_count := S retry_count in
                if Z.of_nat retry_count <? MAX_RETRIES cfg
                then s ← backoff cfg retry_count s; Ok (retry_count, s, Again)
                else Ok (retry_count, count_failed s, Break)
              else Ok (retry_count, count_failed s, Break)
          | None => Ok (retry_count, count_failed s, Break)
          end
      end
  | RequestException => retry_with_backoff cfg retry_count s
  | ValueError | JSONDecodeError | UnicodeDecodeError | BinasciiError =>
      Ok (retry_count, count_failed s, Break)
  | _ => retry_with_backoff cfg retry_count s
  end.

(** The variables of one page. *)
Record page_state : Type := {
  retry_count : nat;
  page_success : bool;
  fetch : fetch_state
}.

(** [while retry_count < MAX_RETRIES] over the attempts delivered by
    [attempt], indexed by the value of [retry_count] when they are made. *)
Fixpoint retry_loop (fuel : nat) (cfg : config) (page_num : Z)
    (attempt : nat → result unit) (p : page_state) : result page_state :=
  match fuel with
  | O => Diverge
  | S fuel' =>
      if Z.of_nat (retry_count p) <? MAX_RETRIES cfg then
        let '(client, s) := _get_http_client (fetch p) in
        let s := log_request page_num client s in
        match attempt (retry_count p) with
        | Ok _ =>
            Ok {| retry_count := retry_count p; page_success := true;
                  fetch := count_success s |}
        | Raise e =>
            match handle cfg e (retry_count p) s with
            | Ok (retry_count', s', ctl) =>
                let p' := {| retry_count := retry_count'; page_success := false;
                             fetch := s' |} in
                match ctl with
                | Break => Ok p'
                | Again => retry_loop fuel' cfg page_num attempt p'
                end
            | Raise e' => Raise e'
            | Diverge => Diverge
            end
        | Diverge => Diverge
        end
      else Ok p
  end.

(** Every pass through the body that does not leave the loop adds one to
    [retry_count], so the loop is over after [MAX_RETRIES] passes and one
    more test. *)
Definition retry_fuel (cfg : config) : nat := S (Z.to_nat (MAX_RETRIES cfg)).

(** The body of the [for page_num in range(...)] loop for attempts given
    as try-body outcomes. *)
Definition process_page (cfg : config) (end_page page_num : Z)
    (attempt : nat → result unit) (s : fetch_state) : result fetch_state :=
  p ← retry_loop (retry_fuel cfg) cfg page_num attempt
         {| retry_count := 0; page_success := false; fetch := s |};
  let s :=
    if negb (page_success p) && (Z.of_nat (retry_count p) >=? MAX_RETRIES cfg)
    then count_failed (fetch p) else fetch p in
  if page_num <? end_page then sleep 1 s else Ok s.

(** One page against the network: attempt [k] is the try body run on what
    the [k]-th [client.get] of the page does. *)
Definition fetch_page (cfg : config) (env : Z → nat → get_outcome)
    (end_page page_num : Z) (s : fetch_state) : result fetch_state :=
  process_page cfg end_page page_num (λ k, try_body (env page_num k)) s.

Fixpoint fetch_pages (cfg : config) (env : Z → nat → get_outcome)
    (end_page : Z) (pages : list Z) (s : fetch_state) : result fetch_state :=
  match pages with
  | [] => Ok s
  | page_num :: rest =>
      s' ← fetch_page cfg env end_page page_num s;
      fetch_pages cfg env end_page rest s'
  end.

(** The dictionary [get_data] returns. *)
Record stats : Type := { success : Z; failed : Z; total : Z }.

(** [get_data(start_page, end_page, limit)], started in the module state
    [s] with both counters at zero.  The exceptions of the requests are
    caught page by page; one raised by a sleep leaves the function. *)
Definition get_data (cfg : config) (env : Z → nat → get_outcome)
    (start_page end_page limit : Z) (s : fetch_state)
    : result (stats * fetch_state) :=
  if (start_page <? 1) || (end_page <? 1) || (limit <? 1)
  then Ok ({| success := 0; failed := 0; total := 0 |}, s)
  else if start_page >? end_page
  then Ok ({| success := 0; failed := 0; total := 0 |}, s)
  else
    let s0 :=
      {| http_client := http_client s; clients_created := clients_created s;
         resets := resets s; sleeps := sleeps s; requests := requests s;
         success_pages := 0; failed_pages := 0 |} in
    s' ← fetch_pages cfg env end_page
           (seqZ start_page (end_page + 1 - start_page)) s0;
    let total_pages := end_page - start_page + 1 in
    Ok ({| success := success_pages s'; failed := failed_pages s';
           total := total_pages |}, s').

End Konachan.

(** ** [fs/api.py]: direct upload, [merge_chunks] and [generate_thumbnail] *)

Module FsApi.
Import PyStr Fs.

(** A row of the [file_info] table, with the fields the code below sets. *)
Record FileInfo : Type := {
  id : Z;
  code : string;                   (* UUID, unique *)
  name : string;
  md5 : string;                    (* unique *)
  size : Z;
  type_ : string;
  mime : string;
  source_addr : string;
  status : string;
  thumbnail_addr : option string;
  data_chunks : list string;       (* [data['chunks']] *)
  data_storage_dir : string        (* [data['storage_dir']] *)
}.

(** The tables: the rows in the order of [Meta.ordering =
    ['-created_time']] (newest first), the next primary key, the keys of
    the [file_appertain] table (categories and tags), and the
    [FileRelationship] pairs. *)
Record database : Type := {
  rows : list FileInfo;
  next_id : Z;
  appertains : list Z;
  relationships : list (Z * Z)
}.

(** [FileInfo.objects.filter(md5=m).first()] *)
Definition filter_md5_first (d : database) (m : string) : option FileInfo :=
  List.find (λ r, String.eqb (md5 r) m) (rows d).

(** [FileInfo.objects.create(...)]: a fresh primary key; the unique
    columns [md5] and [code] refuse a duplicate. *)
Definition objects_create (d : database) (mk : Z → FileInfo)
    : result (FileInfo * database) :=
  let r := mk (next_id d) in
  if existsb (λ r', String.eqb (md5 r') (md5 r) || String.eqb (code r') (code r))
       (rows d)
  then Raise IntegrityError
  else Ok (r, {| rows := r :: rows d; next_id := next_id d + 1;
                 appertains := appertains d;
                 relationships := relationships d |}).

(** [file_info.save()]: the row with that primary key takes the values of
    the object. *)
Definition save (d : database) (r : FileInfo) : database :=
  {| rows := (λ r', if id r' =? id r then r else r') <$> rows d;
     next_id := next_id d; appertains := appertains d;
     relationships := relationships d |}.

(** [FileRelationship.objects.create(...)] for every id, each inside
    [try ... except Exception: pass]: the table refuses an id that is no
    key of [file_appertain] and a pair it holds already, and the refusal
    is swallowed. *)
Definition relate (d : database) (file_id : Z) (ids : list Z) : database :=
  {| rows := rows d; next_id := next_id d; appertains := appertains d;
     relationships :=
       foldl (λ rel a,
                if bool_decide (a ∈ appertains d)
                   && negb (bool_decide ((file_id, a) ∈ rel))
                then rel ++ [(file_id, a)] else rel)
         (relationships d) ids |}.

Record state : Type := {
  disk : gmap string node;
  db : database
}.

Record chunk_info : Type := {
  chunk_index : Z;
  chunk_uuid : string
}.

(** The JSON body of a merge request; a missing text field is the empty
    string. *)
Record merge_request : Type := {
  file_md5 : string;
  file_name : string;
  file_size : Z;
  chunks : list chunk_info;
  category_ids : list Z;
  tag_ids : list Z;
  generate_thumbnail_flag : bool;
  thumbnail_base64 : option string
}.

(** What [subprocess.run(['ffmpeg', ...], timeout=30)] does: the program
    is not installed, the call raises (the timeout), or the program ends
    with a return code; a run may have written its output file. *)
Inductive ffmpeg_outcome : Type :=
| FfmpegMissing                              (* FileNotFoundError *)
| FfmpegRaised (output : option bytes)       (* subprocess.TimeoutExpired *)
| FfmpegExit (returncode : Z) (output : option bytes).

(** What a call gets from its surroundings: the settings, the clock, the
    UUIDs it draws and the image tools. *)
Record call_env : Type := {
  SECRET_KEY : string;
  FS_MEDIA_ROOT : string;
  time_str : string;               (* [datetime.now().strftime('%Y%m%d')] *)
  code_uuid : string;              (* the default of [FileInfo.code] *)
  thumb_uuid : string;             (* in [thumb_{uuid}.enc] *)
  temp_uuid : string;              (* in [temp_{uuid}] *)
  frame_uuid : string;             (* in [thumb_{uuid}.jpg] *)
  render : bytes → option bytes;   (* PIL on the assembled file: the JPEG
                                      bytes, [None] when it raises *)
  ffmpeg : bytes → ffmpeg_outcome  (* ffmpeg on the assembled file *)
}.

Inductive message : Type :=
| MissingParameters                (* 缺少必要参数 *)
| FileExists                       (* 文件已存在 *)
| ChunkMissing (chunk_uuid : string)   (* 分片 ... 不存在 *)
| Md5Mismatch                      (* MD5校验失败 *)
| UploadDone                       (* 文件上传成功 *)
| MergeFailed (e : exn).           (* 合并失败: ... *)

(** The [JsonResponse]: [data] holds [file_id], [file_code], [exists]. *)
Record response : Type := {
  success : bool;
  msg : message;
  data : option (Z * string * bool)
}.

Definition failure (m : message) : response :=
  {| success := false; msg := m; data := None |}.

(** [outfile.write(data)] on the open merged file.  The write is taken
    to reach the file at once; Python holds it in a buffer until the file
    is closed, which shows only when the file is read while it is open
    for writing. *)
Definition append_bytes (m : gmap string node) (p : string) (data : bytes)
    : gmap string node :=
  match m !! p with
  | Some (File old) => <[p := File (old ++ data)]> m
  | _ => <[p := File data]> m
  end.

Inductive merge_end : Type :=
| MergeDone (chunk_uuids : list string)
| MergeMissing (chunk_uuid : string)
| MergeRaised (e : exn).

(** The loop over [chunks_info] inside [with open(merged_file_path,
    'wb')] (lines 693-702). *)
Fixpoint merge_loop (m : gmap string node) (storage_dir merged_file_path : string)
    (chunks_info : list chunk_info) (chunk_uuids : list string)
    : gmap string node * merge_end :=
  match chunks_info with
  | [] => (m, MergeDone chunk_uuids)
  | ci :: rest =>
      let chunk_path := path_join storage_dir (chunk_uuid ci) in
      if exists_ m chunk_path then
        match read_bytes m chunk_path with
        | Ok data =>
            merge_loop (append_bytes m merged_file_path data) storage_dir
              merged_file_path rest (chunk_uuids ++ [chunk_uuid ci])
        | Raise e => (m, MergeRaised e)
        | Diverge => (m, MergeRaised OtherException)
        end
      else (m, MergeMissing (chunk_uuid ci))
  end.

Definition image_types : list string :=
  ["jpg"; "jpeg"; "png"; "gif"; "webp"; "bmp"; "svg"; "ico"; "tiff"; "tif"]%string.
Definition video_types : list string :=
  ["mp4"; "avi"; "mov"; "wmv"; "flv"; "mkv"; "webm"; "m4v"; "3gp"; "rmvb"; "rm"]%string.

(** [is_image] and [is_video] by the extension. *)
Definition kind_of_extension (L : pylib) (file_ext : string) : bool * bool :=
  let file_ext := lower L file_ext in
  (bool_decide (file_ext ∈ image_types), bool_decide (file_ext ∈ video_types)).

(** [is_image] and [is_video] as [merge_chunks] finds them (lines
    768-776): from the MIME type, and from the extension when that says
    neither. *)
Definition media_kind (L : pylib) (mime_type file_ext : string) : bool * bool :=
  let is_image := startswith "image/" mime_type in
  let is_video := startswith "video/" mime_type in
  if negb (is_image || is_video) then kind_of_extension L file_ext
  else (is_image, is_video).

(** [is_image or is_video] *)
Definition is_media (L : pylib) (mime type_ : string) : bool :=
  (media_kind L mime type_).1 || (media_kind L mime type_).2.

(** The same as [generate_thumbnail] finds them (lines 297-313): an empty
    type is not looked up. *)
Definition thumbnail_kind (L : pylib) (file_info : FileInfo) : bool * bool :=
  let is_image := startswith "image/" (mime file_info) in
  let is_video := startswith "video/" (mime file_info) in
  if negb (is_image || is_video)
     && negb (bool_decide (type_ file_info = EmptyString))
  then kind_of_extension L (type_ file_info)
  else (is_image, is_video).

(** Writing the encrypted thumbnail and recording it on the row. *)
Definition store_thumbnail (env : call_env) (storage_dir : string)
    (file_info : FileInfo) (thumbnail_data : bytes) (st : state)
    : run state FileInfo :=
  match Cipher.encrypt_data (SECRET_KEY env) thumbnail_data with
  | Diverge => Diverges
  | Raise e => Raises e st
  | Ok encrypted_thumbnail =>
      let thumbnail_filename := ("thumb_" +:+ thumb_uuid env +:+ ".enc")%string in
      let thumbnail_path := path_join storage_dir thumbnail_filename in
      match write_bytes (disk st) thumbnail_path (str_encode encrypted_thumbnail) with
      | Diverge => Diverges
      | Raise e => Raises e st
      | Ok disk' =>
          let file_info :=
            {| id := id file_info; code := code file_info; name := name file_info;
               md5 := md5 file_info; size := size file_info;
               type_ := type_ file_info; mime := mime file_info;
               source_addr := source_addr file_info; status := status file_info;
               thumbnail_addr := Some thumbnail_filename;
               data_chunks := data_chunks file_info;
               data_storage_dir := data_storage_dir file_info |} in
          Returns file_info {| disk := disk'; db := save (db st) file_info |}
      end
  end.

(** The assembly loop of [generate_thumbnail] (lines 325-334): a chunk
    that is missing is skipped. *)
Fixpoint assemble_temp (m : gmap string node) (storage_dir temp_file_path : string)
    (chunks : list string) : gmap string node * option exn :=
  match chunks with
  | [] => (m, None)
  | chunk_uuid :: rest =>
      let chunk_path := path_join storage_dir chunk_uuid in
      if exists_ m chunk_path then
        match read_bytes m chunk_path with
        | Ok chunk_data =>
            assemble_temp (append_bytes m temp_file_path chunk_data) storage_dir
              temp_file_path rest
        | Raise e => (m, Some e)
        | Diverge => (m, Some OtherException)
        end
      else assemble_temp m storage_dir temp_file_path rest
  end.

(** The video branch (lines 382-421): ffmpeg is asked for one frame at
    [thumb_{uuid}.jpg]; the frame is read and removed when the program
    reports success, and what the program wrote stays where it is when it
    does not.  Every exception is caught in the branch. *)
Definition extract_frame (env : call_env) (storage_dir : string)
    (assembled : bytes) (m : gmap string node)
    : gmap string node * option bytes :=
  let thumbnail_path :=
    path_join storage_dir ("thumb_" +:+ frame_uuid env +:+ ".jpg") in
  let written (output : option bytes) : gmap string node :=
    match output with
    | Some data =>
        match write_bytes m thumbnail_path data with
        | Ok m' => m'
        | _ => m
        end
    | None => m
    end in
  match ffmpeg env assembled with
  | FfmpegMissing => (m, None)
  | FfmpegRaised output => (written output, None)
  | FfmpegExit returncode output =>
      let m := written output in
      if (returncode =? 0) && exists_ m thumbnail_path then
        match read_bytes m thumbnail_path with
        | Ok thumbnail_data =>
            match remove m thumbnail_path with
            | Ok m' => (m', Some thumbnail_data)
            | _ => (m, Some thumbnail_data)
            end
        | _ => (m, None)
        end
      else (m, None)
  end.

(** [generate_thumbnail]: every exception is caught and logged, the
    object is returned as the caller goes on using it.  The picture of an
    image is [render env]; the image size stored in [wh] is left out. *)
Definition generate_thumbnail (L : pylib) (env : call_env)
    (file_info : FileInfo) (storage_dir : string) (chunks : list string)
    (st : state) : run state FileInfo :=
  let '(is_image, is_video) := thumbnail_kind L file_info in
  if negb (is_image || is_video)
  then Returns file_info st
  else
    let temp_file_path := path_join storage_dir ("temp_" +:+ temp_uuid env) in
    match write_bytes (disk st) temp_file_path [] with
    | Diverge => Diverges
    | Raise _ => Returns file_info st
    | Ok m =>
        match assemble_temp m storage_dir temp_file_path chunks with
        | (m, Some _) => Returns file_info {| disk := m; db := db st |}
        | (m, None) =>
            match m !! temp_file_path with
            | Some (File []) | Some Dir | None =>
                (* [os.path.getsize(temp_file_path) == 0]: given up, the
                   temporary file stays *)
                Returns file_info {| disk := m; db := db st |}
            | Some (File assembled) =>
                let '(m, thumbnail_data) :=
                  if is_image then (m, render env assembled)
                  else extract_frame env storage_dir assembled m in
                (* [if os.path.exists(temp_file_path): os.remove(...)] *)
                match (if exists_ m temp_file_path
                       then remove m temp_file_path else Ok m) with
                | Diverge => Diverges
                | Raise _ => Returns file_info {| disk := m; db := db st |}
                | Ok m =>
                    match thumbnail_data with
                    | Some (b :: rest) =>
                        match store_thumbnail env storage_dir file_info
                                (b :: rest) {| disk := m; db := db st |} with
                        | Diverges => Diverges
                        | Raises _ st' => Returns file_info st'
                        | Returns file_info' st' => Returns file_info' st'
                        end
                    | _ => Returns file_info {| disk := m; db := db st |}
                    end
                end
            end
        end
    end.

(** [base64.b64decode(s)] on a [str]: ASCII only. *)
Definition b64decode_str (s : string) : result bytes :=
  let b := String.list_byte_of_string s in
  if forallb is_ascii_byte b then Base64.b64decode b else Raise ValueError.

(** The thumbnail part of [merge_chunks] (lines 766-851). *)
Definition thumbnail_stage (L : pylib) (env : call_env) (req : merge_request)
    (file_info : FileInfo) (storage_dir : string) (chunk_uuids : list string)
    (st : state) : run state FileInfo :=
  let media := is_media L (mime file_info) (type_ file_info) in
  let backend : run state FileInfo :=
    if generate_thumbnail_flag req && media && negb (bool_decide (chunk_uuids = []))
    then generate_thumbnail L env file_info storage_dir chunk_uuids st
    else Returns file_info st in
  match thumbnail_base64 req with
  | Some t =>
      if negb (bool_decide (strip t = EmptyString)) && generate_thumbnail_flag req
      then
        match b64decode_str t with
        | Diverge => Diverges
        | Raise _ => backend
        | Ok thumbnail_data =>
            match store_thumbnail env storage_dir file_info thumbnail_data st with
            | Diverges => Diverges
            | Raises _ st' =>
                if generate_thumbnail_flag req && media
                   && negb (bool_decide (chunk_uuids = []))
                then generate_thumbnail L env file_info storage_dir chunk_uuids st'
                else Returns file_info st'
            | Returns file_info' st' => Returns file_info' st'
            end
        end
      else backend
  | None => backend
  end.

Definition set_status (file_info : FileInfo) (s : string) : FileInfo :=
  {| id := id file_info; code := code file_info; name := name file_info;
     md5 := md5 file_info; size := size file_info; type_ := type_ file_info;
     mime := mime file_info; source_addr := source_addr file_info; status := s;
     thumbnail_addr := thumbnail_addr file_info;
     data_chunks := data_chunks file_info;
     data_storage_dir := data_storage_dir file_info |}.

(** The rest of [merge_chunks] once the hash is verified and the merged
    file removed (lines 715-874): the row, its relations, the thumbnail,
    the final status. *)
Definition register_file (L : pylib) (env : call_env) (req : merge_request)
    (storage_dir relative_path : string) (chunk_uuids : list string)
    (st : state) : run state response :=
  let file_ext :=
    match rsplit_at "." (file_name req) with
    | Some _ =>
        let ext := splitext_ext L (file_name req) in
        lower L (String.substring 1 (String.length ext) ext)
    | None => "unknown"%string
    end in
  let mime_type := default "unknown"%string (guess_type L (file_name req)) in
  match objects_create (db st) (λ new_id,
          {| id := new_id; code := code_uuid env; name := file_name req;
             md5 := file_md5 req; size := file_size req; type_ := file_ext;
             mime := mime_type; source_addr := relative_path;
             status := "processing"; thumbnail_addr := None;
             data_chunks := chunk_uuids; data_storage_dir := storage_dir |}) with
  | Diverge => Diverges
  | Raise e => Returns (failure (MergeFailed e)) st
  | Ok (file_info, d) =>
      let d := relate d (id file_info) (category_ids req) in
      let d := relate d (id file_info) (tag_ids req) in
      match thumbnail_stage L env req file_info storage_dir chunk_uuids
              {| disk := disk st; db := d |} with
      | Diverges => Diverges
      | Raises e st' => Returns (failure (MergeFailed e)) st'
      | Returns file_info st' =>
          let file_info := set_status file_info "enable" in
          Returns {| success := true; msg := UploadDone;
                     data := Some (id file_info, code file_info, false) |}
            {| disk := disk st'; db := save (db st') file_info |}
      end
  end.

(** [merge_chunks].  The view catches every exception and answers with a
    failure message, so it returns a response or does not terminate. *)
Definition merge_chunks (L : pylib) (env : call_env) (req : merge_request)
    (st : state) : run state response :=
  if bool_decide (file_md5 req = EmptyString)
     || bool_decide (file_name req = EmptyString)
     || bool_decide (chunks req = [])
  then Returns (failure MissingParameters) st
  else
    (* is the file known already? *)
    match filter_md5_first (db st) (file_md5 req) with
    | Some existing_file =>
        Returns {| success := true; msg := FileExists;
                   data := Some (id existing_file, code existing_file, true) |} st
    | None =>
        let storage_dir :=
          path_join (path_join (FS_MEDIA_ROOT env) (time_str env)) (file_md5 req) in
        match mkdir (disk st) storage_dir with
        | Diverge => Diverges
        | Raise e => Returns (failure (MergeFailed e)) st
        | Ok m =>
            let relative_path :=
              path_join (path_join "media" (time_str env)) (file_md5 req) in
            let chunks_info := Utils.sorted (chunks req) chunk_index in
            let merged_file_path := path_join storage_dir (file_name req) in
            (* [open(merged_file_path, 'wb')] *)
            match write_bytes m merged_file_path [] with
            | Diverge => Diverges
            | Raise e => Returns (failure (MergeFailed e)) {| disk := m; db := db st |}
            | Ok m =>
                match merge_loop m storage_dir merged_file_path chunks_info [] with
                | (m, MergeRaised e) =>
                    Returns (failure (MergeFailed e)) {| disk := m; db := db st |}
                | (m, MergeMissing u) =>
                    Returns (failure (ChunkMissing u)) {| disk := m; db := db st |}
                | (m, MergeDone chunk_uuids) =>
                    match read_bytes m merged_file_path with
                    | Diverge => Diverges
                    | Raise e =>
                        Returns (failure (MergeFailed e)) {| disk := m; db := db st |}
                    | Ok merged =>
                        let calculated_md5 := md5_hexdigest L merged in
                        if negb (String.eqb calculated_md5 (file_md5 req)) then
                          match remove m merged_file_path with
                          | Diverge => Diverges
                          | Raise e =>
                              Returns (failure (MergeFailed e))
                                {| disk := m; db := db st |}
                          | Ok m =>
                              Returns (failure Md5Mismatch)
                                {| disk := m; db := db st |}
                          end
                        else
                          (* verified: the merged file goes, the chunks stay *)
                          match remove m merged_file_path with
                          | Diverge => Diverges
                          | Raise e =>
                              Returns (failure (MergeFailed e))
                                {| disk := m; db := db st |}
                          | Ok m =>
                              register_file L env req storage_dir relative_path
                                chunk_uuids {| disk := m; db := db st |}
                          end
                    end
                end
            end
        end
    end.

End FsApi.


(** ** [ALL/utils.py], continued: whole-file download, MIME types, dated
    directories *)

Module UtilsFiles.
Import PyStr Fs Utils.

(** [Path(p).parent] of a normalised path: what precedes the last slash,
    [/] for an entry of the root, [.] for a bare name. *)
Definition path_parent (p : string) : string :=
  match rsplit_at "/" p with
  | Some (EmptyString, _) => "/"
  | Some (before, _) => before
  | None => "."
  end.

(** The two messages of [download_file], with the exception they quote. *)
Inductive download_error : Type :=
| DownloadFailed (e : exn)       (* the clause for requests.RequestException *)
| SaveFailed (e : exn).          (* the clause for any other exception *)

(** [for chunk in response.iter_content(...): if chunk: f.write(chunk)] on
    the file opened at [p]. *)
Fixpoint write_stream (m : gmap string node) (p : string) (blocks : list bytes)
    : gmap string node :=
  match blocks with
  | [] => m
  | chunk :: rest =>
      match chunk with
      | [] => write_stream m p rest
      | _ => write_stream (FsApi.append_bytes m p chunk) p rest
      end
  end.

(** [download_file(url, save_path, stream=...)].  Both [except] clauses
    return, so the function returns its tuple whatever happens.  Without
    [stream] the body is read inside [requests.get], where a transfer
    that breaks is raised before anything touches the disk; with it the
    transfer breaks inside the loop, after the file was opened. *)
Definition download_file (server : string → http_outcome)
    (url save_path : string) (stream : bool) (w : world)
    : run world (bool * option download_error) :=
  let w := {| files := files w; requests := requests w ++ [url] |} in
  match server url with
  | HttpRaised => Returns (false, Some (DownloadFailed RequestException)) w
  | HttpResponse r =>
      if negb stream && body_fails r
      then Returns (false, Some (DownloadFailed RequestException)) w
      else if negb (status_ok r)
      then Returns (false, Some (DownloadFailed (HTTPError None))) w
      else
        match mkdir (files w) (path_parent save_path) with
        | Diverge => Diverges
        | Raise e => Returns (false, Some (SaveFailed e)) w
        | Ok m =>
            (* [open(save_path, 'wb')] *)
            match write_bytes m save_path [] with
            | Diverge => Diverges
            | Raise e =>
                Returns (false, Some (SaveFailed e))
                  {| files := m; requests := requests w |}
            | Ok m =>
                if stream then
                  let m := write_stream m save_path (body r) in
                  let w := {| files := m; requests := requests w |} in
                  if body_fails r
                  then Returns (false, Some (DownloadFailed RequestException)) w
                  else Returns (true, None) w
                else
                  let m := FsApi.append_bytes m save_path (concat (body r)) in
                  Returns (true, None) {| files := m; requests := requests w |}
            end
        end
  end.

(** [s.lstrip('.')] *)
Fixpoint lstrip_dots (s : string) : string :=
  match s with
  | String "." s' => lstrip_dots s'
  | _ => s
  end.

(** The dictionary of [get_mime_type]. *)
Definition mime_types : gmap string string :=
  list_to_map
    [("jpg", "image/jpeg"); ("jpeg", "image/jpeg"); ("png", "image/png");
     ("gif", "image/gif"); ("webp", "image/webp"); ("bmp", "image/bmp");
     ("m3u8", "application/vnd.apple.mpegurl")]%string.

Definition get_mime_type (L : pylib) (file_ext : string) : string :=
  let ext_lower := lstrip_dots (lower L file_ext) in
  default "application/octet-stream"%string (mime_types !! ext_lower).

(** [Path(p).is_dir()] *)
Definition is_dir (m : gmap string node) (p : string) : bool :=
  match m !! p with
  | Some Dir => true
  | _ => false
  end.

(** What is left of [s] behind the prefix [pre]. *)
Fixpoint drop_prefix (pre s : string) : option string :=
  match pre with
  | EmptyString => Some s
  | String c pre' =>
      match s with
      | String c' s' => if Ascii.eqb c c' then drop_prefix pre' s' else None
      | EmptyString => None
      end
  end.

(** The name under which [p] is an entry of the directory [d]: [p] is
    [d/name] for a name that is not empty and holds no slash. *)
Definition entry_name (d p : string) : option string :=
  match drop_prefix (d +:+ "/") p with
  | Some (String c name) =>
      if existsb (Ascii.eqb "/") (String.list_ascii_of_string (String c name))
      then None else Some (String c name)
  | _ => None
  end.

(** [Path(d).iterdir()]: the entries of [d], in no particular order;
    NotADirectoryError or FileNotFoundError when [d] is no directory. *)
Definition iterdir (m : gmap string node) (d : string) : result (list string) :=
  match m !! d with
  | Some Dir => Ok (filter (λ p, is_Some (entry_name d p)) (map_to_list m).*1)
  | _ => Raise OSError
  end.

(** [sorted(paths, reverse=True)]: the stable sort in descending order.
    Paths of one directory compare as their names do, character by
    character; an element is put before the first one of the sorted rest
    that is not greater. *)
Fixpoint insert_desc (x : string) (l : list string) : list string :=
  match l with
  | [] => [x]
  | y :: l' => if String.leb y x then x :: l else y :: insert_desc x l'
  end.

Definition sorted_reverse (l : list string) : list string :=
  foldr insert_desc [] l.

(** [d / file_id], then [/ subdir] when [subdir] is given and not empty. *)
Definition target_in (d file_id : string) (subdir : option string) : string :=
  let base_dir := path_join d file_id in
  match subdir with
  | Some (String c s) => path_join base_dir (String c s)
  | _ => base_dir
  end.

(** The loop over the dated directories (lines 385-392). *)
Fixpoint scan_date_dirs (m : gmap string node) (file_id : string)
    (subdir : option string) (date_dirs : list string) : option string :=
  match date_dirs with
  | [] => None
  | date_dir :: rest =>
      if is_dir m date_dir then
        let potential_dir := target_in date_dir file_id subdir in
        if exists_ m potential_dir then Some potential_dir
        else scan_date_dirs m file_id subdir rest
      else scan_date_dirs m file_id subdir rest
  end.

(** [find_file_in_date_dirs(media_root, file_id, subdir)] on the day
    [date_str] ([datetime.now().strftime('%Y%m%d')]). *)
Definition find_file_in_date_dirs (m : gmap string node) (date_str : string)
    (media_root file_id : string) (subdir : option string)
    : result (option string) :=
  let base_dir := target_in (path_join media_root date_str) file_id subdir in
  if exists_ m base_dir then Ok (Some base_dir)
  else if exists_ m media_root then
    entries ← iterdir m media_root;
    Ok (scan_date_dirs m file_id subdir (sorted_reverse entries))
  else Ok None.

End UtilsFiles.
(* ===================================================================== *)
(** * Part II.  Terms of the statements, and concrete inputs               *)
(* ===================================================================== *)

Section ByteTerms.

Definition all_bytes : bytes := map (λ n, byte_of_N (N.of_nat n)) (seq 0 256).

End ByteTerms.

Section Base64Terms.
Import Base64.

(** The four sextets cut from three bytes. *)
Definition sextet0 (a : byte) : N := N.shiftr (Byte.to_N a) 2.
Definition sextet1 (a b : byte) : N :=
  N.lor (N.shiftl (N.land (Byte.to_N a) 3) 4) (N.shiftr (Byte.to_N b) 4).
Definition sextet2 (b c : byte) : N :=
  N.lor (N.shiftl (N.land (Byte.to_N b) 15) 2) (N.shiftr (Byte.to_N c) 6).
Definition sextet3 (c : byte) : N := N.land (Byte.to_N c) 63.

(** The padded tails carry the low bits of the last byte in a sextet whose
    remaining bits are zero. *)
Definition sextet1_tail (a : byte) : N := N.shiftl (N.land (Byte.to_N a) 3) 4.
Definition sextet2_tail (b : byte) : N := N.shiftl (N.land (Byte.to_N b) 15) 2.

End Base64Terms.

Section CipherTerms.
Import Cipher.

(** The keystream applied from position [i] on, as a plain recursion. *)
Fixpoint xor_stream (key : bytes) (i : nat) (data : bytes) : bytes :=
  match data with
  | [] => []
  | byte :: rest =>
      byte_xor byte (byte_at key (i mod length key)) :: xor_stream key (S i) rest
  end.

End CipherTerms.

Section StringTerms.
Import PyStr.

(** [c] does not occur in [s]. *)
Fixpoint lacks (c : ascii) (s : string) : Prop :=
  match s with
  | EmptyString => True
  | String x s' => x ≠ c ∧ lacks c s'
  end.

(** A string all of whose characters are decimal digits. *)
Fixpoint all_digits (s : string) : Prop :=
  match s with
  | EmptyString => True
  | String x s' => is_Some (digit_value x) ∧ all_digits s'
  end.

(** A name the system takes for an entry of a directory: not empty,
    neither [.] nor [..], without a slash and without a NUL. *)
Definition proper_name (s : string) : Prop :=
  s ≠ ""%string ∧ s ≠ "."%string ∧ s ≠ ".."%string ∧
  lacks "/" s ∧ lacks "000" s.

(** The names of a path: what its slashes separate, after the leading
    slash of an absolute path. *)
Definition path_names (p : string) : list string :=
  match split p "/" with
  | EmptyString :: names => names
  | names => names
  end.

(** A path that stands for one place whatever the disk holds: it is not
    empty and each of its names is a proper name. *)
Definition normalised (p : string) : Prop :=
  p ≠ ""%string ∧ Forall proper_name (path_names p).

End StringTerms.

Section DiskTerms.
Import Fs.

(** Nothing stands in the way of the directory [d]: neither [d] nor a
    directory above it is a regular file. *)
Definition creatable (m : gmap string node) (d : string) : Prop :=
  Forall (λ a, ∀ data, m !! a ≠ Some (File data)) (d :: ancestors d).

End DiskTerms.

Section ConfigTerms.


(** Retry constants whose backoff delays [time.sleep] takes: the delay
    is not negative, and the longest one, slept before the last retry,
    is within [MAX_SLEEP]. *)
Definition backoff_ok (cfg : config) : Prop :=
  0 ≤ BASE_DELAY cfg ∧
  BASE_DELAY cfg * 2 ^ (MAX_RETRIES cfg - 2) ≤ Konachan.MAX_SLEEP.

End ConfigTerms.

Section ProbeTerms.
Import PyStr Fs Utils.

(** [n] is the number of chunk files of [file_id]: indices below [n]
    exist, index [n] does not. *)
Definition first_missing (m : gmap string node) (base_dir file_id : string)
    (n : nat) : Prop :=
  (∀ i, (i < n)%nat → exists_ m (part_path base_dir file_id i) = true) ∧
  exists_ m (part_path base_dir file_id n) = false.

End ProbeTerms.

Section WriterTerms.
Import PyStr Fs Utils.




End WriterTerms.

(** Concrete input for the examples: a server that answers every URL with
    the eleven bytes of [hello world] in three blocks. *)
Definition hello_response : Utils.response := {|
  Utils.status_ok := true;
  Utils.content_length := Some "11"%string;
  Utils.body := [String.list_byte_of_string "hello";
                 String.list_byte_of_string " wor";
                 String.list_byte_of_string "ld"];
  Utils.body_fails := false
|}.


Definition four_byte_response : Utils.response := {|
  Utils.status_ok := true;
  Utils.content_length := Some "4"%string;
  Utils.body := [String.list_byte_of_string "abcd"];
  Utils.body_fails := false
|}.

Definition empty_world : Utils.world :=
  {| Utils.files := ∅; Utils.requests := [] |}.

Definition two_chunk_world : Utils.world := {|
  Utils.files :=
    {[ "media"%string := Fs.Dir;
       "media/abc.part0"%string := Fs.File (String.list_byte_of_string "hell");
       "media/abc.part1"%string := Fs.File (String.list_byte_of_string "o") ]};
  Utils.requests := []
|}.

Section SidecarTerms.
Import PyStr Fs Utils.

(** The extension a sidecar at [p] offers: its stripped text when that
    starts with a dot and has fewer than ten characters. *)
Definition sidecar_ext (L : pylib) (m : gmap string node) (p : string)
    : option string :=
  match m !! p with
  | Some (File data) =>
      match read_text L data with
      | Some text =>
          if startswith "." (strip text) && (String.length (strip text) <? 10)%nat
          then Some (strip text) else None
      | None => None
      end
  | _ => None
  end.

End SidecarTerms.

(** A chunk set with both sidecars: the dedicated one says [.jpg], the
    legacy one [.png]. *)
Definition both_sidecars : gmap string Fs.node :=
  {[ "media"%string := Fs.Dir;
     "media/abc.part0"%string := Fs.File (String.list_byte_of_string "data");
     "media/abc.ext"%string := Fs.File (String.list_byte_of_string ".jpg");
     "media/abc"%string := Fs.File (String.list_byte_of_string ".png") ]}.

Section FetcherTerms.
Import Konachan.

(** The state after [time.sleep(delay)] has returned. *)
Definition slept (delay : Z) (s : fetch_state) : fetch_state :=
  {| http_client := http_client s; clients_created := clients_created s;
     resets := resets s; sleeps := sleeps s ++ [delay]; requests := requests s;
     success_pages := success_pages s; failed_pages := failed_pages s |}.

(** The session the next request goes through: the current one, or the
    one [_get_http_client] is about to create. *)
Definition session_of (s : fetch_state) : nat :=
  match http_client s with
  | Some client => client
  | None => clients_created s
  end.

(** The sum the statistics must keep in step with the pages. *)
Definition accounted (s : fetch_state) : Z := success_pages s + failed_pages s.

(** An exception as the try body raises them: never an [HTTPError] that
    carries a response. *)
Definition without_response (e : exn) : Prop :=
  match e with
  | HTTPError (Some _) => False
  | _ => True
  end.

(** The three ways the retry loop ends. *)
Inductive page_end (p p' : page_state) (cfg : config) : Prop :=
| page_saved :
    page_success p' = true →
    success_pages (fetch p') = success_pages (fetch p) + 1 →
    failed_pages (fetch p') = failed_pages (fetch p) →
    page_end p p' cfg
| page_rejected :
    page_success p' = false →
    Z.of_nat (retry_count p') < MAX_RETRIES cfg →
    success_pages (fetch p') = success_pages (fetch p) →
    failed_pages (fetch p') = failed_pages (fetch p) + 1 →
    page_end p p' cfg
| page_exhausted :
    page_success p' = false →
    MAX_RETRIES cfg ≤ Z.of_nat (retry_count p') →
    success_pages (fetch p') = success_pages (fetch p) →
    failed_pages (fetch p') = failed_pages (fetch p) →
    page_end p p' cfg.

End FetcherTerms.

Section RetryTerms.
Import Konachan.

(** The backoff delays slept before retries [j+1 .. n]. *)
Definition backoffs (cfg : config) (j n : nat) : list Z :=
  (λ k : nat, BASE_DELAY cfg * 2 ^ (Z.of_nat k - 1)) <$> seq (S j) (n - j).

Definition saved_response (r : response) : Prop :=
  status_code r = 200 ∧ content_empty r = false ∧ json r = JsonData Saved.

End RetryTerms.

Definition forbidden_env : Z → nat → Konachan.get_outcome :=
  λ _ _, Konachan.GetResponse
    {| Konachan.status_code := 403; Konachan.content_empty := false;
       Konachan.json := Konachan.JsonInvalid |}.

Definition fresh_fetch_state : Konachan.fetch_state :=
  {| Konachan.http_client := None; Konachan.clients_created := 0;
     Konachan.resets := 0; Konachan.sleeps := []; Konachan.requests := [];
     Konachan.success_pages := 0; Konachan.failed_pages := 0 |}.

Section MergeDiskTerms.
Import PyStr Fs FsApi.

(** The paths of the thumbnail stage. *)
Definition thumb_path (env : call_env) (storage_dir : string) : string :=
  path_join storage_dir ("thumb_" +:+ thumb_uuid env +:+ ".enc").
Definition temp_path (env : call_env) (storage_dir : string) : string :=
  path_join storage_dir ("temp_" +:+ temp_uuid env).
Definition frame_path (env : call_env) (storage_dir : string) : string :=
  path_join storage_dir ("thumb_" +:+ frame_uuid env +:+ ".jpg").

(** What the thumbnail stage may write in the storage directory. *)
Definition stage_paths (env : call_env) (storage_dir : string) : list string :=
  [thumb_path env storage_dir; temp_path env storage_dir;
   frame_path env storage_dir].

(** A step of the thumbnail stage leaves every other path alone. *)
Definition thumbnail_frame (env : call_env) (storage_dir : string)
    {A} (st : state) (r : run state A) : Prop :=
  match r with
  | Returns _ st' | Raises _ st' =>
      ∀ q, q ≠ thumb_path env storage_dir → q ≠ temp_path env storage_dir →
           q ≠ frame_path env storage_dir →
           disk st' !! q = disk st !! q
  | Diverges => True
  end.

End MergeDiskTerms.

Section MergeRunTerms.
Import PyStr Fs FsApi.

(** [{FS_MEDIA_ROOT}/{time_str}/{file_md5}] *)
Definition storage_dir_of (env : call_env) (req : merge_request) : string :=
  path_join (path_join (FS_MEDIA_ROOT env) (time_str env)) (file_md5 req).

Definition merged_path_of (env : call_env) (req : merge_request) : string :=
  path_join (storage_dir_of env req) (file_name req).

End MergeRunTerms.

(** The scenario of the design document: three chunks [AAA], [BBB],
    [CCC] submitted out of order, declared hash the MD5 of [AAABBBCCC],
    and a thumbnail supplied by the client. *)
Definition upload_env : FsApi.call_env := {|
  FsApi.SECRET_KEY := "django-insecure-key";
  FsApi.FS_MEDIA_ROOT := "fsmedia";
  FsApi.time_str := "20251115";
  FsApi.code_uuid := "code-1";
  FsApi.thumb_uuid := "u-thumb";
  FsApi.temp_uuid := "u-temp";
  FsApi.frame_uuid := "u-frame";
  FsApi.render := λ _, None;
  FsApi.ffmpeg := λ _, FsApi.FfmpegMissing
|}.

Definition upload_dir : string :=
  "fsmedia/20251115/6207b5df5796e963410d3bc4b6a4218b".

Definition upload_disk : gmap string Fs.node :=
  {[ "fsmedia"%string := Fs.Dir;
     "fsmedia/20251115"%string := Fs.Dir;
     upload_dir := Fs.Dir;
     (upload_dir +:+ "/c0")%string := Fs.File (String.list_byte_of_string "AAA");
     (upload_dir +:+ "/c1")%string := Fs.File (String.list_byte_of_string "BBB");
     (upload_dir +:+ "/c2")%string := Fs.File (String.list_byte_of_string "CCC") ]}.

Definition upload_request : FsApi.merge_request := {|
  FsApi.file_md5 := "6207b5df5796e963410d3bc4b6a4218b";
  FsApi.file_name := "abc.png";
  FsApi.file_size := 9;
  FsApi.chunks :=
    [ {| FsApi.chunk_index := 2; FsApi.chunk_uuid := "c2" |};
      {| FsApi.chunk_index := 0; FsApi.chunk_uuid := "c0" |};
      {| FsApi.chunk_index := 1; FsApi.chunk_uuid := "c1" |} ];
  FsApi.category_ids := [];
  FsApi.tag_ids := [];
  FsApi.generate_thumbnail_flag := true;
  FsApi.thumbnail_base64 := Some "aGVsbG8="%string
|}.

Definition upload_state : FsApi.state := {|
  FsApi.disk := upload_disk;
  FsApi.db := {| FsApi.rows := []; FsApi.next_id := 1; FsApi.appertains := [];
                 FsApi.relationships := [] |}
|}.

Section MergeTerms.
Import PyStr Fs FsApi.

(** What the file at the path of a declared chunk holds. *)
Definition chunk_bytes (m : gmap string node) (storage_dir : string)
    (ci : chunk_info) : bytes :=
  match m !! path_join storage_dir (chunk_uuid ci) with
  | Some (File data) => data
  | _ => []
  end.

(** The bytes the merge writes: the declared chunks in the order of
    their declared indices. *)
Definition declared_payload (env : call_env) (req : merge_request)
    (m : gmap string node) : bytes :=
  concat (chunk_bytes m (storage_dir_of env req)
            <$> Utils.sorted (chunks req) chunk_index).

(** A row for hash [m] with key [i] and code [c] is what a lookup by that
    hash finds. *)
Definition has_record (d : database) (m : string) (i : Z) (c : string) : Prop :=
  ∃ r, filter_md5_first d m = Some r ∧ id r = i ∧ code r = c.

(** The object keeps its key through the thumbnail stage. *)
Definition same_key (a b : FileInfo) : Prop :=
  id b = id a ∧ md5 b = md5 a ∧ code b = code a.

Definition keeps_record (st : state) (fi : FileInfo)
    (r : run state FileInfo) : Prop :=
  match r with
  | Returns fi' st' =>
      same_key fi fi' ∧
      (has_record (db st) (md5 fi) (id fi) (code fi) →
       has_record (db st') (md5 fi) (id fi) (code fi))
  | _ => True
  end.

End MergeTerms.

(** The state the scenario upload leaves. *)
Definition uploaded_state : FsApi.state :=
  match FsApi.merge_chunks posix_lib upload_env upload_request upload_state with
  | Returns _ st' => st'
  | _ => upload_state
  end.

(** An upload in one chunk: the three bytes [AAA], sent whole, without a
    thumbnail. *)
Definition single_dir : string :=
  "fsmedia/20251115/e1faffb3e614e6c2fba74296962386b7".

Definition single_request : FsApi.merge_request := {|
  FsApi.file_md5 := "e1faffb3e614e6c2fba74296962386b7";
  FsApi.file_name := "a.txt";
  FsApi.file_size := 3;
  FsApi.chunks := [ {| FsApi.chunk_index := 0; FsApi.chunk_uuid := "c0" |} ];
  FsApi.category_ids := [];
  FsApi.tag_ids := [];
  FsApi.generate_thumbnail_flag := false;
  FsApi.thumbnail_base64 := None
|}.

Definition single_state : FsApi.state := {|
  FsApi.disk :=
    {[ "fsmedia"%string := Fs.Dir;
       "fsmedia/20251115"%string := Fs.Dir;
       single_dir := Fs.Dir;
       (single_dir +:+ "/c0")%string
         := Fs.File (String.list_byte_of_string "AAA") ]};
  FsApi.db := {| FsApi.rows := []; FsApi.next_id := 1; FsApi.appertains := [];
                 FsApi.relationships := [] |}
|}.

(** A second client declaring the same hash under another file name and
    with its own chunk. *)
Definition second_request : FsApi.merge_request := {|
  FsApi.file_md5 := "6207b5df5796e963410d3bc4b6a4218b";
  FsApi.file_name := "copy.png";
  FsApi.file_size := 9;
  FsApi.chunks := [ {| FsApi.chunk_index := 0; FsApi.chunk_uuid := "d0" |} ];
  FsApi.category_ids := [];
  FsApi.tag_ids := [];
  FsApi.generate_thumbnail_flag := false;
  FsApi.thumbnail_base64 := None
|}.

(** The scenario upload with a wrong declared hash, sent to the directory
    of that hash. *)
Definition mismatch_env : FsApi.call_env := {|
  FsApi.SECRET_KEY := "django-insecure-key";
  FsApi.FS_MEDIA_ROOT := "fsmedia";
  FsApi.time_str := "20251115";
  FsApi.code_uuid := "code-2";
  FsApi.thumb_uuid := "u-thumb";
  FsApi.temp_uuid := "u-temp";
  FsApi.frame_uuid := "u-frame";
  FsApi.render := λ _, None;
  FsApi.ffmpeg := λ _, FsApi.FfmpegMissing
|}.

Definition mismatch_dir : string :=
  "fsmedia/20251115/00000000000000000000000000000000".

Definition mismatch_state : FsApi.state := {|
  FsApi.disk :=
    {[ "fsmedia"%string := Fs.Dir;
       "fsmedia/20251115"%string := Fs.Dir;
       mismatch_dir := Fs.Dir;
       (mismatch_dir +:+ "/c0")%string
         := Fs.File (String.list_byte_of_string "AAA");
       (mismatch_dir +:+ "/c1")%string
         := Fs.File (String.list_byte_of_string "BBB") ]};
  FsApi.db := {| FsApi.rows := []; FsApi.next_id := 1; FsApi.appertains := [];
                 FsApi.relationships := [] |}
|}.

Definition mismatch_request (file_name : string) : FsApi.merge_request := {|
  FsApi.file_md5 := "00000000000000000000000000000000";
  FsApi.file_name := file_name;
  FsApi.file_size := 6;
  FsApi.chunks :=
    [ {| FsApi.chunk_index := 0; FsApi.chunk_uuid := "c0" |};
      {| FsApi.chunk_index := 1; FsApi.chunk_uuid := "c1" |} ];
  FsApi.category_ids := [];
  FsApi.tag_ids := [];
  FsApi.generate_thumbnail_flag := true;
  FsApi.thumbnail_base64 := None
|}.

(** ** Terms of the further properties *)


(** A chunk set with a hole: chunks 0 and 2 are there, chunk 1 is not. *)
Definition gapped_disk : gmap string Fs.node :=
  {[ "media"%string := Fs.Dir;
     "media/abc.part0"%string := Fs.File (String.list_byte_of_string "hell");
     "media/abc.part2"%string := Fs.File (String.list_byte_of_string "orld") ]}.

(** A server whose stream breaks after the three bytes [abc] of an
    announced four. *)
Definition broken_response : Utils.response := {|
  Utils.status_ok := true;
  Utils.content_length := Some "4"%string;
  Utils.body := [String.list_byte_of_string "abc"];
  Utils.body_fails := true
|}.

Section SessionTerms.
Import Konachan.

(** An attempt that ends without a response and with an exception the
    handlers answer with a retry: a timeout, a connection error, another
    requests exception, or an exception that is no ValueError. *)
Definition no_response (o : get_outcome) : Prop :=
  match o with
  | GetResponse _ | GetValueError => False
  | _ => True
  end.

(** A response with status 200 that cannot be used: no content, content
    that is not JSON, the document [null], or data that [save_data]
    rejects with a [ValueError]. *)
Definition unusable_body (r : response) : Prop :=
  status_code r = 200 ∧
  (content_empty r = true ∨ json r = JsonInvalid ∨ json r = JsonNull ∨
   json r = JsonData SaveValueError).

(** The exceptions the handlers answer with a retry. *)
Definition retried (e : exn) : Prop :=
  match e with
  | HTTPError _ | ValueError | JSONDecodeError | UnicodeDecodeError
  | BinasciiError => False
  | _ => True
  end.

End SessionTerms.

(** A network on which every request times out. *)
Definition dead_env : Z → nat → Konachan.get_outcome :=
  λ _ _, Konachan.GetTimeout.

(** A network that answers every request with a page that is saved. *)
Definition good_env : Z → nat → Konachan.get_outcome :=
  λ _ _, Konachan.GetResponse
    {| Konachan.status_code := 200; Konachan.content_empty := false;
       Konachan.json := Konachan.JsonData Konachan.Saved |}.

(** A network that answers every request with a page of HTML. *)
Definition html_env : Z → nat → Konachan.get_outcome :=
  λ _ _, Konachan.GetResponse
    {| Konachan.status_code := 200; Konachan.content_empty := false;
       Konachan.json := Konachan.JsonInvalid |}.

Section NameTerms.
Import PyStr.

(** A name of a directory entry: not empty, no slash. *)
Definition plain_name (s : string) : Prop := s ≠ ""%string ∧ lacks "/" s.

End NameTerms.

(** Dated directories of a media root, one of them holding a stray file
    and the newest one lacking the identifier. *)
Definition dated_disk : gmap string Fs.node :=
  {[ "M"%string := Fs.Dir;
     "M/20240101"%string := Fs.Dir;
     "M/20240201"%string := Fs.Dir;
     "M/20240301"%string := Fs.Dir;
     "M/notes"%string := Fs.File [];
     "M/20240101/abc"%string := Fs.Dir;
     "M/20240201/abc"%string := Fs.Dir ]}.

(* ===================================================================== *)
(** * Part III.  Properties                                                *)
(* ===================================================================== *)

(** ** Bytes: exhaustive checks *)

Section ByteFacts.

Lemma byte_of_to_N (b : byte) : byte_of_N (Byte.to_N b) = b.
Proof.
  unfold byte_of_N. pose proof (Byte.to_N_bounded b) as Hb.
  rewrite N.mod_small by lia. by rewrite Byte.of_to_N.
Qed.

Lemma all_bytes_complete (b : byte) : In b all_bytes.
Proof.
  unfold all_bytes. apply in_map_iff. exists (N.to_nat (Byte.to_N b)). split.
  - by rewrite N2Nat.id, byte_of_to_N.
  - apply in_seq. pose proof (Byte.to_N_bounded b). lia.
Qed.

Lemma forall_bytes (P : byte → bool) :
  forallb P all_bytes = true → ∀ b, P b = true.
Proof.
  intros H b. rewrite forallb_forall in H. apply H, all_bytes_complete.
Qed.

Lemma forall_bytes2 (P : byte → byte → bool) :
  forallb (λ a, forallb (P a) all_bytes) all_bytes = true →
  ∀ a b, P a b = true.
Proof.
  intros H a b. apply (forall_bytes (P a)). revert a. by apply forall_bytes.
Qed.

Lemma byte_eqb_eq (a b : byte) : Byte.eqb a b = true → a = b.
Proof. apply Byte.byte_dec_bl. Qed.

(** XOR with the same key byte twice is the identity. *)
Lemma byte_xor_involutive (a k : byte) : byte_xor (byte_xor a k) k = a.
Proof.
  apply byte_eqb_eq.
  apply (forall_bytes2 (λ a k, Byte.eqb (byte_xor (byte_xor a k) k) a)).
  vm_compute. reflexivity.
Qed.

End ByteFacts.

(** ** Base64: decoding undoes encoding *)

Section Base64Facts.
Import Base64.

Lemma a2b_b2a (n : N) : (n < 64)%N → a2b (b2a n) = Some n.
Proof.
  intros Hn.
  assert (forallb (λ k, match a2b (b2a (N.of_nat k)) with
                        | Some m => (m =? N.of_nat k)%N
                        | None => false
                        end) (seq 0 64) = true) as H by (vm_compute; reflexivity).
  rewrite forallb_forall in H. specialize (H (N.to_nat n)).
  rewrite N2Nat.id in H. destruct (a2b (b2a n)) as [m|].
  - f_equal. apply N.eqb_eq, H, in_seq. lia.
  - discriminate H. apply in_seq. lia.
Qed.

Lemma b2a_not_pad (n : N) : Byte.eqb (b2a n) BASE64_PAD = false.
Proof.
  unfold b2a. destruct (nth_in_or_default (N.to_nat n) alphabet x00) as [Hin | ->];
    [|reflexivity].
  assert (forallb (λ c, negb (Byte.eqb c BASE64_PAD)) alphabet = true) as H
    by (vm_compute; reflexivity).
  rewrite forallb_forall in H. apply negb_true_iff, H, Hin.
Qed.

Lemma b2a_ascii (n : N) : is_ascii_byte (b2a n) = true.
Proof.
  unfold b2a. destruct (nth_in_or_default (N.to_nat n) alphabet x00) as [Hin | ->];
    [|reflexivity].
  assert (forallb is_ascii_byte alphabet = true) as H by (vm_compute; reflexivity).
  rewrite forallb_forall in H. apply H, Hin.
Qed.

Lemma sextet0_lt a : (sextet0 a < 64)%N.
Proof.
  apply N.ltb_lt. revert a. apply forall_bytes. vm_compute. reflexivity.
Qed.
Lemma sextet1_lt a b : (sextet1 a b < 64)%N.
Proof.
  apply N.ltb_lt. revert a b.
  apply (forall_bytes2 (λ a b, (sextet1 a b <? 64)%N)). vm_compute. reflexivity.
Qed.
Lemma sextet2_lt b c : (sextet2 b c < 64)%N.
Proof.
  apply N.ltb_lt. revert b c.
  apply (forall_bytes2 (λ b c, (sextet2 b c <? 64)%N)). vm_compute. reflexivity.
Qed.
Lemma sextet3_lt c : (sextet3 c < 64)%N.
Proof.
  apply N.ltb_lt. revert c. apply forall_bytes. vm_compute. reflexivity.
Qed.

(** The three bytes rebuilt by the decoder from those sextets. *)
Lemma rebuild0 a b :
  byte_of_N (N.lor (N.shiftl (sextet0 a) 2) (N.shiftr (sextet1 a b) 4)) = a.
Proof.
  apply byte_eqb_eq. revert a b.
  apply (forall_bytes2 (λ a b, Byte.eqb (byte_of_N
    (N.lor (N.shiftl (sextet0 a) 2) (N.shiftr (sextet1 a b) 4))) a)).
  vm_compute. reflexivity.
Qed.
Lemma rebuild1 a b c :
  byte_of_N (N.lor (N.shiftl (N.land (sextet1 a b) 15) 4)
                   (N.shiftr (sextet2 b c) 2)) = b.
Proof.
  assert (N.land (sextet1 a b) 15 = N.shiftr (Byte.to_N b) 4) as ->.
  { apply N.eqb_eq. revert a b.
    apply (forall_bytes2 (λ a b,
      (N.land (sextet1 a b) 15 =? N.shiftr (Byte.to_N b) 4)%N)).
    vm_compute. reflexivity. }
  apply byte_eqb_eq. revert b c.
  apply (forall_bytes2 (λ b c, Byte.eqb (byte_of_N
    (N.lor (N.shiftl (N.shiftr (Byte.to_N b) 4) 4) (N.shiftr (sextet2 b c) 2))) b)).
  vm_compute. reflexivity.
Qed.
Lemma rebuild2 b c :
  byte_of_N (N.lor (N.shiftl (N.land (sextet2 b c) 3) 6) (sextet3 c)) = c.
Proof.
  apply byte_eqb_eq. revert b c.
  apply (forall_bytes2 (λ b c, Byte.eqb (byte_of_N
    (N.lor (N.shiftl (N.land (sextet2 b c) 3) 6) (sextet3 c))) c)).
  vm_compute. reflexivity.
Qed.

Lemma sextet1_tail_lt a : (sextet1_tail a < 64)%N.
Proof.
  apply N.ltb_lt. revert a. apply forall_bytes. vm_compute. reflexivity.
Qed.
Lemma sextet2_tail_lt b : (sextet2_tail b < 64)%N.
Proof.
  apply N.ltb_lt. revert b. apply forall_bytes. vm_compute. reflexivity.
Qed.
Lemma rebuild0_tail a :
  byte_of_N (N.lor (N.shiftl (sextet0 a) 2) (N.shiftr (sextet1_tail a) 4)) = a.
Proof.
  apply byte_eqb_eq. revert a. apply forall_bytes. vm_compute. reflexivity.
Qed.
Lemma rebuild1_tail a b :
  byte_of_N (N.lor (N.shiftl (N.land (sextet1 a b) 15) 4)
                   (N.shiftr (sextet2_tail b) 2)) = b.
Proof.
  apply byte_eqb_eq. revert a b.
  apply (forall_bytes2 (λ a b, Byte.eqb (byte_of_N
    (N.lor (N.shiftl (N.land (sextet1 a b) 15) 4) (N.shiftr (sextet2_tail b) 2))) b)).
  vm_compute. reflexivity.
Qed.

(** One decoder step on an alphabet character. *)
Lemma a2b_loop_char n s quad_pos leftchar pads out :
  (n < 64)%N →
  a2b_loop (b2a n :: s) quad_pos leftchar pads out =
  match quad_pos with
  | 0%nat => a2b_loop s 1 n 0 out
  | 1%nat =>
      a2b_loop s 2 (N.land n 15) 0
        (out ++ [byte_of_N (N.lor (N.shiftl leftchar 2) (N.shiftr n 4))])
  | 2%nat =>
      a2b_loop s 3 (N.land n 3) 0
        (out ++ [byte_of_N (N.lor (N.shiftl leftchar 4) (N.shiftr n 2))])
  | _ => a2b_loop s 0 0 0 (out ++ [byte_of_N (N.lor (N.shiftl leftchar 6) n)])
  end.
Proof.
  intros Hn. cbn [a2b_loop]. by rewrite b2a_not_pad, a2b_b2a.
Qed.

Lemma b64encode_group a b c rest :
  b64encode (a :: b :: c :: rest) =
  b2a (sextet0 a) :: b2a (sextet1 a b) :: b2a (sextet2 b c) :: b2a (sextet3 c)
    :: b64encode rest.
Proof. reflexivity. Qed.

Lemma a2b_loop_group a b c s out :
  a2b_loop (b2a (sextet0 a) :: b2a (sextet1 a b) :: b2a (sextet2 b c)
              :: b2a (sextet3 c) :: s) 0 0 0 out =
  a2b_loop s 0 0 0 (out ++ [a; b; c]).
Proof.
  rewrite a2b_loop_char by apply sextet0_lt.
  rewrite a2b_loop_char by apply sextet1_lt.
  rewrite a2b_loop_char by apply sextet2_lt.
  rewrite a2b_loop_char by apply sextet3_lt.
  rewrite rebuild0, rebuild1, rebuild2.
  by rewrite <- !app_assoc.
Qed.

Lemma list_ind3 {A} (P : list A → Prop) :
  P [] → (∀ a, P [a]) → (∀ a b, P [a; b]) →
  (∀ a b c l, P l → P (a :: b :: c :: l)) → ∀ l, P l.
Proof.
  intros H0 H1 H2 H3 l.
  assert (P l ∧ (∀ a, P (a :: l)) ∧ (∀ a b, P (a :: b :: l))) as [? _].
  { induction l as [|x l (IH0 & IH1 & IH2)].
    - auto.
    - repeat split; auto. }
  done.
Qed.

Lemma a2b_loop_b64encode data out :
  a2b_loop (b64encode data) 0 0 0 out = Ok (out ++ data).
Proof.
  revert out. induction data as [|a|a b|a b c rest IH] using list_ind3; intros out.
  - cbn. by rewrite app_nil_r.
  - change (b64encode [a])
      with [b2a (sextet0 a); b2a (sextet1_tail a); BASE64_PAD; BASE64_PAD].
    rewrite a2b_loop_char by apply sextet0_lt.
    rewrite a2b_loop_char by apply sextet1_tail_lt.
    rewrite rebuild0_tail. reflexivity.
  - change (b64encode [a; b])
      with [b2a (sextet0 a); b2a (sextet1 a b); b2a (sextet2_tail b); BASE64_PAD].
    rewrite a2b_loop_char by apply sextet0_lt.
    rewrite a2b_loop_char by apply sextet1_lt.
    rewrite a2b_loop_char by apply sextet2_tail_lt.
    rewrite rebuild0, rebuild1_tail. cbn. by rewrite <- app_assoc.
  - rewrite b64encode_group, a2b_loop_group, IH. by rewrite <- app_assoc.
Qed.

Lemma b64decode_b64encode data : b64decode (b64encode data) = Ok data.
Proof. unfold b64decode. by rewrite a2b_loop_b64encode. Qed.

Lemma b64encode_ascii data : forallb is_ascii_byte (b64encode data) = true.
Proof.
  induction data as [|a|a b|a b c rest IH] using list_ind3.
  - reflexivity.
  - cbn [b64encode forallb]. by rewrite !b2a_ascii.
  - cbn [b64encode forallb]. by rewrite !b2a_ascii.
  - rewrite b64encode_group. cbn [forallb]. by rewrite !b2a_ascii, IH.
Qed.

End Base64Facts.

(** ** The cipher *)

Section CipherFacts.
Import Cipher.

Lemma encode_char_ascii (b : byte) :
  is_ascii_byte b = true → encode_char (ascii_of_byte b) = [b].
Proof.
  revert b.
  assert (∀ b, (if is_ascii_byte b
                then match encode_char (ascii_of_byte b) with
                     | [c] => Byte.eqb c b
                     | _ => false
                     end
                else true) = true) as H.
  { apply forall_bytes. vm_compute. reflexivity. }
  intros b Hb. specialize (H b). rewrite Hb in H.
  destruct (encode_char (ascii_of_byte b)) as [|c [|? ?]]; try discriminate.
  by apply byte_eqb_eq in H as ->.
Qed.

Lemma list_ascii_of_list_byte (l : bytes) :
  String.list_ascii_of_string (String.string_of_list_byte l) = map ascii_of_byte l.
Proof.
  unfold String.string_of_list_byte.
  by rewrite String.list_ascii_of_string_of_list_ascii.
Qed.

(** Encoding the text that decoding an ASCII byte string gave returns the
    byte string. *)
Lemma str_encode_bytes_decode (l : bytes) (s : string) :
  bytes_decode l = Ok s → str_encode s = l.
Proof.
  unfold bytes_decode. destruct (forallb is_ascii_byte l) eqn:Hl; [|done].
  intros [= <-]. unfold str_encode. rewrite list_ascii_of_list_byte.
  induction l as [|b l IH]; [done|].
  cbn in Hl. apply andb_true_iff in Hl as [Hb Hl].
  cbn [map flat_map]. rewrite encode_char_ascii by done. cbn. f_equal. auto.
Qed.

Lemma encode_char_nonempty c : encode_char c ≠ [].
Proof. unfold encode_char. by case_match. Qed.

Lemma str_encode_nonempty (s : string) : s ≠ "" → str_encode s ≠ [].
Proof.
  destruct s as [|c s]; [done|]. intros _. unfold str_encode. cbn.
  pose proof (encode_char_nonempty c). by destruct (encode_char c).
Qed.

(** The doubling loop exits as soon as the fuel covers the doublings that
    are needed. *)
Lemma stretch_key_terminates (fuel : nat) (key : bytes) :
  (32 ≤ length key * 2 ^ fuel)%nat →
  ∃ key', stretch_key (S fuel) key = Ok key' ∧ (32 ≤ length key')%nat.
Proof.
  revert key. induction fuel as [|fuel IH]; intros key Hlen; cbn [stretch_key].
  - cbn in Hlen. destruct (Nat.ltb_spec (length key) 32); [lia|]. eauto.
  - destruct (Nat.ltb_spec (length key) 32); [|eauto].
    apply IH. rewrite length_app. rewrite Nat.pow_succ_r' in Hlen. lia.
Qed.

(** With an empty secret the loop never exits, whatever the fuel. *)
Lemma stretch_key_empty (fuel : nat) : stretch_key fuel [] = Diverge.
Proof. induction fuel; [done|]. cbn. done. Qed.

Lemma get_encryption_key_total (SECRET_KEY : string) :
  SECRET_KEY ≠ "" →
  ∃ key, get_encryption_key SECRET_KEY = Ok key ∧ length key = 32%nat.
Proof.
  intros Hne. apply str_encode_nonempty in Hne.
  destruct (stretch_key_terminates 5 (str_encode SECRET_KEY)) as (key' & Hk & Hlen).
  { destruct (str_encode SECRET_KEY); [done|]. cbn. lia. }
  exists (take 32 key'). unfold get_encryption_key, stretch_fuel.
  rewrite Hk. split; [done|]. rewrite length_take. lia.
Qed.

Lemma xor_loop_stream key i data out :
  xor_loop key i data out = out ++ xor_stream key i data.
Proof.
  revert i out. induction data as [|b rest IH]; intros i out; cbn.
  - by rewrite app_nil_r.
  - rewrite IH. by rewrite <- app_assoc.
Qed.

Lemma xor_stream_involutive key i data :
  xor_stream key i (xor_stream key i data) = data.
Proof.
  revert i. induction data as [|b rest IH]; intros i; cbn; [done|].
  by rewrite byte_xor_involutive, IH.
Qed.

Lemma xor_stream_length key i data : length (xor_stream key i data) = length data.
Proof. revert i. induction data; intros; cbn; auto. Qed.

Lemma xor_stream_lookup key i data j b :
  data !! j = Some b →
  xor_stream key i data !! j
  = Some (byte_xor b (byte_at key ((i + j) mod length key))).
Proof.
  revert i j. induction data as [|c rest IH]; intros i j; [done|].
  destruct j as [|j]; cbn.
  - intros [= ->]. by rewrite Nat.add_0_r.
  - intros H. rewrite (IH _ _ H). by replace (S i + j)%nat with (i + S j)%nat by lia.
Qed.

End CipherFacts.

(** C2. Cipher involution.  For every non-empty process secret and every
    byte string [x] (empty and non-ASCII included) [encrypt_data] returns
    a token, [decrypt_data] of that token returns [x], and the token is
    the base64 text of [x] XORed with the 32-byte key from key position 0:
    byte [i] of the ciphertext is [x[i] ^ key[i mod 32]], so the token is
    a function of the key and of [x] alone (no nonce, no position carried
    over from an earlier unit). *)
Theorem cipher_involution (SECRET_KEY : string) (x : bytes) :
  SECRET_KEY ≠ "" →
  ∃ (key : bytes) (token : string),
    Cipher.get_encryption_key SECRET_KEY = Ok key ∧ length key = 32%nat ∧
    Cipher.encrypt_data SECRET_KEY x = Ok token ∧
    Cipher.decrypt_data SECRET_KEY token = Ok x ∧
    ∃ ciphertext,
      Base64.b64decode (str_encode token) = Ok ciphertext ∧
      length ciphertext = length x ∧
      ∀ i b, x !! i = Some b →
        ciphertext !! i = Some (byte_xor b (byte_at key (i mod 32))).
Proof.
  intros Hne.
  destruct (get_encryption_key_total SECRET_KEY Hne) as (key & Hkey & Hlen).
  pose (ct := xor_stream key 0 x).
  exists key, (String.string_of_list_byte (Base64.b64encode ct)).
  assert (bytes_decode (Base64.b64encode ct)
          = Ok (String.string_of_list_byte (Base64.b64encode ct))) as Hdec.
  { unfold bytes_decode. by rewrite b64encode_ascii. }
  pose proof (str_encode_bytes_decode _ _ Hdec) as Henc.
  split; [done|]. split; [done|]. split.
  { unfold Cipher.encrypt_data. rewrite Hkey. cbn.
    rewrite xor_loop_stream. exact Hdec. }
  split.
  { unfold Cipher.decrypt_data. rewrite Hkey. cbn.
    rewrite Henc, b64decode_b64encode. cbn.
    rewrite xor_loop_stream. cbn. subst ct. by rewrite xor_stream_involutive. }
  exists ct. split; [by rewrite Henc, b64decode_b64encode|].
  split; [apply xor_stream_length|].
  intros i b Hi. subst ct. rewrite (xor_stream_lookup _ _ _ _ _ Hi).
  by rewrite Hlen.
Qed.

(** The claim at a concrete secret and a payload with a zero byte and a
    byte above 0x7F. *)
Lemma cipher_involution_witness :
  "s3cret"%string ≠ ""%string ∧
  ∃ (key : bytes) (token : string),
    Cipher.get_encryption_key "s3cret" = Ok key ∧ length key = 32%nat ∧
    Cipher.encrypt_data "s3cret" ["A"%byte; x00; xff] = Ok token ∧
    Cipher.decrypt_data "s3cret" token = Ok ["A"%byte; x00; xff] ∧
    ∃ ciphertext,
      Base64.b64decode (str_encode token) = Ok ciphertext ∧
      length ciphertext = length ["A"%byte; x00; xff] ∧
      ∀ i b, ["A"%byte; x00; xff] !! i = Some b →
        ciphertext !! i = Some (byte_xor b (byte_at key (i mod 32))).
Proof.
  split; [discriminate|].
  apply (cipher_involution "s3cret" ["A"%byte; x00; xff]). discriminate.
Defined.

(** ** Strings: the stem and the index of a chunk path *)

Section StringFacts.
Import PyStr.

Lemma string_app_nil (b : string) : "" +:+ b = b.
Proof. reflexivity. Qed.

Lemma string_app_cons (x : ascii) (a b : string) :
  String x a +:+ b = String x (a +:+ b).
Proof. reflexivity. Qed.

Lemma string_app_nil_r (a : string) : a +:+ "" = a.
Proof.
  induction a as [|x a IH]; [done|]. by rewrite string_app_cons, IH.
Qed.

Lemma string_app_assoc (a b c : string) : (a +:+ b) +:+ c = a +:+ (b +:+ c).
Proof.
  induction a as [|x a IH]; [done|]. by rewrite !string_app_cons, IH.
Qed.

Lemma string_app_length (a b : string) :
  String.length (a +:+ b) = (String.length a + String.length b)%nat.
Proof.
  induction a as [|x a IH]; [done|]. rewrite string_app_cons. cbn. by rewrite IH.
Qed.

Lemma lacks_app c a b : lacks c a → lacks c b → lacks c (a +:+ b).
Proof.
  induction a as [|x a IH]; [done|]. rewrite string_app_cons. cbn.
  intros [? ?] ?. auto.
Qed.

Lemma rsplit_at_lacks c s : lacks c s → rsplit_at c s = None.
Proof.
  induction s as [|x s IH]; cbn; [done|]. intros [Hx Hs].
  rewrite (IH Hs). by apply Ascii.eqb_neq in Hx as ->.
Qed.

Lemma rsplit_at_app_lacks c s t :
  lacks c t →
  rsplit_at c (s +:+ t) =
  match rsplit_at c s with
  | Some (before, after) => Some (before, after +:+ t)
  | None => None
  end.
Proof.
  intros Ht. induction s as [|x s IH].
  - rewrite string_app_nil. by apply rsplit_at_lacks.
  - rewrite string_app_cons. cbn.
    rewrite IH. destruct (rsplit_at c s) as [[b a]|]; [done|].
    by destruct (Ascii.eqb x c).
Qed.

Lemma rsplit_at_last c s t :
  lacks c t → rsplit_at c (s +:+ String c t) = Some (s, t).
Proof.
  intros Ht. induction s as [|x s IH].
  - rewrite string_app_nil. cbn.
    by rewrite (rsplit_at_lacks _ _ Ht), Ascii.eqb_refl.
  - rewrite string_app_cons. cbn. by rewrite IH.
Qed.

Lemma digit_lacks c s :
  digit_value c = None → all_digits s → lacks c s.
Proof.
  intros Hc. induction s as [|x s IH]; cbn; [done|].
  intros [[d Hd] Hs]. split; [|auto]. intros ->. congruence.
Qed.

Lemma digit_not_space x : is_Some (digit_value x) → is_space x = false.
Proof.
  intros [d Hd]. unfold digit_value in Hd. unfold is_space.
  destruct (_ && _) eqn:Hr in Hd; [|done].
  apply andb_true_iff in Hr as [?%Z.leb_le ?%Z.leb_le].
  repeat match goal with
  | |- (_ || _) = false => apply orb_false_iff; split
  | |- (_ && _) = false => apply andb_false_iff
  end; try (right; apply N.leb_gt; lia); try (apply N.eqb_neq; lia).
Qed.

Lemma pretty_N_char_digit (d : N) :
  (d < 10)%N → digit_value (pretty_N_char d) = Some (Z.of_N d).
Proof.
  intros Hd.
  assert (d = 0 ∨ d = 1 ∨ d = 2 ∨ d = 3 ∨ d = 4 ∨ d = 5 ∨ d = 6 ∨ d = 7
          ∨ d = 8 ∨ d = 9)%N as Hc by lia.
  repeat (destruct Hc as [-> | Hc]; [reflexivity|]). by subst.
Qed.

Lemma pretty_N_go_digits (x : N) (s : string) :
  all_digits s → all_digits (pretty_N_go x s).
Proof.
  revert s. induction (N.lt_wf_0 x) as [x _ IH]; intros s Hs.
  destruct (decide (x = 0)%N) as [-> | Hx]; [by rewrite pretty_N_go_0|].
  rewrite pretty_N_go_step by lia. apply IH.
  - apply N.div_lt; lia.
  - cbn. split; [|done].
    rewrite pretty_N_char_digit; [done|]. apply N.mod_lt. lia.
Qed.

Lemma pretty_nat_digits (i : nat) : all_digits (pretty i).
Proof.
  unfold pretty, pretty_nat, pretty, pretty_N. case_decide.
  - cbn. split; [|done]. by eexists.
  - by apply pretty_N_go_digits.
Qed.

Lemma pretty_nat_nonempty (i : nat) : pretty i ≠ ""%string.
Proof.
  unfold pretty, pretty_nat, pretty, pretty_N. case_decide; [done|].
  intros Heq.
  assert (∀ x s, (String.length s ≤ String.length (pretty_N_go x s))%nat) as Hlen.
  { intros x. induction (N.lt_wf_0 x) as [x _ IH]; intros s.
    destruct (decide (x = 0)%N) as [-> | Hx]; [by rewrite pretty_N_go_0|].
    rewrite pretty_N_go_step by lia.
    etrans; [|apply IH; apply N.div_lt; lia]. cbn. lia. }
  destruct (decide (N.of_nat i = 0)%N) as [|Hx]; [done|].
  rewrite pretty_N_go_step in Heq by lia.
  specialize (Hlen (N.of_nat i `div` 10)%N
    (String (pretty_N_char (N.of_nat i `mod` 10)) "")).
  rewrite Heq in Hlen. cbn in Hlen. lia.
Qed.

Lemma digits_value_pretty_go (x : N) (s : string) (b : bool) :
  (0 < x)%N →
  digits_value 0 b (pretty_N_go x s) = digits_value (Z.of_N x) true s.
Proof.
  revert s b. induction (N.lt_wf_0 x) as [x _ IH]; intros s b Hx.
  rewrite pretty_N_go_step by done.
  pose proof (N.mod_lt x 10 ltac:(lia)) as Hm.
  pose proof (N.div_mod x 10 ltac:(lia)) as Hdm.
  destruct (decide (x `div` 10 = 0)%N) as [H0 | H0].
  - rewrite H0, pretty_N_go_0. cbn [digits_value].
    rewrite pretty_N_char_digit by done. f_equal. lia.
  - rewrite IH; [|apply N.div_lt; lia|lia]. cbn [digits_value].
    rewrite pretty_N_char_digit by done. f_equal. lia.
Qed.

Lemma lstrip_digits s : all_digits s → lstrip s = s.
Proof.
  destruct s as [|x s]; [done|]. cbn. intros [Hx _].
  by rewrite digit_not_space.
Qed.

Lemma rstrip_digits s : all_digits s → rstrip s = s.
Proof.
  induction s as [|x s IH]; [done|]. cbn. intros [Hx Hs].
  rewrite (IH Hs). destruct s; [|done]. by rewrite digit_not_space.
Qed.

(** [int(str(i)) == i] *)
Lemma int_pretty (i : nat) : int (pretty i) = Some (Z.of_nat i).
Proof.
  unfold int, strip.
  rewrite lstrip_digits, rstrip_digits by apply pretty_nat_digits.
  pose proof (pretty_nat_digits i) as Hd.
  assert (digits_value 0 false (pretty i) = Some (Z.of_nat i)) as Hv.
  { unfold pretty, pretty_nat, pretty, pretty_N. case_decide as H0.
    - assert (i = 0%nat) as -> by lia. reflexivity.
    - rewrite digits_value_pretty_go by lia. cbn [digits_value].
      f_equal. lia. }
  destruct (pretty i) as [|c r] eqn:Hp; [done|].
  destruct Hd as [[d Hd] _].
  destruct (decide (c = "-"%char)) as [-> | ?]; [done|].
  destruct (decide (c = "+"%char)) as [-> | ?]; [done|].
  destruct c as [[] [] [] [] [] [] [] []]; try done.
Qed.

(** Without a dot in it, a string is one piece for [split(".part")]. *)
Lemma split_go_lacks cur s :
  lacks "." s → split_go ".part" 0 cur s = [cur +:+ s].
Proof.
  revert cur. induction s as [|x s IH]; intros cur; cbn [split_go lacks].
  - intros _. by rewrite string_app_nil_r.
  - intros [Hx Hs].
    assert (String.prefix ".part" (String x s) = false) as ->.
    { cbn [String.prefix]. by destruct (Ascii.ascii_dec "."%char x) as [<- | ?]. }
    rewrite IH by done. by rewrite string_app_assoc.
Qed.

Lemma string_prefix_app (p t : string) : String.prefix p (p +:+ t) = true.
Proof.
  induction p as [|x p IH].
  - by destruct t.
  - rewrite string_app_cons. cbn [String.prefix].
    by destruct (Ascii.ascii_dec x x).
Qed.

Lemma split_part_prefix t :
  lacks "." t → split (".part" +:+ t) ".part" = [""%string; t].
Proof.
  intros Ht. unfold split.
  change (split_go ".part" 0 "" (".part" +:+ t))
    with (if String.prefix ".part" (".part" +:+ t)
          then [""%string] ++ split_go ".part" 0 "" t
          else split_go ".part" 0 "." ("part" +:+ t)).
  rewrite string_prefix_app. by rewrite split_go_lacks.
Qed.

End StringFacts.

(** ** Chunk paths *)

Section ChunkPaths.
Import PyStr Fs Utils.

Lemma part_path_inj base_dir file_id : Inj (=) (=) (part_path base_dir file_id).
Proof.
  intros i j H. unfold part_path, path_join in H.
  do 4 apply (inj (String.append _)) in H. by apply (inj pretty) in H.
Qed.



Lemma rsplit_at_occurs c s t :
  ∃ before after, rsplit_at c (s +:+ String c t) = Some (before, after).
Proof.
  induction s as [|x s (b & a & IH)].
  - rewrite string_app_nil. cbn. destruct (rsplit_at c t) as [[b a]|]; [eauto|].
    rewrite Ascii.eqb_refl. eauto.
  - rewrite string_app_cons. cbn. rewrite IH. eauto.
Qed.

Lemma part_suffix_lacks_slash (i : nat) : lacks "/" (".part" +:+ pretty i).
Proof.
  apply (lacks_app _ ".part"); [cbn; repeat split; done|].
  apply digit_lacks; [done|apply pretty_nat_digits].
Qed.

Lemma part_digits_lack_dot (i : nat) : lacks "." ("part" +:+ pretty i).
Proof.
  apply (lacks_app _ "part"); [cbn; repeat split; done|].
  apply digit_lacks; [done|apply pretty_nat_digits].
Qed.

(** The stem of a chunk path is the stem of the identifier, and the whole
    name [.partN] when the identifier has an empty final component. *)
Lemma path_stem_part base_dir file_id :
  (∃ stem, ∀ i, path_stem (part_path base_dir file_id i) = stem) ∨
  (∀ i, path_stem (part_path base_dir file_id i) = ".part" +:+ pretty i).
Proof.
  destruct (rsplit_at_occurs "/" base_dir file_id) as (b & a & Hq).
  assert (∀ i, path_name (part_path base_dir file_id i)
               = a +:+ String "." ("part" +:+ pretty i)) as Hname.
  { intros i. unfold path_name, part_path, path_join.
    change ("/" +:+ file_id +:+ ".part" +:+ pretty i)
      with (String "/" file_id +:+ ".part" +:+ pretty i).
    rewrite <- string_app_assoc.
    rewrite rsplit_at_app_lacks by apply part_suffix_lacks_slash.
    by rewrite Hq. }
  destruct a as [|x a].
  - right. intros i. unfold path_stem. rewrite Hname, string_app_nil.
    cbn. by rewrite (rsplit_at_lacks _ _ (part_digits_lack_dot i)).
  - left. exists (String x a). intros i. unfold path_stem. rewrite Hname.
    rewrite rsplit_at_last by apply part_digits_lack_dot. done.
Qed.

(** The sort key of the [i]-th chunk path does not depend on [i], or it
    is [i]. *)
Lemma get_chunk_index_part base_dir file_id :
  (∃ k, ∀ i, get_chunk_index (part_path base_dir file_id i) = k) ∨
  (∀ i, get_chunk_index (part_path base_dir file_id i) = Z.of_nat i).
Proof.
  destruct (path_stem_part base_dir file_id) as [[stem Hs] | Hs].
  - left. unfold get_chunk_index. eexists. intros i. by rewrite Hs.
  - right. intros i. unfold get_chunk_index. rewrite Hs.
    rewrite split_part_prefix
      by (apply digit_lacks; [done|apply pretty_nat_digits]).
    cbn. by rewrite int_pretty.
Qed.

Lemma get_chunk_index_mono base_dir file_id i j :
  (i ≤ j)%nat →
  get_chunk_index (part_path base_dir file_id i)
  ≤ get_chunk_index (part_path base_dir file_id j).
Proof.
  intros Hij. destruct (get_chunk_index_part base_dir file_id) as [[k Hk] | Hk];
    rewrite !Hk; lia.
Qed.

(** At most [size m] consecutive chunk files fit in [m]. *)
Lemma chunk_files_bounded (m : gmap string node) base_dir file_id n :
  (∀ i, (i < n)%nat → exists_ m (part_path base_dir file_id i) = true) →
  (n ≤ size m)%nat.
Proof.
  intros Hex.
  pose (paths := part_path base_dir file_id <$> seq 0 n).
  assert (NoDup paths) as Hnd.
  { pose proof (part_path_inj base_dir file_id).
    apply (NoDup_fmap_2 _), NoDup_seq. }
  rewrite <- (size_dom (D := gset string) m).
  replace n with (length paths) by (unfold paths; by rewrite length_fmap, length_seq).
  rewrite <- (size_list_to_set (C := gset string) paths Hnd).
  apply subseteq_size. intros p Hp. apply elem_of_list_to_set in Hp.
  unfold paths in Hp. apply list_elem_of_fmap in Hp as (i & -> & Hi).
  apply elem_of_seq in Hi. apply elem_of_dom.
  specialize (Hex i ltac:(lia)). unfold exists_ in Hex.
  by destruct (m !! part_path base_dir file_id i).
Qed.

End ChunkPaths.

(** ** The probe loops *)

Section Probes.
Import PyStr Fs Utils.

Lemma first_missing_unique m base_dir file_id n n' :
  first_missing m base_dir file_id n → first_missing m base_dir file_id n' →
  n = n'.
Proof.
  intros [H1 H2] [H1' H2'].
  destruct (Nat.lt_trichotomy n n') as [Hlt | [-> | Hlt]]; [|done|].
  - rewrite (H1' n Hlt) in H2. done.
  - rewrite (H1 n' Hlt) in H2'. done.
Qed.

Lemma count_loop_spec m base_dir file_id fuel k :
  (∀ i, (i < k)%nat → exists_ m (part_path base_dir file_id i) = true) →
  (size m < fuel + k)%nat →
  ∃ n, count_loop fuel m base_dir file_id k = Ok n ∧ (k ≤ n)%nat ∧
       first_missing m base_dir file_id n.
Proof.
  revert k. induction fuel as [|fuel IH]; intros k Hk Hfuel.
  - pose proof (chunk_files_bounded m base_dir file_id k Hk). lia.
  - cbn [count_loop].
    destruct (exists_ m (part_path base_dir file_id k)) eqn:Hex.
    + destruct (IH (S k)) as (n & Hn & Hle & Hfm).
      * intros i Hi. destruct (decide (i = k)) as [-> | ?]; [done|].
        apply Hk. lia.
      * lia.
      * exists n. split; [done|]. split; [lia|done].
    + exists k. split; [done|]. split; [lia|]. by split.
Qed.

(** The probe of [count_existing_chunks] always ends, at the first
    missing index. *)
Lemma count_existing_chunks_spec m base_dir file_id :
  ∃ n, count_existing_chunks m base_dir file_id = Ok n ∧
       first_missing m base_dir file_id n.
Proof.
  destruct (count_loop_spec m base_dir file_id (S (size m)) 0) as (n & ? & _ & ?).
  - intros i Hi. lia.
  - lia.
  - eauto.
Qed.

Lemma find_chunks_spec m base_dir file_id fuel k acc :
  (∀ i, (i < k)%nat → exists_ m (part_path base_dir file_id i) = true) →
  (size m < fuel + k)%nat →
  ∃ n, find_chunks fuel m base_dir file_id k acc
       = Ok (acc ++ (part_path base_dir file_id <$> seq k (n - k))) ∧
       (k ≤ n)%nat ∧ first_missing m base_dir file_id n.
Proof.
  revert k acc. induction fuel as [|fuel IH]; intros k acc Hk Hfuel.
  - pose proof (chunk_files_bounded m base_dir file_id k Hk). lia.
  - cbn [find_chunks].
    destruct (exists_ m (part_path base_dir file_id k)) eqn:Hex.
    + destruct (IH (S k) (acc ++ [part_path base_dir file_id k]))
        as (n & Hn & Hle & Hfm).
      * intros i Hi. destruct (decide (i = k)) as [-> | ?]; [done|].
        apply Hk. lia.
      * lia.
      * exists n. split; [|split; [lia|done]].
        rewrite Hn, <- app_assoc. f_equal.
        replace (n - k)%nat with (S (n - S k)) by lia. done.
    + exists k. split; [|split; [lia|by split]].
      by rewrite Nat.sub_diag, app_nil_r.
Qed.

(** A list whose keys never decrease is left as it is by the sort. *)
Lemma sorted_id {A} (key : A → Z) (l : list A) :
  (∀ i j x y, (i ≤ j)%nat → l !! i = Some x → l !! j = Some y → key x ≤ key y) →
  sorted l key = l.
Proof.
  induction l as [|x l IH]; intros Hmono; [done|].
  unfold sorted in *. cbn [foldr]. rewrite IH.
  - destruct l as [|y l]; [done|]. cbn [insert_by].
    rewrite (proj2 (Z.leb_le _ _)); [done|].
    apply (Hmono 0%nat 1%nat); [lia|done..].
  - intros i j a b Hij Ha Hb. by apply (Hmono (S i) (S j)); [lia|..].
Qed.

Lemma sorted_part_paths base_dir file_id k n :
  sorted (part_path base_dir file_id <$> seq k n) get_chunk_index
  = part_path base_dir file_id <$> seq k n.
Proof.
  apply sorted_id. intros i j x y Hij Hx Hy.
  rewrite list_lookup_fmap in Hx, Hy.
  destruct (seq k n !! i) as [a|] eqn:Ha; [|done].
  destruct (seq k n !! j) as [b|] eqn:Hb; [|done].
  apply lookup_seq in Ha as [-> _]. apply lookup_seq in Hb as [-> _].
  cbn in Hx, Hy. injection Hx as <-. injection Hy as <-.
  apply get_chunk_index_mono. lia.
Qed.

End Probes.

(** ** The file system *)

Section FsFacts.
Import PyStr Fs.

Lemma rsplit_at_Some c s before after :
  rsplit_at c s = Some (before, after) → s = before +:+ String c after.
Proof.
  revert before. induction s as [|x s IH]; intros before; cbn; [done|].
  destruct (rsplit_at c s) as [[b a]|].
  - intros [= <- <-]. rewrite string_app_cons. by rewrite <- (IH b).
  - destruct (Ascii.eqb_spec x c) as [-> | ?]; [|done]. by intros [= <- <-].
Qed.

Lemma parent_shorter p d :
  parent p = Some d → (String.length d < String.length p)%nat.
Proof.
  unfold parent. destruct (rsplit_at "/" p) as [[[|c b] a]|] eqn:Hp; [done| |done].
  intros [= <-]. apply rsplit_at_Some in Hp as ->.
  rewrite string_app_length. cbn. lia.
Qed.

Lemma ancestors_from_shorter fuel p a :
  a ∈ ancestors_from fuel p → (String.length a < String.length p)%nat.
Proof.
  revert p. induction fuel as [|fuel IH]; intros p; cbn [ancestors_from];
    [by rewrite elem_of_nil|].
  destruct (parent p) as [d|] eqn:Hp; [|by rewrite elem_of_nil].
  apply parent_shorter in Hp. rewrite elem_of_cons. intros [-> | Ha]; [done|].
  specialize (IH _ Ha). lia.
Qed.

(** The directories above a path have shorter names than the path. *)
Lemma ancestors_shorter p a :
  a ∈ ancestors p → (String.length a < String.length p)%nat.
Proof. apply ancestors_from_shorter. Qed.


Lemma path_join_longer d n :
  (String.length d < String.length (path_join d n))%nat.
Proof. unfold path_join. rewrite !string_app_length. cbn. lia. Qed.

(** What the walk up the chain leaves at a path: what was there, or a
    new directory where nothing was. *)
Lemma make_dirs_lookup (m m' : gmap string node) chain q :
  make_dirs m chain = Ok m' →
  m' !! q = m !! q ∨ (q ∈ chain ∧ m !! q = None ∧ m' !! q = Some Dir).
Proof.
  revert m'. induction chain as [|d up IH]; intros m'; cbn [make_dirs].
  { intros [= <-]. by left. }
  destruct (m !! d) as [[data|]|] eqn:Hd; [done|intros [= <-]; by left|].
  destruct (make_dirs m up) as [m1| |]; [|done..].
  cbn [mbind result_bind bind]. intros [= <-].
  destruct (decide (q = d)) as [-> | Hq].
  - right. rewrite lookup_insert_eq. split; [by left|done].
  - rewrite lookup_insert_ne by done.
    destruct (IH m1 eq_refl) as [IH' | (Hin & Hnone & Hdir)]; [by left|].
    right. split; [by right|done].
Qed.

(** The walk meets no regular file: it returns. *)
Lemma make_dirs_total (m : gmap string node) chain :
  Forall (λ a, ∀ data, m !! a ≠ Some (File data)) chain →
  ∃ m', make_dirs m chain = Ok m'.
Proof.
  induction 1 as [|d up Hd _ IH]; cbn [make_dirs]; [by eauto|].
  destruct (m !! d) as [[data|]|]; [by destruct (Hd data)|by eauto|].
  destruct IH as (m1 & ->). by eexists.
Qed.

(** A regular file on the way up, with nothing below it: the call
    raises. *)
Lemma make_dirs_blocked (m : gmap string node) below a data up :
  Forall (λ d, m !! d = None) below → m !! a = Some (File data) →
  make_dirs m (below ++ a :: up) = Raise OSError.
Proof.
  intros Hbelow Ha. induction Hbelow as [|d below Hd _ IH]; cbn [make_dirs app].
  - by rewrite Ha.
  - by rewrite Hd, IH.
Qed.

Lemma mkdir_Ok (m m' : gmap string node) d :
  mkdir m d = Ok m' →
  m' !! d = Some Dir ∧
  ∀ q, m' !! q = m !! q ∨
       (q ∈ d :: ancestors d ∧ m !! q = None ∧ m' !! q = Some Dir).
Proof.
  intros Hmk. split; [|intros q; by apply make_dirs_lookup].
  revert Hmk. unfold mkdir. cbn [make_dirs].
  destruct (m !! d) as [[data|]|] eqn:Hd; [done|by intros [= <-]|].
  destruct (make_dirs m (ancestors d)) as [m1| |]; [|done..].
  cbn [mbind result_bind bind]. intros [= <-]. apply lookup_insert_eq.
Qed.

Lemma mkdir_total (m : gmap string node) d :
  creatable m d → ∃ m', mkdir m d = Ok m'.
Proof. apply make_dirs_total. Qed.

Lemma mkdir_dir (m : gmap string node) d :
  m !! d = Some Dir → mkdir m d = Ok m.
Proof. intros Hd. unfold mkdir. cbn [make_dirs]. by rewrite Hd. Qed.

(** [mkdir] changes nothing but [d] and the directories above it. *)
Lemma mkdir_frame (m m' : gmap string node) d q :
  mkdir m d = Ok m' → q ≠ d → q ∉ ancestors d → m' !! q = m !! q.
Proof.
  intros Hmk Hq Hup. destruct (mkdir_Ok _ _ _ Hmk) as [_ Hall].
  destruct (Hall q) as [? | (Hin & _)]; [done|].
  apply elem_of_cons in Hin as [? | ?]; done.
Qed.


(** What was there before [mkdir] is there after it. *)
Lemma mkdir_keeps (m m' : gmap string node) d q x :
  mkdir m d = Ok m' → m !! q = Some x → m' !! q = Some x.
Proof.
  intros Hmk Hq. destruct (mkdir_Ok _ _ _ Hmk) as [_ Hall].
  destruct (Hall q) as [-> | (_ & Hnone & _)]; [done|congruence].
Qed.

Lemma write_bytes_Ok (m m' : gmap string node) p data :
  write_bytes m p data = Ok m' → m' = <[p := File data]> m.
Proof.
  unfold write_bytes. destruct (match parent p with Some _ => _ | None => _ end);
    [|done].
  by destruct (m !! p) as [[?|]|]; intros [= <-].
Qed.

Lemma write_bytes_frame (m m' : gmap string node) p data q :
  write_bytes m p data = Ok m' → q ≠ p → m' !! q = m !! q.
Proof. intros ->%write_bytes_Ok Hq. by rewrite lookup_insert_ne. Qed.



End FsFacts.

(** ** The chunk writer and the assembler *)

Section WriterFacts.
Import PyStr Fs Utils.












End WriterFacts.
(** ** The assembler *)

Section AssemblerFacts.
Import PyStr Fs Utils.

Lemma read_all_parts m base_dir file_id cs acc k :
  (∀ j ch, cs !! j = Some ch →
     m !! part_path base_dir file_id (k + j) = Some (File ch)) →
  read_all m (part_path base_dir file_id <$> seq k (length cs)) acc
  = Ok (acc ++ concat cs).
Proof.
  revert acc k. induction cs as [|ch cs IH]; intros acc k Hin.
  - cbn. by rewrite app_nil_r.
  - cbn [length seq fmap list_fmap read_all]. unfold read_bytes.
    rewrite <- (Nat.add_0_r k) at 1. rewrite (Hin 0%nat ch) by done. cbn.
    rewrite IH.
    + by rewrite <- app_assoc.
    + intros j c Hj. replace (S k + j)%nat with (k + S j)%nat by lia.
      by apply Hin.
Qed.




End AssemblerFacts.

(** ** [download_file_in_chunks] *)

Section DownloadFacts.
Import PyStr Fs Utils.







End DownloadFacts.




(** C3, the code at the failing input.  Four bytes announced by
    [Content-Length: 4], below the threshold, under the shipped constants
    with [CHUNK_COUNT_SMALL = 3]: the chunk size is [ceil(4 / 3) = 2], and
    the download writes the two chunks [ab] and [cd] and no third one.
    The comment and the log line of the branch announce
    [CHUNK_COUNT_SMALL] pieces. *)
Theorem small_payload_cut_into_fewer_pieces :
  CHUNK_COUNT_SMALL DEFAULT_CONFIG = 3 ∧
  4 < CHUNK_SIZE_THRESHOLD DEFAULT_CONFIG ∧
  Utils.content_length four_byte_response = Some "4"%string ∧
  concat (Utils.body four_byte_response) = String.list_byte_of_string "abcd" ∧
  Utils.chunk_size_for DEFAULT_CONFIG (Utils.content_length four_byte_response)
  = Ok 2 ∧
  match Utils.download_file_in_chunks posix_lib DEFAULT_CONFIG
          (λ _, Utils.HttpResponse four_byte_response) "http://host/a.png"
          "media" "abc" None empty_world with
  | Returns (ok, chunk_count, errors) w' =>
      ok = true ∧ chunk_count = 2%nat ∧ errors = [] ∧
      Utils.files w' !! Utils.part_path "media" "abc" 0
      = Some (Fs.File (String.list_byte_of_string "ab")) ∧
      Utils.files w' !! Utils.part_path "media" "abc" 1
      = Some (Fs.File (String.list_byte_of_string "cd")) ∧
      Utils.files w' !! Utils.part_path "media" "abc" 2 = None
  | _ => False
  end.
Proof. vm_compute. repeat split. Qed.

(** C4. Idempotent download.  When [{file_id}.part0] exists under the
    directory [base_dir], [download_file_in_chunks] sends no request and
    changes no file: the world it returns is the one it was given, and
    the result is success with the number of contiguous chunk files,
    where chunk files [0 .. chunk_count-1] exist and chunk file
    [chunk_count] does not. *)
Theorem download_idempotent (L : pylib) (cfg : config)
    (server : string → Utils.http_outcome) (url base_dir file_id : string)
    (file_ext : option string) (w : Utils.world) :
  Utils.files w !! base_dir = Some Fs.Dir →
  Fs.exists_ (Utils.files w) (Utils.part_path base_dir file_id 0) = true →
  ∃ chunk_count : nat,
    Utils.download_file_in_chunks L cfg server url base_dir file_id file_ext w
      = Returns (true, chunk_count, []) w ∧
    (∀ i, (i < chunk_count)%nat →
       Fs.exists_ (Utils.files w) (Utils.part_path base_dir file_id i) = true) ∧
    Fs.exists_ (Utils.files w) (Utils.part_path base_dir file_id chunk_count)
      = false.
Proof.
  intros Hdir Hpart.
  destruct (count_existing_chunks_spec (Utils.files w) base_dir file_id)
    as (n & Hcount & Hin & Hout).
  exists n. split; [|by split].
  unfold Utils.download_file_in_chunks.
  rewrite (mkdir_dir _ _ Hdir), Hpart, Hcount. by destruct w.
Qed.

Lemma download_idempotent_witness :
  Utils.files two_chunk_world !! "media"%string = Some Fs.Dir ∧
  Fs.exists_ (Utils.files two_chunk_world) (Utils.part_path "media" "abc" 0)
    = true ∧
  ∃ chunk_count : nat,
    Utils.download_file_in_chunks posix_lib DEFAULT_CONFIG
      (λ _, Utils.HttpResponse hello_response) "http://host/a.png"
      "media" "abc" None two_chunk_world
      = Returns (true, chunk_count, []) two_chunk_world ∧
    (∀ i, (i < chunk_count)%nat →
       Fs.exists_ (Utils.files two_chunk_world)
         (Utils.part_path "media" "abc" i) = true) ∧
    Fs.exists_ (Utils.files two_chunk_world)
      (Utils.part_path "media" "abc" chunk_count) = false.
Proof.
  split; [reflexivity|]. split; [reflexivity|].
  apply (download_idempotent posix_lib DEFAULT_CONFIG
           (λ _, Utils.HttpResponse hello_response) "http://host/a.png"
           "media" "abc" None two_chunk_world); reflexivity.
Defined.

(** ** The extension sidecars *)

Section SidecarFacts.
Import PyStr Fs Utils.

Lemma read_sidecar_ext L m p file_ext :
  read_sidecar L m p file_ext = default file_ext (sidecar_ext L m p).
Proof.
  unfold read_sidecar, sidecar_ext.
  destruct (m !! p) as [[data|]|]; [|done..].
  destruct (read_text L data) as [text|]; [|done].
  by destruct (_ && _).
Qed.

Lemma exists_read_sidecar L m p file_ext :
  (if exists_ m p then read_sidecar L m p file_ext else file_ext)
  = default file_ext (sidecar_ext L m p).
Proof.
  rewrite read_sidecar_ext. unfold exists_, sidecar_ext.
  by destruct (m !! p).
Qed.

(** What the resolution computes: the [.ext] sidecar wins unless what it
    offers is [.jpg] itself, in which case the sidecar named after the
    identifier is consulted as if the [.ext] one were absent. *)
Lemma resolve_extension_cases L m base_dir file_id :
  resolve_extension L m base_dir file_id =
  match sidecar_ext L m (path_join base_dir (file_id +:+ ".ext")) with
  | Some e =>
      if String.eqb e ".jpg"
      then default ".jpg"%string (sidecar_ext L m (path_join base_dir file_id))
      else e
  | None => default ".jpg"%string (sidecar_ext L m (path_join base_dir file_id))
  end.
Proof.
  unfold resolve_extension. rewrite !exists_read_sidecar.
  destruct (sidecar_ext L m (path_join base_dir (file_id +:+ ".ext")))
    as [e|]; cbn [from_option id].
  - by destruct (String.eqb_spec e ".jpg") as [-> | Hne].
  - done.
Qed.

End SidecarFacts.

(** C9, the code at the failing input.  With a valid [.ext] sidecar
    holding [.jpg] and a valid legacy sidecar holding [.png],
    [assemble_chunks] answers [.png]: the legacy file overrides the
    dedicated one, against the stated order (a) before (b).  The test
    [file_ext == '.jpg'] cannot tell a sidecar that says [.jpg] from no
    sidecar at all. *)
Theorem assemble_ext_jpg_sidecar_overridden :
  sidecar_ext posix_lib both_sidecars "media/abc.ext" = Some ".jpg"%string ∧
  sidecar_ext posix_lib both_sidecars "media/abc" = Some ".png"%string ∧
  Utils.assemble_chunks posix_lib both_sidecars "media" "abc" None
  = Ok (String.list_byte_of_string "data", ".png"%string).
Proof. vm_compute. done. Qed.

(** ** The page fetcher *)

Section FetcherFacts.
Import Konachan.

Lemma try_body_without_response o e :
  try_body o = Raise e → without_response e.
Proof.
  destruct o as [| | | | |r]; cbn; try (intros [= <-]; exact I).
  destruct (negb _); [intros [= <-]; exact I|].
  destruct (content_empty r); [intros [= <-]; exact I|].
  destruct (json r) as [| |[]]; intros [= <-] || intros [=]; exact I.
Qed.

Lemma try_body_returns o : try_body o ≠ Diverge.
Proof.
  destruct o as [| | | | |r]; cbn; try done.
  destruct (negb _); [done|]. destruct (content_empty r); [done|].
  by destruct (json r) as [| |[]].
Qed.

Lemma get_http_client_session s :
  (_get_http_client s).1 = session_of s ∧
  session_of (_get_http_client s).2 = session_of s ∧
  resets (_get_http_client s).2 = resets s ∧
  requests (_get_http_client s).2 = requests s ∧
  sleeps (_get_http_client s).2 = sleeps s ∧
  success_pages (_get_http_client s).2 = success_pages s ∧
  failed_pages (_get_http_client s).2 = failed_pages s.
Proof.
  unfold _get_http_client, session_of.
  destruct (http_client s) eqn:Hc; cbn; rewrite ?Hc; done.
Qed.

(** A delay that [time.sleep] takes. *)
Lemma sleep_Ok delay s :
  0 ≤ delay ≤ MAX_SLEEP → sleep delay s = Ok (slept delay s).
Proof.
  intros [H0 H1]. unfold sleep.
  destruct (Z.ltb_spec delay 0); [lia|].
  by destruct (Z.ltb_spec MAX_SLEEP delay); [lia|].
Qed.

Lemma sleep_Ok_inv delay s s' : sleep delay s = Ok s' → s' = slept delay s.
Proof.
  unfold sleep. destruct (_ <? _); [done|]. destruct (_ <? _); [done|].
  by intros [= <-].
Qed.

Lemma sleep_one s : sleep 1 s = Ok (slept 1 s).
Proof. apply sleep_Ok. unfold MAX_SLEEP. lia. Qed.

(** With sound retry constants every backoff delay is one. *)
Lemma backoff_delay cfg (rc : nat) :
  backoff_ok cfg → (1 ≤ rc)%nat → Z.of_nat rc < MAX_RETRIES cfg →
  0 ≤ BASE_DELAY cfg * 2 ^ (Z.of_nat rc - 1) ≤ MAX_SLEEP.
Proof.
  intros [H0 Hmax] H1 Hlt. split.
  - apply Z.mul_nonneg_nonneg; [done|]. apply Z.pow_nonneg. lia.
  - etrans; [|exact Hmax]. apply Z.mul_le_mono_nonneg_l; [done|].
    apply Z.pow_le_mono_r; lia.
Qed.

Lemma backoff_Ok cfg rc s :
  backoff_ok cfg → Z.of_nat (S rc) < MAX_RETRIES cfg →
  backoff cfg (S rc) s
  = Ok (slept (BASE_DELAY cfg * 2 ^ (Z.of_nat (S rc) - 1)) s).
Proof.
  intros Hcfg Hlt. unfold backoff. apply sleep_Ok, backoff_delay; [done|lia|done].
Qed.

(** A handler that has returned: it left the session and the request
    log alone; when it leaves the loop it has counted the page as failed
    and kept [retry_count], when it stays it has added one retry and
    counted nothing. *)
Lemma handle_Ok cfg e rc s rc' s' ctl :
  without_response e →
  handle cfg e rc s = Ok (rc', s', ctl) →
  session_of s' = session_of s ∧ resets s' = resets s ∧
  requests s' = requests s ∧ success_pages s' = success_pages s ∧
  match ctl with
  | Break => rc' = rc ∧ failed_pages s' = failed_pages s + 1
  | Again => rc' = S rc ∧ failed_pages s' = failed_pages s
  end.
Proof.
  intros He.
  destruct e as [?| | | | | | | | | | |[code|]| | |]; try done;
    cbn [handle]; unfold retry_with_backoff, backoff;
    try (intros [= <- <- <-]; done);
    (destruct (Z.of_nat (S rc) <? MAX_RETRIES cfg);
     [cbn [mbind result_bind bind];
      destruct (sleep _ s) as [t| |] eqn:Hs; [|done..];
      apply sleep_Ok_inv in Hs as ->; intros [= <- <- <-]; done
     |intros [= <- <- <-]; done]).
Qed.

(** With sound retry constants the handlers return. *)
Lemma handle_total cfg e rc s :
  backoff_ok cfg → ∃ t, handle cfg e rc s = Ok t.
Proof.
  intros Hcfg.
  assert (∀ t, ∃ u, retry_with_backoff cfg rc t = Ok u) as Hretry.
  { intros t. unfold retry_with_backoff.
    destruct (Z.ltb_spec (Z.of_nat (S rc)) (MAX_RETRIES cfg)); [|by eauto].
    rewrite backoff_Ok by done. by eauto. }
  assert (∀ t c, ∃ u,
    (if Z.of_nat (S rc) <? MAX_RETRIES cfg
     then s0 ← backoff cfg (S rc) t; Ok (S rc, s0, Again)
     else Ok (S rc, count_failed t, c)) = Ok u) as Hcount.
  { intros t c.
    destruct (Z.ltb_spec (Z.of_nat (S rc)) (MAX_RETRIES cfg)); [|by eauto].
    rewrite backoff_Ok by done. by eauto. }
  destruct e as [?| | | | | | | | | | |[code|]| | |]; cbn [handle];
    try apply Hretry; try (by eauto).
  destruct code as [|c|c]; try (by eauto);
    repeat (destruct c as [c|c|]; try (by eauto); try apply Hcount);
    destruct (_ && _); try apply Hcount; by eauto.
Qed.

Lemma retry_loop_spec cfg page_num attempt fuel p :
  backoff_ok cfg →
  (∀ k e, attempt k = Raise e → without_response e) →
  (∀ k, attempt k ≠ Diverge) →
  page_success p = false →
  (Z.to_nat (MAX_RETRIES cfg) - retry_count p < fuel)%nat →
  ∃ p', retry_loop fuel cfg page_num attempt p = Ok p' ∧ page_end p p' cfg.
Proof.
  intros Hcfg Hexn Hret. revert p.
  induction fuel as [|fuel IH]; intros p Hps Hfuel; [lia|].
  cbn [retry_loop].
  destruct (Z.ltb_spec (Z.of_nat (retry_count p)) (MAX_RETRIES cfg)) as [Hlt|Hge].
  + destruct (get_http_client_session (fetch p)) as (_ & _ & _ & _ & _ & Hgs & Hgf).
    destruct (_get_http_client (fetch p)) as [client s] eqn:Hclient.
    cbn [snd] in Hgs, Hgf.
    destruct (attempt (retry_count p)) as [[]|e|] eqn:Hatt.
    * eexists. split; [done|]. apply page_saved; cbn; [done|lia|lia].
    * destruct (handle_total cfg e (retry_count p)
                  (log_request page_num client s) Hcfg) as ([[rc' s'] ctl] & Hh).
      rewrite Hh.
      apply handle_Ok in Hh as (_ & _ & _ & Hs' & Hctl); [|by eapply Hexn].
      cbn in Hs'. destruct ctl.
      -- destruct Hctl as (-> & Hf'). eexists. split; [done|].
         apply page_rejected; cbn in *; [done|lia|lia|lia].
      -- destruct Hctl as (-> & Hf').
         destruct (IH {| retry_count := S (retry_count p);
                         page_success := false; fetch := s' |})
           as (p' & Hrun & Hend); [done|cbn; lia|].
         exists p'. split; [done|].
         destruct Hend as [? ? ?|? ? ? ?|? ? ? ?]; cbn in *;
           [apply page_saved|apply page_rejected|apply page_exhausted];
           (done || lia).
    * by destruct (Hret (retry_count p)).
  + exists p. split; [done|]. by apply page_exhausted.
Qed.

(** The requests of one page: all through the session the page started
    with, at least one while a retry is left, and no more of them than
    retries are left. *)
Lemma retry_loop_trace cfg page_num attempt fuel p p' :
  (∀ k e, attempt k = Raise e → without_response e) →
  retry_loop fuel cfg page_num attempt p = Ok p' →
  session_of (fetch p') = session_of (fetch p) ∧
  resets (fetch p') = resets (fetch p) ∧
  ∃ k : nat,
    requests (fetch p')
    = requests (fetch p) ++ replicate k (page_num, session_of (fetch p)) ∧
    Z.of_nat (retry_count p) + Z.of_nat k
    ≤ Z.max (MAX_RETRIES cfg) (Z.of_nat (retry_count p)) ∧
    (Z.of_nat (retry_count p) < MAX_RETRIES cfg → (1 ≤ k)%nat).
Proof.
  intros Hexn. unfold session_of. revert p.
  induction fuel as [|fuel IH]; intros p; cbn [retry_loop]; [done|].
  destruct (Z.ltb_spec (Z.of_nat (retry_count p)) (MAX_RETRIES cfg)) as [Hlt|Hge].
  - destruct (get_http_client_session (fetch p))
      as (Hc & Hse & Hre & Hrq & _).
    destruct (_get_http_client (fetch p)) as [client s1]. cbn [fst snd] in *.
    unfold session_of in Hc, Hse. subst client.
    destruct (attempt (retry_count p)) as [[]|e|] eqn:Hatt; [| |done].
    + intros [= <-]. cbn. rewrite Hse, Hre, Hrq. split; [done|]. split; [done|].
      exists 1%nat. split; [done|]. lia.
    + match goal with
      | |- context [handle cfg e (retry_count p) ?t] =>
          destruct (handle cfg e (retry_count p) t) as [[[rc' s'] ctl]| |] eqn:Hh;
            [|done..];
          apply handle_Ok in Hh as (Hse' & Hre' & Hrq' & _ & Hrc);
            [|by eapply Hexn]
      end.
      unfold session_of in Hse'. cbn in Hse', Hre', Hrq'.
      destruct ctl.
      * destruct Hrc as [-> _].
        intros [= <-]. cbn. rewrite Hse', Hre', Hrq', Hse, Hre, Hrq.
        split; [done|]. split; [done|]. exists 1%nat. split; [done|]. lia.
      * destruct Hrc as [-> _]. intros Hrun.
        destruct (IH _ Hrun) as (Hse2 & Hre2 & k & Hrq2 & Hk & _).
        cbn in Hse2, Hre2, Hrq2, Hk.
        rewrite Hse2, Hre2, Hrq2, Hse', Hre', Hrq', Hse, Hre, Hrq.
        split; [done|]. split; [done|]. exists (S k). split.
        -- by rewrite <- app_assoc.
        -- lia.
  - intros [= <-]. split; [done|]. split; [done|]. exists 0%nat.
    split; [by rewrite app_nil_r|]. lia.
Qed.

(** The page loop leaves the same counters and log whether it sleeps its
    second before the next page or not. *)
Lemma page_pause page_num end_page (t : fetch_state) :
  ∃ t', (if page_num <? end_page then sleep 1 t else Ok t) = Ok t' ∧
    session_of t' = session_of t ∧ resets t' = resets t ∧
    requests t' = requests t ∧ success_pages t' = success_pages t ∧
    failed_pages t' = failed_pages t ∧
    sleeps t' = sleeps t ++ (if page_num <? end_page then [1] else []).
Proof.
  destruct (page_num <? end_page).
  - rewrite sleep_one. by eexists.
  - exists t. by rewrite app_nil_r.
Qed.

(** One page, one count. *)
Lemma fetch_page_counts cfg env end_page page_num s :
  backoff_ok cfg →
  ∃ s', fetch_page cfg env end_page page_num s = Ok s' ∧
        ((success_pages s' = success_pages s + 1 ∧
          failed_pages s' = failed_pages s) ∨
         (success_pages s' = success_pages s ∧
          failed_pages s' = failed_pages s + 1)).
Proof.
  intros Hcfg. unfold fetch_page, process_page.
  destruct (retry_loop_spec cfg page_num (λ k, try_body (env page_num k))
              (retry_fuel cfg)
              {| retry_count := 0; page_success := false; fetch := s |})
    as (p' & -> & Hend).
  - done.
  - intros k e. apply try_body_without_response.
  - intros k. apply try_body_returns.
  - done.
  - unfold retry_fuel. cbn. lia.
  - cbn [mbind result_bind bind].
    match goal with
    | |- context [if page_num <? end_page then sleep 1 ?t else Ok ?t] =>
        destruct (page_pause page_num end_page t)
          as (t' & -> & _ & _ & _ & Hsu & Hfa & _)
    end.
    exists t'. split; [done|]. rewrite Hsu, Hfa.
    destruct Hend as [Hps Hs Hf|Hps Hrc Hs Hf|Hps Hrc Hs Hf]; cbn in Hs, Hf;
      rewrite Hps; cbn [negb andb].
    + left. lia.
    + right. destruct (Z.geb_spec (Z.of_nat (retry_count p')) (MAX_RETRIES cfg));
        [lia|]. lia.
    + right. destruct (Z.geb_spec (Z.of_nat (retry_count p')) (MAX_RETRIES cfg));
        [|lia]. cbn. lia.
Qed.

Lemma fetch_pages_counts cfg env end_page pages s :
  backoff_ok cfg →
  ∃ s', fetch_pages cfg env end_page pages s = Ok s' ∧
        accounted s' = accounted s + Z.of_nat (length pages) ∧
        success_pages s ≤ success_pages s' ∧ failed_pages s ≤ failed_pages s'.
Proof.
  intros Hcfg. revert s. induction pages as [|page_num pages IH]; intros s.
  - exists s. cbn. unfold accounted. split; [done|]. lia.
  - cbn [fetch_pages].
    destruct (fetch_page_counts cfg env end_page page_num s Hcfg)
      as (s1 & -> & H1).
    cbn [mbind result_bind bind].
    destruct (IH s1) as (s' & -> & Hacc & Hs & Hf).
    exists s'. split; [done|]. unfold accounted in *. cbn [length].
    destruct H1 as [[? ?]|[? ?]]; lia.
Qed.

Lemma fetch_page_trace cfg env end_page page_num s s' :
  fetch_page cfg env end_page page_num s = Ok s' →
  session_of s' = session_of s ∧ resets s' = resets s ∧
  ∃ k : nat,
    requests s' = requests s ++ replicate k (page_num, session_of s) ∧
    Z.of_nat k ≤ Z.max (MAX_RETRIES cfg) 0 ∧
    (0 < MAX_RETRIES cfg → (1 ≤ k)%nat).
Proof.
  unfold fetch_page, process_page.
  destruct (retry_loop _ _ _ _ _) as [p'| |] eqn:Hrun; [|done..].
  apply retry_loop_trace in Hrun as (Hse & Hre & k & Hrq & Hk & Hk1);
    [|intros j e; apply try_body_without_response].
  cbn in Hse, Hre, Hrq, Hk, Hk1. cbn [mbind result_bind bind].
  match goal with
  | |- context [if page_num <? end_page then sleep 1 ?t else Ok ?t] =>
      destruct (page_pause page_num end_page t)
        as (t' & -> & Hse' & Hre' & Hrq' & _)
  end.
  intros [= <-]. rewrite Hse', Hre', Hrq'.
  destruct (negb _ && _); cbn; rewrite ?Hse, ?Hre, ?Hrq;
    (split; [done|]); (split; [done|]); exists k; (split; [done|]);
    (split; [lia|done]).
Qed.

Lemma fetch_pages_trace cfg env end_page pages s s' :
  fetch_pages cfg env end_page pages s = Ok s' →
  session_of s' = session_of s ∧ resets s' = resets s ∧
  ∃ log : list (Z * nat),
    requests s' = requests s ++ log ∧
    Forall (λ q, q.1 ∈ pages ∧ q.2 = session_of s) log ∧
    Z.of_nat (length log)
    ≤ Z.max (MAX_RETRIES cfg) 0 * Z.of_nat (length pages) ∧
    (0 < MAX_RETRIES cfg → ∀ page_num, page_num ∈ pages → page_num ∈ log.*1).
Proof.
  revert s. induction pages as [|page_num pages IH]; intros s; cbn [fetch_pages].
  - intros [= <-]. split; [done|]. split; [done|]. exists [].
    split; [by rewrite app_nil_r|]. split; [done|]. split; [cbn; lia|].
    intros _ p Hp. by apply elem_of_nil in Hp.
  - destruct (fetch_page cfg env end_page page_num s) as [s1| |] eqn:H1; [|done..].
    cbn [mbind result_bind bind]. intros Hrest.
    apply fetch_page_trace in H1 as (Hse1 & Hre1 & k & Hrq1 & Hk & Hk1).
    apply IH in Hrest as (Hse & Hre & log & Hrq & Hall & Hlen & Hin).
    rewrite Hse, Hre, Hrq, Hse1, Hre1, Hrq1. split; [done|]. split; [done|].
    exists (replicate k (page_num, session_of s) ++ log).
    split; [by rewrite <- app_assoc|]. split; [|split].
    + apply Forall_app. split.
      * apply Forall_forall. intros q Hq.
        apply elem_of_replicate in Hq as [-> _]. split; [by left|done].
      * eapply Forall_impl; [exact Hall|]. intros q [Hq1 Hq2].
        split; [by right|by rewrite <- Hse1].
    + rewrite length_app, length_replicate. cbn [length]. lia.
    + intros Hmax p Hp. rewrite fmap_app, elem_of_app.
      apply elem_of_cons in Hp as [-> | Hp]; [left|right; by apply Hin].
      specialize (Hk1 Hmax). destruct k as [|k]; [lia|]. cbn. by left.
Qed.

End FetcherFacts.



(** ** Retry classification *)

Section RetryFacts.
Import Konachan.

(** A response whose status is not 200 ends the page on the spot: one
    request, the page counted as failed, no session reset, no backoff
    sleep.  What the status is (403, 404, 500) makes no difference. *)
Lemma non_200_response_fails_page cfg env end_page page_num s r :
  0 < MAX_RETRIES cfg →
  env page_num 0%nat = GetResponse r →
  status_code r ≠ 200 →
  ∃ s', fetch_page cfg env end_page page_num s = Ok s' ∧
    failed_pages s' = failed_pages s + 1 ∧
    success_pages s' = success_pages s ∧
    resets s' = resets s ∧
    length (requests s') = S (length (requests s)) ∧
    sleeps s' = sleeps s ++ (if page_num <? end_page then [1] else []).
Proof.
  intros Hmax Henv Hst. unfold fetch_page, process_page, retry_fuel.
  cbn [retry_loop retry_count fetch].
  destruct (Z.ltb_spec (Z.of_nat 0) (MAX_RETRIES cfg)); [|lia].
  assert (try_body (env page_num 0%nat) = Raise (HTTPError None)) as ->.
  { rewrite Henv. cbn. by destruct (Z.eqb_spec (status_code r) 200). }
  destruct (get_http_client_session s) as (_ & _ & Hr & Hq & Hsl & Hsu & Hfa).
  destruct (_get_http_client s) as [client s1]. cbn [snd] in *.
  cbn [handle mbind result_bind bind page_success retry_count fetch negb andb].
  destruct (Z.geb_spec (Z.of_nat 0) (MAX_RETRIES cfg)); [lia|].
  match goal with
  | |- context [if page_num <? end_page then sleep 1 ?t else Ok ?t] =>
      destruct (page_pause page_num end_page t)
        as (t' & -> & _ & Hr' & Hq' & Hsu' & Hfa' & Hsl')
  end.
  exists t'. split; [done|]. rewrite Hr', Hq', Hsu', Hfa', Hsl'. cbn.
  rewrite Hr, Hq, Hsl, Hsu, Hfa, length_app. cbn. repeat split; lia.
Qed.

(** What the 403 clause of the handler does with an [HTTPError] that
    carries its response: the session is dropped, and a retry follows
    after the backoff sleep. *)
Lemma handle_403_with_response cfg rc s :
  backoff_ok cfg →
  Z.of_nat (S rc) < MAX_RETRIES cfg →
  handle cfg (HTTPError (Some 403)) rc s
  = Ok (S rc,
        slept (BASE_DELAY cfg * 2 ^ (Z.of_nat (S rc) - 1)) (_reset_http_client s),
        Again).
Proof.
  intros Hcfg H. cbn [handle].
  destruct (Z.ltb_spec (Z.of_nat (S rc)) (MAX_RETRIES cfg)); [|lia].
  by rewrite backoff_Ok.
Qed.

Lemma retry_loop_timeouts cfg page_num attempt n fuel j s :
  backoff_ok cfg →
  (j ≤ n)%nat → Z.of_nat n < MAX_RETRIES cfg → (n - j < fuel)%nat →
  (∀ k, (j ≤ k < n)%nat → attempt k = Raise Timeout) →
  attempt n = Ok () →
  ∃ s', retry_loop fuel cfg page_num attempt
          {| retry_count := j; page_success := false; fetch := s |}
        = Ok {| retry_count := n; page_success := true; fetch := s' |} ∧
    success_pages s' = success_pages s + 1 ∧
    failed_pages s' = failed_pages s ∧
    resets s' = resets s ∧
    length (requests s') = (length (requests s) + S (n - j))%nat ∧
    sleeps s' = sleeps s ++ backoffs cfg j n.
Proof.
  intros Hcfg Hjn Hn. revert j s Hjn.
  induction fuel as [|fuel IH]; intros j s Hjn Hfuel Hto Hok; [lia|].
  cbn [retry_loop retry_count fetch].
  destruct (Z.ltb_spec (Z.of_nat j) (MAX_RETRIES cfg)); [|lia].
  destruct (get_http_client_session s) as (_ & _ & Hr & Hq & Hsl & Hsu & Hfa).
  destruct (_get_http_client s) as [client s1]. cbn [snd] in *.
  destruct (decide (j = n)) as [-> | Hne].
  - rewrite Hok. eexists. split; [done|]. unfold backoffs.
    rewrite Nat.sub_diag. cbn. rewrite Hr, Hq, Hsl, Hsu, Hfa, length_app, app_nil_r.
    cbn. repeat split; lia.
  - rewrite (Hto j) by lia. cbn [handle]. unfold retry_with_backoff.
    destruct (Z.ltb_spec (Z.of_nat (S j)) (MAX_RETRIES cfg)); [|lia].
    rewrite backoff_Ok by done. cbn [mbind result_bind bind].
    destruct (IH (S j)
                (slept (BASE_DELAY cfg * 2 ^ (Z.of_nat (S j) - 1))
                   (log_request page_num client s1)))
      as (s' & -> & Hsu' & Hfa' & Hr' & Hq' & Hsl'); [lia|lia| |done|].
    { intros k Hk. apply Hto. lia. }
    exists s'. split; [done|]. cbn in Hsu', Hfa', Hr', Hq', Hsl'.
    rewrite Hsu', Hfa', Hr', Hq', Hsl', Hr, Hq, Hsl, Hsu, Hfa, length_app.
    cbn [length]. repeat split; try lia.
    unfold backoffs. replace (n - j)%nat with (S (n - S j)) by lia.
    cbn [seq fmap list_fmap]. by rewrite <- app_assoc.
Qed.

(** [n] timeouts, then a response that is saved, with [n] below
    [MAX_RETRIES]: the page succeeds on attempt [n + 1], after sleeping
    [BASE_DELAY * 2^(k-1)] before retry [k] for [k = 1 .. n], without a
    session reset. *)
Lemma timeouts_then_success cfg env end_page page_num s n r :
  backoff_ok cfg →
  Z.of_nat n < MAX_RETRIES cfg →
  (∀ k, (k < n)%nat → env page_num k = GetTimeout) →
  env page_num n = GetResponse r → saved_response r →
  ∃ s', fetch_page cfg env end_page page_num s = Ok s' ∧
    success_pages s' = success_pages s + 1 ∧
    failed_pages s' = failed_pages s ∧
    resets s' = resets s ∧
    length (requests s') = (length (requests s) + S n)%nat ∧
    sleeps s' = sleeps s ++ backoffs cfg 0 n
                  ++ (if page_num <? end_page then [1] else []).
Proof.
  intros Hcfg Hn Hto Henv (Hst & Hce & Hjs). unfold fetch_page, process_page.
  destruct (retry_loop_timeouts cfg page_num (λ k, try_body (env page_num k))
              n (retry_fuel cfg) 0 s)
    as (s' & -> & Hsu & Hfa & Hr & Hq & Hsl).
  - done.
  - lia.
  - done.
  - unfold retry_fuel. lia.
  - intros k Hk. by rewrite Hto by lia.
  - rewrite Henv. cbn. by rewrite Hst, Hce, Hjs.
  - cbn [mbind result_bind bind page_success negb andb fetch].
    destruct (page_pause page_num end_page s')
      as (t' & -> & _ & Hr' & Hq' & Hsu' & Hfa' & Hsl').
    exists t'. split; [done|]. rewrite Nat.sub_0_r in Hq.
    rewrite Hr', Hq', Hsu', Hfa', Hsl', Hsu, Hfa, Hr, Hq, Hsl.
    by rewrite <- app_assoc.
Qed.

End RetryFacts.

(** C5, the code at the failing input.  The first response of a page has
    status 403 and [MAX_RETRIES] allows retries: [get_data]'s page loop
    makes that one request, counts the page as failed and moves on; the
    session is not reset ([resets] is unchanged), nothing is retried and
    no backoff delay is slept.  The try body raises
    [requests.HTTPError(...)] without passing the response, so the
    handler reads [status_code = None] and takes the client-error
    branch. *)
Theorem forbidden_response_not_retried (cfg : config)
    (env : Z → nat → Konachan.get_outcome) (end_page page_num : Z)
    (s : Konachan.fetch_state) (r : Konachan.response) :
  0 < MAX_RETRIES cfg →
  env page_num 0%nat = Konachan.GetResponse r →
  Konachan.status_code r = 403 →
  Konachan.try_body (env page_num 0%nat) = Raise (HTTPError None) ∧
  ∃ s', Konachan.fetch_page cfg env end_page page_num s = Ok s' ∧
    Konachan.failed_pages s' = Konachan.failed_pages s + 1 ∧
    Konachan.success_pages s' = Konachan.success_pages s ∧
    Konachan.resets s' = Konachan.resets s ∧
    length (Konachan.requests s') = S (length (Konachan.requests s)) ∧
    Konachan.sleeps s'
    = Konachan.sleeps s ++ (if page_num <? end_page then [1] else []).
Proof.
  intros Hmax Henv Hst. split.
  - rewrite Henv. cbn. by rewrite Hst.
  - apply (non_200_response_fails_page cfg env end_page page_num s r);
      [done|done|]. rewrite Hst. done.
Qed.

Lemma forbidden_response_not_retried_witness :
  0 < MAX_RETRIES DEFAULT_CONFIG ∧
  Konachan.try_body (forbidden_env 1 0%nat) = Raise (HTTPError None) ∧
  ∃ s', Konachan.fetch_page DEFAULT_CONFIG forbidden_env 1 1 fresh_fetch_state
        = Ok s' ∧
    Konachan.failed_pages s' = Konachan.failed_pages fresh_fetch_state + 1 ∧
    Konachan.success_pages s' = Konachan.success_pages fresh_fetch_state ∧
    Konachan.resets s' = Konachan.resets fresh_fetch_state ∧
    length (Konachan.requests s')
    = S (length (Konachan.requests fresh_fetch_state)) ∧
    Konachan.sleeps s'
    = Konachan.sleeps fresh_fetch_state ++ (if 1 <? 1 then [1] else []).
Proof.
  split; [reflexivity|].
  apply (forbidden_response_not_retried DEFAULT_CONFIG forbidden_env 1 1
           fresh_fetch_state
           {| Konachan.status_code := 403; Konachan.content_empty := false;
              Konachan.json := Konachan.JsonInvalid |}); reflexivity.
Defined.

(** ** [merge_chunks]: what a run leaves on disk *)

Section MergeDisk.
Import PyStr Fs FsApi.

Lemma path_join_inj dir : Inj (=) (=) (path_join dir).
Proof.
  intros a b H. unfold path_join in H.
  by do 2 apply (inj (String.append _)) in H.
Qed.

Lemma path_join_ne_dir dir a : path_join dir a ≠ dir.
Proof.
  intros H. apply (f_equal String.length) in H. unfold path_join in H.
  rewrite !string_app_length in H. cbn in H. lia.
Qed.

Lemma path_join_not_above dir a : path_join dir a ∉ ancestors dir.
Proof. intros H%ancestors_shorter. pose proof (path_join_longer dir a). lia. Qed.

(** The sort permutes. *)
Lemma insert_by_elem_of {A} (key : A → Z) (x y : A) (l : list A) :
  y ∈ Utils.insert_by key x l ↔ y = x ∨ y ∈ l.
Proof.
  induction l as [|z l IH]; cbn.
  - rewrite list_elem_of_singleton, elem_of_nil. tauto.
  - destruct (key x <=? key z); rewrite !elem_of_cons; [tauto|].
    rewrite IH. tauto.
Qed.

Lemma sorted_elem_of {A} (key : A → Z) (y : A) (l : list A) :
  y ∈ Utils.sorted l key ↔ y ∈ l.
Proof.
  unfold Utils.sorted. induction l as [|x l IH]; cbn; [done|].
  by rewrite insert_by_elem_of, IH, elem_of_cons.
Qed.

(** The steps that touch a single path. *)
Lemma append_bytes_frame (m : gmap string node) p data q :
  q ≠ p → append_bytes m p data !! q = m !! q.
Proof.
  intros Hq. unfold append_bytes.
  destruct (m !! p) as [[?|]|]; by rewrite lookup_insert_ne.
Qed.

Lemma remove_frame (m m' : gmap string node) p q :
  remove m p = Ok m' → m' !! q = delete p m !! q.
Proof. unfold remove. by destruct (m !! p) as [[?|]|]; intros [= <-]. Qed.

Lemma merge_loop_frame m storage_dir merged_file_path chunks_info chunk_uuids q :
  q ≠ merged_file_path →
  (merge_loop m storage_dir merged_file_path chunks_info chunk_uuids).1 !! q
  = m !! q.
Proof.
  intros Hq. revert m chunk_uuids.
  induction chunks_info as [|ci rest IH]; intros m chunk_uuids; cbn; [done|].
  destruct (exists_ m _); [|done].
  destruct (read_bytes m _); [|done..].
  by rewrite IH, append_bytes_frame.
Qed.

Lemma assemble_temp_frame m storage_dir temp_file_path chunks q :
  q ≠ temp_file_path →
  (assemble_temp m storage_dir temp_file_path chunks).1 !! q = m !! q.
Proof.
  intros Hq. revert m.
  induction chunks as [|ci rest IH]; intros m; cbn; [done|].
  destruct (exists_ m _); [|by apply IH].
  destruct (read_bytes m _); [|done..].
  by rewrite IH, append_bytes_frame.
Qed.

Lemma store_thumbnail_frame env storage_dir file_info thumbnail_data st :
  thumbnail_frame env storage_dir st
    (store_thumbnail env storage_dir file_info thumbnail_data st).
Proof.
  unfold store_thumbnail.
  destruct (Cipher.encrypt_data _ _) as [enc| |]; cbn; [|done..].
  destruct (write_bytes _ _ _) as [m'| |] eqn:Hw; cbn; [|done..].
  intros q Hq _ _. by apply (write_bytes_frame _ _ _ _ _ Hw).
Qed.

(** ffmpeg touches the path of its frame only. *)
Lemma extract_frame_frame env storage_dir assembled (m : gmap string node) q :
  q ≠ frame_path env storage_dir →
  (extract_frame env storage_dir assembled m).1 !! q = m !! q.
Proof.
  intros Hq. unfold extract_frame. fold (frame_path env storage_dir).
  assert (∀ output,
    match output with
    | Some data =>
        match write_bytes m (frame_path env storage_dir) data with
        | Ok m' => m'
        | _ => m
        end
    | None => m
    end !! q = m !! q) as Hwritten.
  { intros [data|]; [|done].
    destruct (write_bytes m _ data) as [m'| |] eqn:Hw; [|done..].
    by apply (write_bytes_frame _ _ _ _ _ Hw). }
  destruct (ffmpeg env assembled) as [|output|returncode output]; cbn [fst];
    [done|apply Hwritten|].
  destruct (_ && _); [|apply Hwritten].
  destruct (read_bytes _ _) as [thumbnail_data| |]; [|apply Hwritten..].
  destruct (remove _ _) as [m'| |] eqn:Hrm; cbn [fst]; [|apply Hwritten..].
  rewrite (remove_frame _ _ _ _ Hrm), lookup_delete_ne by done.
  apply Hwritten.
Qed.

Lemma generate_thumbnail_frame L env file_info storage_dir chunks st :
  thumbnail_frame env storage_dir st
    (generate_thumbnail L env file_info storage_dir chunks st).
Proof.
  unfold generate_thumbnail.
  destruct (thumbnail_kind L file_info) as [is_image is_video].
  destruct (negb _); [by cbn|].
  fold (temp_path env storage_dir).
  destruct (write_bytes (disk st) (temp_path env storage_dir) [])
    as [m| |] eqn:Hw; [|by cbn..].
  pose proof (assemble_temp_frame m storage_dir (temp_path env storage_dir) chunks)
    as Hasm.
  destruct (assemble_temp m storage_dir (temp_path env storage_dir) chunks)
    as [m1 e]. cbn [fst] in Hasm.
  assert (∀ q, q ≠ temp_path env storage_dir → m1 !! q = disk st !! q) as Hm1.
  { intros q Hq. rewrite Hasm by done. by apply (write_bytes_frame _ _ _ _ _ Hw). }
  destruct e as [e|]; [cbn; by auto|].
  destruct (m1 !! temp_path env storage_dir) as [[[|b assembled]|]|];
    try (cbn; by auto).
  assert (∃ m2 thumbnail_data,
    (if is_image then (m1, render env (b :: assembled))
     else extract_frame env storage_dir (b :: assembled) m1)
    = (m2, thumbnail_data) ∧
    ∀ q, q ≠ temp_path env storage_dir → q ≠ frame_path env storage_dir →
         m2 !! q = disk st !! q) as (m2 & thumbnail_data & -> & Hm2).
  { destruct is_image; [by eauto|].
    pose proof (extract_frame_frame env storage_dir (b :: assembled) m1) as Hf.
    destruct (extract_frame _ _ _ _) as [m2 t]. exists m2, t. split; [done|].
    intros q Hq1 Hq2. cbn [fst] in Hf. rewrite Hf by done. by apply Hm1. }
  assert (∀ m3,
    (if exists_ m2 (temp_path env storage_dir)
     then remove m2 (temp_path env storage_dir) else Ok m2) = Ok m3 →
    ∀ q, q ≠ temp_path env storage_dir → q ≠ frame_path env storage_dir →
         m3 !! q = disk st !! q) as Hm3.
  { intros m3 Hrm q Hq1 Hq2. destruct (exists_ m2 _).
    - rewrite (remove_frame _ _ _ _ Hrm), lookup_delete_ne by done. by apply Hm2.
    - injection Hrm as <-. by apply Hm2. }
  destruct (if exists_ m2 _ then _ else _) as [m3| |]; [|cbn; by auto|done].
  specialize (Hm3 m3 eq_refl).
  destruct thumbnail_data as [[|b' rest]|]; try (cbn; by auto).
  pose proof (store_thumbnail_frame env storage_dir file_info (b' :: rest)
    {| disk := m3; db := db st |}) as Hst.
  destruct (store_thumbnail _ _ _ _ _) as [fi st'|e st'|]; cbn in *; [| |done];
    intros q Hq1 Hq2 Hq3; rewrite Hst by done; by apply Hm3.
Qed.

Lemma thumbnail_stage_frame L env req file_info storage_dir chunk_uuids st :
  thumbnail_frame env storage_dir st
    (thumbnail_stage L env req file_info storage_dir chunk_uuids st).
Proof.
  unfold thumbnail_stage.
  assert (thumbnail_frame env storage_dir st
    (if generate_thumbnail_flag req
        && is_media L (mime file_info) (type_ file_info)
        && negb (bool_decide (chunk_uuids = []))
     then generate_thumbnail L env file_info storage_dir chunk_uuids st
     else Returns file_info st)) as Hbackend.
  { destruct (_ && _); [apply generate_thumbnail_frame|by cbn]. }
  destruct (thumbnail_base64 req) as [t|]; [|exact Hbackend].
  destruct (negb _ && _); [|exact Hbackend].
  destruct (b64decode_str t) as [thumbnail_data| |];
    [|exact Hbackend|exact I].
  pose proof (store_thumbnail_frame env storage_dir file_info thumbnail_data st)
    as Hst.
  destruct (store_thumbnail _ _ _ _ _) as [fi st'|e st'|];
    [exact Hst| |exact I].
  destruct (_ && _); [|exact Hst].
  pose proof (generate_thumbnail_frame L env file_info storage_dir chunk_uuids st')
    as Hgen.
  clear Hbackend.
  destruct (generate_thumbnail L env file_info storage_dir chunk_uuids st')
    as [fi st2|e2 st2|]; cbn in *;
    [| |done]; intros q Hq1 Hq2 Hq3; rewrite Hgen by done; by apply Hst.
Qed.

(** A merge loop that ran to its end has read every chunk; those that are
    not the merged file itself were files before it started. *)
Lemma merge_loop_read m storage_dir merged_file_path cs chunk_uuids m' all ci :
  merge_loop m storage_dir merged_file_path cs chunk_uuids = (m', MergeDone all) →
  ci ∈ cs → path_join storage_dir (chunk_uuid ci) ≠ merged_file_path →
  ∃ data, m !! path_join storage_dir (chunk_uuid ci) = Some (File data).
Proof.
  revert m chunk_uuids. induction cs as [|c cs IH]; intros m chunk_uuids;
    [by rewrite elem_of_nil|].
  cbn [merge_loop]. destruct (exists_ m _); [|done].
  destruct (read_bytes m (path_join storage_dir (chunk_uuid c)))
    as [data| |] eqn:Hread; [|done..].
  intros Hrun Hci Hne. apply elem_of_cons in Hci as [-> | Hci].
  - exists data. unfold read_bytes in Hread.
    by destruct (m !! _) as [[?|]|]; [injection Hread as ->|..].
  - destruct (IH _ _ Hrun Hci Hne) as (d & Hd). exists d.
    by rewrite append_bytes_frame in Hd.
Qed.

End MergeDisk.

Section MergeRuns.
Import PyStr Fs FsApi.

(** A branch of [merge_chunks] that does not answer "uploaded". *)
Ltac not_uploaded Hrun Hdata :=
  first [ discriminate Hrun
        | injection Hrun as <- <-; discriminate Hdata ].

(** A successful registration leaves the disk as it was without the
    merged file, apart from the directory itself, those above it and the
    three paths of the thumbnail stage; and it has read every chunk. *)
Lemma merge_chunks_uploaded_disk L env req st resp st' i c :
  merge_chunks L env req st = Returns resp st' →
  data resp = Some (i, c, false) →
  (∀ q, q ≠ thumb_path env (storage_dir_of env req) →
        q ≠ temp_path env (storage_dir_of env req) →
        q ≠ frame_path env (storage_dir_of env req) →
        q ≠ storage_dir_of env req →
        q ∉ ancestors (storage_dir_of env req) →
        disk st' !! q = delete (merged_path_of env req) (disk st) !! q) ∧
  (∀ ci, ci ∈ chunks req →
     path_join (storage_dir_of env req) (chunk_uuid ci) ≠ merged_path_of env req →
     ∃ data, disk st !! path_join (storage_dir_of env req) (chunk_uuid ci)
             = Some (File data)).
Proof.
  intros Hrun Hdata. unfold merge_chunks in Hrun.
  fold (storage_dir_of env req) in Hrun. fold (merged_path_of env req) in Hrun.
  destruct (_ || _); [not_uploaded Hrun Hdata|].
  destruct (filter_md5_first _ _); [not_uploaded Hrun Hdata|].
  destruct (mkdir _ _) as [m0| |] eqn:Hmk; [|not_uploaded Hrun Hdata..].
  destruct (write_bytes m0 _ _) as [m1| |] eqn:Hw; [|not_uploaded Hrun Hdata..].
  pose proof (merge_loop_frame m1 (storage_dir_of env req) (merged_path_of env req)
                (Utils.sorted (chunks req) chunk_index) []) as Hloop.
  destruct (merge_loop m1 _ _ _ _) as [m2 [chunk_uuids|u|e]] eqn:Hmerge;
    [|not_uploaded Hrun Hdata..]. cbn [fst] in Hloop.
  destruct (read_bytes m2 _) as [merged| |]; [|not_uploaded Hrun Hdata..].
  destruct (negb _).
  { destruct (remove m2 _); not_uploaded Hrun Hdata. }
  destruct (remove m2 _) as [m3| |] eqn:Hrm; [|not_uploaded Hrun Hdata..].
  unfold register_file in Hrun.
  destruct (objects_create _ _) as [[file_info d]| |]; [|not_uploaded Hrun Hdata..].
  match type of Hrun with
  | context [thumbnail_stage L env req file_info ?sd ?us ?s0] =>
      pose proof (thumbnail_stage_frame L env req file_info sd us s0) as Hth;
      destruct (thumbnail_stage L env req file_info sd us s0)
        as [fi st2|e st2|]; [|not_uploaded Hrun Hdata..]
  end.
  injection Hrun as <- <-. cbn [disk] in *. split.
  - intros q Hq1 Hq2 Hq3 Hq4 Hq5.
    rewrite (Hth q Hq1 Hq2 Hq3), (remove_frame _ _ _ _ Hrm).
    destruct (decide (q = merged_path_of env req)) as [-> | Hq].
    + by rewrite !lookup_delete_eq.
    + rewrite !lookup_delete_ne by done. rewrite Hloop by done.
      rewrite (write_bytes_frame _ _ _ _ _ Hw) by done.
      by apply (mkdir_frame _ _ _ _ Hmk).
  - intros ci Hci Hne.
    destruct (merge_loop_read _ _ _ _ _ _ _ ci Hmerge) as (data & Hdata');
      [by apply sorted_elem_of|done|].
    exists data. rewrite (write_bytes_frame _ _ _ _ _ Hw) in Hdata' by done.
    rewrite (mkdir_frame _ _ _ _ Hmk) in Hdata';
      [done|apply path_join_ne_dir|apply path_join_not_above].
Qed.

End MergeRuns.

(** C10 (as amended). The merged file does not outlive a successful
    merge.  For a request whose hash, file name and chunk names are
    proper names, no chunk bearing the file name, when [merge_chunks]
    answers "uploaded": [{storage_dir}/{file_name}] does not exist; every
    other path holds what it held before the call, apart from the
    storage directory, the directories above it and the three paths of
    the thumbnail stage ([thumb_{uuid}.enc], [temp_{uuid}],
    [thumb_{uuid}.jpg]); and every declared chunk was a file before the
    call and is that file after it.  What is left of the payload is the
    chunk files. *)
Theorem merged_file_removed_on_success (L : pylib) (env : FsApi.call_env)
    (req : FsApi.merge_request) (st st' : FsApi.state)
    (resp : FsApi.response) (file_id : Z) (file_code : string) :
  normalised (FsApi.FS_MEDIA_ROOT env) → proper_name (FsApi.time_str env) →
  proper_name (FsApi.file_md5 req) → proper_name (FsApi.file_name req) →
  Forall (λ ci, proper_name (FsApi.chunk_uuid ci) ∧
                FsApi.chunk_uuid ci ≠ FsApi.file_name req) (FsApi.chunks req) →
  FsApi.merge_chunks L env req st = Returns resp st' →
  FsApi.data resp = Some (file_id, file_code, false) →
  (merged_path_of env req ∉ stage_paths env (storage_dir_of env req) →
   FsApi.disk st' !! merged_path_of env req = None) ∧
  (∀ q, q ≠ merged_path_of env req →
        q ∉ stage_paths env (storage_dir_of env req) →
        q ≠ storage_dir_of env req →
        q ∉ Fs.ancestors (storage_dir_of env req) →
        FsApi.disk st' !! q = FsApi.disk st !! q) ∧
  (∀ ci, ci ∈ FsApi.chunks req →
     PyStr.path_join (storage_dir_of env req) (FsApi.chunk_uuid ci)
       ∉ stage_paths env (storage_dir_of env req) →
     ∃ data,
       FsApi.disk st
         !! PyStr.path_join (storage_dir_of env req) (FsApi.chunk_uuid ci)
       = Some (Fs.File data) ∧
       FsApi.disk st'
         !! PyStr.path_join (storage_dir_of env req) (FsApi.chunk_uuid ci)
       = Some (Fs.File data)).
Proof.
  intros _ _ _ _ Hchunks Hrun Hdata.
  rewrite Forall_forall in Hchunks.
  destruct (merge_chunks_uploaded_disk L env req st resp st' _ _ Hrun Hdata)
    as [Hdisk Hread].
  assert (∀ q, q ∉ stage_paths env (storage_dir_of env req) →
               q ≠ thumb_path env (storage_dir_of env req) ∧
               q ≠ temp_path env (storage_dir_of env req) ∧
               q ≠ frame_path env (storage_dir_of env req)) as Hstage.
  { intros q Hq. unfold stage_paths in Hq.
    rewrite !not_elem_of_cons in Hq. tauto. }
  split; [|split].
  - intros (H1 & H2 & H3)%Hstage.
    rewrite Hdisk; [by rewrite lookup_delete_eq|done..| |].
    + apply path_join_ne_dir.
    + apply path_join_not_above.
  - intros q Hq (H1 & H2 & H3)%Hstage Hq4 Hq5.
    rewrite Hdisk by done. by rewrite lookup_delete_ne.
  - intros ci Hci (H1 & H2 & H3)%Hstage.
    destruct (Hchunks ci Hci) as [_ Hname].
    assert (PyStr.path_join (storage_dir_of env req) (FsApi.chunk_uuid ci)
            ≠ merged_path_of env req) as Hne.
    { intros Heq. by apply path_join_inj in Heq. }
    destruct (Hread ci Hci Hne) as (data & Hbefore).
    exists data. split; [done|].
    rewrite Hdisk; [|done..| |].
    + by rewrite lookup_delete_ne.
    + apply path_join_ne_dir.
    + apply path_join_not_above.
Qed.

Lemma merged_file_removed_on_success_witness :
  normalised (FsApi.FS_MEDIA_ROOT upload_env) ∧
  proper_name (FsApi.time_str upload_env) ∧
  proper_name (FsApi.file_md5 upload_request) ∧
  proper_name (FsApi.file_name upload_request) ∧
  Forall (λ ci, proper_name (FsApi.chunk_uuid ci) ∧
                FsApi.chunk_uuid ci ≠ FsApi.file_name upload_request)
    (FsApi.chunks upload_request) ∧
  ∃ resp st',
    FsApi.merge_chunks posix_lib upload_env upload_request upload_state
      = Returns resp st' ∧
    FsApi.data resp = Some (1, "code-1"%string, false) ∧
    (merged_path_of upload_env upload_request
       ∉ stage_paths upload_env (storage_dir_of upload_env upload_request) →
     FsApi.disk st' !! merged_path_of upload_env upload_request = None) ∧
    (∀ q, q ≠ merged_path_of upload_env upload_request →
          q ∉ stage_paths upload_env (storage_dir_of upload_env upload_request) →
          q ≠ storage_dir_of upload_env upload_request →
          q ∉ Fs.ancestors (storage_dir_of upload_env upload_request) →
          FsApi.disk st' !! q = FsApi.disk upload_state !! q) ∧
    (∀ ci, ci ∈ FsApi.chunks upload_request →
       PyStr.path_join (storage_dir_of upload_env upload_request)
         (FsApi.chunk_uuid ci)
         ∉ stage_paths upload_env (storage_dir_of upload_env upload_request) →
       ∃ data,
         FsApi.disk upload_state
           !! PyStr.path_join (storage_dir_of upload_env upload_request)
                (FsApi.chunk_uuid ci)
         = Some (Fs.File data) ∧
         FsApi.disk st'
           !! PyStr.path_join (storage_dir_of upload_env upload_request)
                (FsApi.chunk_uuid ci)
         = Some (Fs.File data)).
Proof.
  assert (normalised (FsApi.FS_MEDIA_ROOT upload_env)) as H1
    by (repeat constructor; by vm_compute).
  assert (proper_name (FsApi.time_str upload_env)) as H2
    by (repeat split; by vm_compute).
  assert (proper_name (FsApi.file_md5 upload_request)) as H3
    by (repeat split; by vm_compute).
  assert (proper_name (FsApi.file_name upload_request)) as H4
    by (repeat split; by vm_compute).
  assert (Forall (λ ci, proper_name (FsApi.chunk_uuid ci) ∧
                        FsApi.chunk_uuid ci ≠ FsApi.file_name upload_request)
            (FsApi.chunks upload_request)) as H5
    by (repeat constructor; by vm_compute).
  split; [exact H1|]. split; [exact H2|]. split; [exact H3|]. split; [exact H4|].
  split; [exact H5|].
  destruct (FsApi.merge_chunks posix_lib upload_env upload_request upload_state)
    as [resp st'| |] eqn:Hrun; [|vm_compute in Hrun; discriminate Hrun..].
  exists resp, st'. split; [reflexivity|].
  assert (FsApi.data resp = Some (1, "code-1"%string, false)) as Hdata.
  { vm_compute in Hrun. by injection Hrun as <- _. }
  split; [exact Hdata|].
  exact (merged_file_removed_on_success posix_lib upload_env upload_request
           upload_state st' resp 1 "code-1" H1 H2 H3 H4 H5 Hrun Hdata).
Defined.

(** C10 as stated fails in its last clause: after the successful merge of
    an upload in one chunk, the chunk file holds the complete payload, so
    the payload is on disk as a single file. *)
Lemma single_chunk_upload_keeps_whole_file :
  declared_payload upload_env single_request (FsApi.disk single_state)
  = String.list_byte_of_string "AAA" ∧
  md5_hexdigest posix_lib (String.list_byte_of_string "AAA")
  = FsApi.file_md5 single_request ∧
  match FsApi.merge_chunks posix_lib upload_env single_request single_state with
  | Returns resp st' =>
      FsApi.success resp = true ∧ FsApi.msg resp = FsApi.UploadDone ∧
      FsApi.disk st' !! merged_path_of upload_env single_request = None ∧
      FsApi.disk st' !! (single_dir +:+ "/c0")%string
      = Some (Fs.File (String.list_byte_of_string "AAA"))
  | _ => False
  end.
Proof. vm_compute. done. Qed.

(** ** [merge_chunks]: the rejected and the deduplicated upload *)

Section MergeFacts.
Import PyStr Fs FsApi.


Lemma save_has_record d r m i c :
  id r = i → md5 r = m → code r = c →
  has_record d m i c → has_record (save d r) m i c.
Proof.
  intros Hi Hm Hc (r0 & Hfind & Hi0 & Hc0).
  unfold has_record, filter_md5_first, save in *. cbn [rows].
  induction (rows d) as [|r' l IH]; [done|].
  cbn [fmap list_fmap List.find] in *.
  destruct (Z.eqb_spec (id r') (id r)) as [Heq | Hne].
  - rewrite Hm, String.eqb_refl. eauto.
  - destruct (String.eqb (md5 r') m); [eauto|]. by apply IH.
Qed.

Lemma store_thumbnail_keeps env storage_dir fi thumbnail_data st :
  keeps_record st fi (store_thumbnail env storage_dir fi thumbnail_data st).
Proof.
  unfold store_thumbnail.
  destruct (Cipher.encrypt_data _ _); [|exact I..].
  destruct (write_bytes _ _ _); [|exact I..].
  cbn. split; [done|]. intros H. by apply save_has_record.
Qed.

Lemma keeps_record_refl st fi : keeps_record st fi (Returns fi st).
Proof. by cbn. Qed.

Lemma store_thumbnail_raises env storage_dir fi thumbnail_data st e st' :
  store_thumbnail env storage_dir fi thumbnail_data st = Raises e st' → st' = st.
Proof.
  unfold store_thumbnail.
  destruct (Cipher.encrypt_data _ _); [|by intros [= _ <-]|done].
  destruct (write_bytes _ _ _); [done|by intros [= _ <-]|done].
Qed.

Lemma keeps_record_db st st0 fi (r : run state FileInfo) :
  db st0 = db st → keeps_record st0 fi r → keeps_record st fi r.
Proof. intros Hdb. destruct r; cbn; [|done..]. by rewrite Hdb. Qed.

Lemma generate_thumbnail_keeps L env fi storage_dir chunks st :
  keeps_record st fi (generate_thumbnail L env fi storage_dir chunks st).
Proof.
  unfold generate_thumbnail.
  destruct (thumbnail_kind L fi) as [is_image is_video].
  destruct (negb _); [by cbn|].
  destruct (write_bytes _ _ _) as [m| |]; [|by cbn|exact I].
  destruct (assemble_temp _ _ _ _) as [m1 [e|]]; [by cbn|].
  destruct (m1 !! _) as [[[|b assembled]|]|]; try by cbn.
  destruct (if is_image then _ else _) as [m2 thumbnail_data].
  destruct (if exists_ m2 _ then _ else _) as [m3| |]; [|by cbn|exact I].
  destruct thumbnail_data as [[|b' rest]|]; try by cbn.
  match goal with
  | |- context [store_thumbnail env storage_dir fi ?d ?s0] =>
      pose proof (store_thumbnail_keeps env storage_dir fi d s0) as Hst;
      destruct (store_thumbnail env storage_dir fi d s0)
        as [fi' st'|e st'|] eqn:Hrun
  end; [by apply (keeps_record_db _ _ _ _ eq_refl Hst)| |exact I].
  apply store_thumbnail_raises in Hrun as ->. by cbn.
Qed.

Lemma thumbnail_stage_keeps L env req fi storage_dir chunk_uuids st :
  keeps_record st fi (thumbnail_stage L env req fi storage_dir chunk_uuids st).
Proof.
  unfold thumbnail_stage.
  assert (keeps_record st fi
    (if generate_thumbnail_flag req && is_media L (mime fi) (type_ fi)
        && negb (bool_decide (chunk_uuids = []))
     then generate_thumbnail L env fi storage_dir chunk_uuids st
     else Returns fi st)) as Hbackend.
  { destruct (_ && _); [apply generate_thumbnail_keeps|by cbn]. }
  destruct (thumbnail_base64 req) as [t|]; [|exact Hbackend].
  destruct (negb _ && _); [|exact Hbackend].
  destruct (b64decode_str t) as [thumbnail_data| |];
    [|exact Hbackend|exact I].
  pose proof (store_thumbnail_keeps env storage_dir fi thumbnail_data st) as Hst.
  destruct (store_thumbnail _ _ _ _ _) as [fi' st'|e st'|] eqn:Hrun;
    [exact Hst| |exact I].
  apply store_thumbnail_raises in Hrun as ->. exact Hbackend.
Qed.

(** A run that answers with success has a row for the declared hash
    whose key and code are those of the answer. *)
Lemma merge_chunks_success_record L env req st resp st' :
  merge_chunks L env req st = Returns resp st' →
  success resp = true →
  ∃ i c b, data resp = Some (i, c, b) ∧
           has_record (db st') (file_md5 req) i c.
Proof.
  intros Hrun Hok. unfold merge_chunks in Hrun.
  destruct (_ || _); [by injection Hrun as <- <-|].
  destruct (filter_md5_first _ _) as [existing|] eqn:Hfind.
  { injection Hrun as <- <-. eexists _, _, _. split; [done|]. by exists existing. }
  destruct (mkdir _ _) as [m0| |]; [|by injection Hrun as <- <-|done].
  destruct (write_bytes m0 _ _) as [m1| |]; [|by injection Hrun as <- <-|done].
  destruct (merge_loop m1 _ _ _ _) as [m2 [chunk_uuids|u|e]];
    [|by injection Hrun as <- <-..].
  destruct (read_bytes m2 _) as [merged| |]; [|by injection Hrun as <- <-|done].
  destruct (negb _).
  { destruct (remove m2 _); [by injection Hrun as <- <-..|done]. }
  destruct (remove m2 _) as [m3| |]; [|by injection Hrun as <- <-|done].
  unfold register_file in Hrun. unfold objects_create in Hrun.
  destruct (existsb _ _); [by injection Hrun as <- <-|]. cbn [id] in Hrun.
  match type of Hrun with
  | context [thumbnail_stage L env req ?fi ?sd ?us ?s0] =>
      pose proof (thumbnail_stage_keeps L env req fi sd us s0) as Hkeep;
      destruct (thumbnail_stage L env req fi sd us s0) as [fi' st2|e st2|];
        [|by injection Hrun as <- <-|done]
  end.
  injection Hrun as <- <-. cbn in Hkeep. destruct Hkeep as ((Hi & Hm & Hc) & Hrec).
  eexists _, _, _. split; [done|]. cbn [db id code set_status].
  apply save_has_record; [done|by cbn|done|]. rewrite Hi, Hc. apply Hrec.
  eexists. unfold filter_md5_first. cbn. rewrite String.eqb_refl. done.
Qed.

(** The short circuit itself. *)
Lemma merge_chunks_existing L env req st existing :
  file_md5 req ≠ ""%string → file_name req ≠ ""%string → chunks req ≠ [] →
  filter_md5_first (db st) (file_md5 req) = Some existing →
  merge_chunks L env req st
  = Returns {| success := true; msg := FileExists;
               data := Some (id existing, code existing, true) |} st.
Proof.
  intros H1 H2 H3 Hfind. unfold merge_chunks.
  rewrite !bool_decide_eq_false_2 by done. cbn [orb]. by rewrite Hfind.
Qed.

End MergeFacts.

(** C7 (as amended). Dedup.  For a request that names a file, declares a
    hash and lists at least one chunk: if a row with the declared hash
    exists, [merge_chunks] answers success with [exists = true] and the
    key and code of that row, and leaves the table and the disk as they
    were; in particular, after any submission that was answered with
    success, a further submission declaring the same hash gets the
    record of the first and registers nothing. *)
Theorem dedup_returns_existing_record (L : pylib) (env : FsApi.call_env)
    (req : FsApi.merge_request) (st : FsApi.state) :
  FsApi.file_md5 req ≠ ""%string → FsApi.file_name req ≠ ""%string →
  FsApi.chunks req ≠ [] →
  (∀ existing,
     FsApi.filter_md5_first (FsApi.db st) (FsApi.file_md5 req) = Some existing →
     FsApi.merge_chunks L env req st
     = Returns {| FsApi.success := true; FsApi.msg := FsApi.FileExists;
                  FsApi.data := Some (FsApi.id existing, FsApi.code existing, true) |}
         st) ∧
  (∀ L0 env0 req0 st0 resp0,
     FsApi.merge_chunks L0 env0 req0 st0 = Returns resp0 st →
     FsApi.success resp0 = true →
     FsApi.file_md5 req0 = FsApi.file_md5 req →
     ∃ file_id file_code b,
       FsApi.data resp0 = Some (file_id, file_code, b) ∧
       FsApi.merge_chunks L env req st
       = Returns {| FsApi.success := true; FsApi.msg := FsApi.FileExists;
                    FsApi.data := Some (file_id, file_code, true) |} st).
Proof.
  intros H1 H2 H3. split.
  - intros existing Hfind. by apply merge_chunks_existing.
  - intros L0 env0 req0 st0 resp0 Hrun Hok Hmd5.
    destruct (merge_chunks_success_record L0 env0 req0 st0 resp0 st Hrun Hok)
      as (i & c & b & Hdata & r & Hfind & <- & <-).
    exists (FsApi.id r), (FsApi.code r), b. split; [done|].
    rewrite Hmd5 in Hfind. by apply merge_chunks_existing.
Qed.

Lemma dedup_returns_existing_record_witness :
  FsApi.file_md5 second_request ≠ ""%string ∧
  FsApi.file_name second_request ≠ ""%string ∧
  FsApi.chunks second_request ≠ [] ∧
  (∀ existing,
     FsApi.filter_md5_first (FsApi.db uploaded_state)
       (FsApi.file_md5 second_request) = Some existing →
     FsApi.merge_chunks posix_lib upload_env second_request uploaded_state
     = Returns {| FsApi.success := true; FsApi.msg := FsApi.FileExists;
                  FsApi.data := Some (FsApi.id existing, FsApi.code existing, true) |}
         uploaded_state) ∧
  FsApi.merge_chunks posix_lib upload_env second_request uploaded_state
  = Returns {| FsApi.success := true; FsApi.msg := FsApi.FileExists;
               FsApi.data := Some (1, "code-1"%string, true) |} uploaded_state.
Proof.
  destruct (dedup_returns_existing_record posix_lib upload_env second_request
              uploaded_state) as [Hexisting Hsecond]; [discriminate..|].
  split; [discriminate|]. split; [discriminate|]. split; [discriminate|].
  split; [exact Hexisting|].
  destruct (Hsecond posix_lib upload_env upload_request upload_state
              {| FsApi.success := true; FsApi.msg := FsApi.UploadDone;
                 FsApi.data := Some (1, "code-1"%string, false) |})
    as (i & c & b & Hdata & Hrun); [vm_compute; reflexivity|reflexivity..|].
  injection Hdata as <- <- <-. exact Hrun.
Defined.

(** C7 as stated fails: with a row for the declared hash in the table, a
    request without a file name (or without chunks) is answered with the
    failure "missing parameters", not with the existing record. *)
Lemma dedup_needs_complete_request :
  let req := {|
    FsApi.file_md5 := "6207b5df5796e963410d3bc4b6a4218b";
    FsApi.file_name := "";
    FsApi.file_size := 9;
    FsApi.chunks := [ {| FsApi.chunk_index := 0; FsApi.chunk_uuid := "d0" |} ];
    FsApi.category_ids := [];
    FsApi.tag_ids := [];
    FsApi.generate_thumbnail_flag := false;
    FsApi.thumbnail_base64 := None |} in
  (∃ existing,
     FsApi.filter_md5_first (FsApi.db uploaded_state) (FsApi.file_md5 req)
     = Some existing) ∧
  FsApi.merge_chunks posix_lib upload_env req uploaded_state
  = Returns (FsApi.failure FsApi.MissingParameters) uploaded_state.
Proof. split; [eexists; vm_compute; reflexivity|vm_compute; reflexivity]. Qed.



(** C8, the code at the failing input.  The declared file name is the
    name of the first declared chunk: opening the merged file empties
    that chunk, the loop then reads it back empty, and the rejection of
    the hash removes it.  After the answer "MD5 mismatch" the chunk file
    [c0] is gone, against the comment of the code that only the merged
    file is deleted and the chunks are kept. *)
Theorem hash_mismatch_destroys_colliding_chunk :
  FsApi.file_name (mismatch_request "c0") = "c0"%string ∧
  FsApi.chunk_uuid <$> FsApi.chunks (mismatch_request "c0")
  = ["c0"; "c1"]%string ∧
  FsApi.disk mismatch_state !! (mismatch_dir +:+ "/c0")%string
  = Some (Fs.File (String.list_byte_of_string "AAA")) ∧
  match FsApi.merge_chunks posix_lib mismatch_env (mismatch_request "c0")
          mismatch_state with
  | Returns resp st' =>
      resp = FsApi.failure FsApi.Md5Mismatch ∧
      FsApi.disk st' !! (mismatch_dir +:+ "/c0")%string = None ∧
      FsApi.disk st' !! (mismatch_dir +:+ "/c1")%string
      = Some (Fs.File (String.list_byte_of_string "BBB"))
  | _ => False
  end.
Proof. vm_compute. done. Qed.
(* ===================================================================== *)
(** * Part IV.  Further properties of the code                             *)
(* ===================================================================== *)

(** ** The key of the XOR layer *)

Section KeyFacts.
Import Cipher.

Lemma lookup_app_self {A} (l : list A) (i : nat) :
  (i < 2 * length l)%nat → (l ++ l) !! i = l !! (i mod length l)%nat.
Proof.
  intros Hi. destruct (Nat.lt_ge_cases i (length l)) as [Hlt | Hge].
  - rewrite lookup_app_l by done. by rewrite Nat.mod_small.
  - rewrite lookup_app_r by done. f_equal.
    assert (i = (i - length l) + 1 * length l)%nat as Heq by lia.
    rewrite Heq at 2. rewrite Nat.Div0.mod_add. rewrite Nat.mod_small; lia.
Qed.

Lemma mod_double (i n : nat) : ((i mod (n + n)) mod n = i mod n)%nat.
Proof.
  rewrite (Nat.div_mod_eq i (n + n)) at 2.
  replace ((n + n) * (i / (n + n)) + i mod (n + n))%nat
    with (i mod (n + n) + (2 * (i / (n + n))) * n)%nat by lia.
  by rewrite Nat.Div0.mod_add.
Qed.

(** Doubling repeats the key: position [i] of the stretched key is
    position [i mod len] of the key the loop started from. *)
Lemma stretch_key_cycle (fuel : nat) (key key' : bytes) :
  stretch_key fuel key = Ok key' →
  (length key ≤ length key')%nat ∧
  ∀ i, (i < length key')%nat → key' !! i = key !! (i mod length key)%nat.
Proof.
  revert key. induction fuel as [|fuel IH]; intros key; cbn [stretch_key]; [done|].
  destruct (Nat.ltb_spec (length key) 32) as [Hlt | Hge].
  - intros Hrun. destruct (IH _ Hrun) as [Hlen Hcyc].
    rewrite length_app in Hlen. split; [lia|].
    intros i Hi. rewrite (Hcyc i Hi), length_app.
    destruct key as [|b key]; [cbn in Hrun; by rewrite stretch_key_empty in Hrun|].
    rewrite lookup_app_self.
    + f_equal. apply mod_double.
    + pose proof (Nat.mod_upper_bound i (length (b :: key) + length (b :: key)));
      cbn [length] in *; lia.
  - intros [= <-]. split; [done|]. intros i Hi. by rewrite Nat.mod_small.
Qed.

End KeyFacts.

(** X1. The key of the XOR layer is the UTF-8 encoding of [SECRET_KEY]
    repeated from its start and cut after 32 bytes: byte [i] of the key is
    byte [i mod len] of the encoded secret.  A secret of 32 bytes or more
    therefore contributes its first 32 bytes only. *)
Theorem encryption_key_cycles_secret (SECRET_KEY : string) :
  SECRET_KEY ≠ ""%string →
  ∃ key,
    Cipher.get_encryption_key SECRET_KEY = Ok key ∧ length key = 32%nat ∧
    (∀ i, (i < 32)%nat →
       key !! i
       = str_encode SECRET_KEY !! (i mod length (str_encode SECRET_KEY))%nat) ∧
    ((32 ≤ length (str_encode SECRET_KEY))%nat →
       key = take 32 (str_encode SECRET_KEY)).
Proof.
  intros Hne.
  destruct (get_encryption_key_total SECRET_KEY Hne) as (key & Hkey & Hlen).
  exists key. split; [done|]. split; [done|].
  unfold Cipher.get_encryption_key in Hkey.
  destruct (Cipher.stretch_key Cipher.stretch_fuel (str_encode SECRET_KEY))
    as [stretched| |] eqn:Hst; [|done..].
  cbn in Hkey. injection Hkey as <-.
  destruct (stretch_key_cycle _ _ _ Hst) as [Hle Hcyc].
  rewrite length_take in Hlen.
  assert (∀ i, (i < 32)%nat →
            take 32 stretched !! i
            = str_encode SECRET_KEY !! (i mod length (str_encode SECRET_KEY))%nat)
    as Hkey.
  { intros i Hi. rewrite lookup_take_lt by done. apply Hcyc. lia. }
  split; [done|].
  intros Hlong. apply list_eq. intros i.
  destruct (Nat.lt_ge_cases i 32) as [Hi | Hi].
  - rewrite Hkey by done. rewrite lookup_take_lt by done.
    by rewrite Nat.mod_small by lia.
  - rewrite !lookup_take_ge by done. done.
Qed.

Lemma encryption_key_cycles_secret_witness :
  "s3cret"%string ≠ ""%string ∧
  ∃ key,
    Cipher.get_encryption_key "s3cret" = Ok key ∧ length key = 32%nat ∧
    (∀ i, (i < 32)%nat →
       key !! i
       = str_encode "s3cret" !! (i mod length (str_encode "s3cret"))%nat) ∧
    ((32 ≤ length (str_encode "s3cret"))%nat →
       key = take 32 (str_encode "s3cret")).
Proof.
  split; [discriminate|].
  apply (encryption_key_cycles_secret "s3cret"). discriminate.
Defined.

(** ** Chunk sets with holes, interrupted streams, the extension *)

Section ChunkSetFacts.
Import PyStr Fs Utils.



Lemma mkdir_is_dir (m m' : gmap string node) d :
  mkdir m d = Ok m' → m' !! d = Some Dir.
Proof. intros H. by apply mkdir_Ok in H as [? _]. Qed.




(** Chunks [0 .. length cs - 1] as files, nothing at index [length cs]:
    what lies behind the hole is not looked at. *)
Lemma assemble_up_to_hole L m base_dir file_id cs :
  (∀ j ch, cs !! j = Some ch →
     m !! part_path base_dir file_id j = Some (File ch)) →
  m !! part_path base_dir file_id (length cs) = None →
  assemble_chunks L m base_dir file_id None
  = match cs with
    | [] => Raise (ChunkError "no chunks")
    | _ => Ok (concat cs, resolve_extension L m base_dir file_id)
    end.
Proof.
  intros Hin Hout. unfold assemble_chunks. cbn [mbind result_bind bind].
  assert (first_missing m base_dir file_id (length cs)) as Hfm.
  { split.
    - intros i Hi. apply lookup_lt_is_Some_2 in Hi as [ch Hch].
      unfold exists_. by rewrite (Hin i ch Hch).
    - unfold exists_. by rewrite Hout. }
  destruct (find_chunks_spec m base_dir file_id (S (size m)) 0 [])
    as (n & Hfind & _ & Hn); [intros; lia|lia|].
  pose proof (first_missing_unique _ _ _ _ _ Hn Hfm) as ->.
  rewrite Hfind. cbn [app]. rewrite Nat.sub_0_r.
  cbn [mbind result_bind bind].
  destruct cs as [|ch cs]; [done|].
  rewrite sorted_part_paths.
  rewrite (read_all_parts m base_dir file_id (ch :: cs) [] 0) by apply Hin.
  done.
Qed.



End ChunkSetFacts.

(** X2. [assemble_chunks] reads the chunk files [.part0], [.part1], ...
    up to the first index that is missing and nothing behind it: with
    chunks [0 .. n-1] present and no chunk [n] it returns the
    concatenation of those [n] chunks, whatever files exist under higher
    indices, and with no chunk [0] it raises [ChunkError]. *)
Theorem assemble_stops_at_first_hole (L : pylib) (m : gmap string Fs.node)
    (base_dir file_id : string) (cs : list bytes) :
  (∀ j ch, cs !! j = Some ch →
     m !! Utils.part_path base_dir file_id j = Some (Fs.File ch)) →
  m !! Utils.part_path base_dir file_id (length cs) = None →
  Utils.assemble_chunks L m base_dir file_id None
  = match cs with
    | [] => Raise (ChunkError "no chunks")
    | _ => Ok (concat cs, Utils.resolve_extension L m base_dir file_id)
    end.
Proof. apply assemble_up_to_hole. Qed.

Lemma assemble_stops_at_first_hole_witness :
  (∀ j ch, [String.list_byte_of_string "hell"] !! j = Some ch →
     gapped_disk !! Utils.part_path "media" "abc" j = Some (Fs.File ch)) ∧
  gapped_disk !! Utils.part_path "media" "abc" 1 = None ∧
  gapped_disk !! Utils.part_path "media" "abc" 2
  = Some (Fs.File (String.list_byte_of_string "orld")) ∧
  Utils.assemble_chunks posix_lib gapped_disk "media" "abc" None
  = Ok (String.list_byte_of_string "hell",
        Utils.resolve_extension posix_lib gapped_disk "media" "abc").
Proof.
  assert (∀ j ch, [String.list_byte_of_string "hell"] !! j = Some ch →
            gapped_disk !! Utils.part_path "media" "abc" j = Some (Fs.File ch))
    as Hin.
  { intros [|[|j]] ch; [intros [= <-]; reflexivity|discriminate..]. }
  split; [exact Hin|]. split; [reflexivity|]. split; [reflexivity|].
  apply (assemble_stops_at_first_hole posix_lib gapped_disk "media" "abc"
           [String.list_byte_of_string "hell"] Hin).
  reflexivity.
Defined.





(** ** The page fetcher: sessions, request counts, exhausted retries *)

Section SessionFacts.
Import Konachan.

(** Attempts that all end in an exception answered with a retry use up
    the retries: the loop makes a request for every value of
    [retry_count] up to [MAX_RETRIES], sleeps the backoff delay between
    two of them and not after the last. *)
Lemma retry_loop_exhausted cfg page_num attempt n fuel j s :
  backoff_ok cfg →
  MAX_RETRIES cfg = Z.of_nat n → (j ≤ n)%nat → (n - j < fuel)%nat →
  (∀ k, (j ≤ k < n)%nat → ∃ e, attempt k = Raise e ∧ retried e) →
  ∃ s', retry_loop fuel cfg page_num attempt
          {| retry_count := j; page_success := false; fetch := s |}
        = Ok {| retry_count := n; page_success := false; fetch := s' |} ∧
    success_pages s' = success_pages s ∧
    failed_pages s' = failed_pages s ∧
    length (requests s') = (length (requests s) + (n - j))%nat ∧
    sleeps s' = sleeps s ++ backoffs cfg j (n - 1).
Proof.
  intros Hcfg Hmax. revert j s.
  induction fuel as [|fuel IH]; intros j s Hjn Hfuel Hatt; [lia|].
  cbn [retry_loop retry_count fetch]. rewrite Hmax.
  destruct (Z.ltb_spec (Z.of_nat j) (Z.of_nat n)) as [Hlt | Hge].
  - destruct (get_http_client_session s) as (_ & _ & _ & Hrq & Hsl & Hsu & Hfa).
    destruct (_get_http_client s) as [client s1]. cbn [snd] in *.
    destruct (Hatt j) as (e & -> & He); [lia|].
    assert (handle cfg e j (log_request page_num client s1)
            = retry_with_backoff cfg j (log_request page_num client s1)) as ->.
    { by destruct e as [?| | | | | | | | | | |[code|]| | |]. }
    unfold retry_with_backoff.
    destruct (Z.ltb_spec (Z.of_nat (S j)) (MAX_RETRIES cfg)) as [Hlt' | Hge'].
    + rewrite backoff_Ok by done. cbn [mbind result_bind bind].
      destruct (IH (S j) (slept (BASE_DELAY cfg * 2 ^ (Z.of_nat (S j) - 1))
                            (log_request page_num client s1)))
        as (s' & -> & Hsu' & Hfa' & Hrq' & Hsl'); [lia|lia| |].
      { intros k Hk. apply Hatt. lia. }
      exists s'. split; [done|]. cbn in Hsu', Hfa', Hrq', Hsl'.
      rewrite Hsu', Hfa', Hrq', Hsl', Hrq, Hsl, Hsu, Hfa, length_app.
      cbn [length]. repeat split; try lia.
      unfold backoffs. replace (n - 1 - j)%nat with (S (n - 1 - S j)) by lia.
      cbn [seq fmap list_fmap]. by rewrite <- app_assoc.
    + assert (n = S j) as -> by lia.
      destruct fuel as [|fuel]; [lia|]. cbn [retry_loop retry_count].
      rewrite Hmax. destruct (Z.ltb_spec (Z.of_nat (S j)) (Z.of_nat (S j))); [lia|].
      eexists. split; [done|].
      assert (backoffs cfg j (S j - 1) = []) as ->.
      { unfold backoffs. by replace (S j - 1 - j)%nat with 0%nat by lia. }
      cbn. rewrite Hsu, Hfa, Hrq, Hsl, length_app, app_nil_r.
      cbn. repeat split; lia.
  - assert (j = n) as -> by lia. exists s. split; [done|].
    assert (backoffs cfg n (n - 1) = []) as ->.
    { unfold backoffs. by replace (n - 1 - n)%nat with 0%nat by lia. }
    rewrite app_nil_r. repeat split; lia.
Qed.

(** One page that is saved at the first attempt. *)
Lemma fetch_page_saved cfg env end_page page_num s r :
  0 < MAX_RETRIES cfg →
  env page_num 0%nat = GetResponse r → saved_response r →
  ∃ s', fetch_page cfg env end_page page_num s = Ok s' ∧
    session_of s' = session_of s ∧ resets s' = resets s ∧
    success_pages s' = success_pages s + 1 ∧
    failed_pages s' = failed_pages s ∧
    requests s' = requests s ++ [(page_num, session_of s)] ∧
    sleeps s' = sleeps s ++ (if page_num <? end_page then [1] else []).
Proof.
  intros Hmax Henv (Hst & Hce & Hjs). unfold fetch_page, process_page, retry_fuel.
  cbn [retry_loop retry_count fetch].
  destruct (Z.ltb_spec (Z.of_nat 0) (MAX_RETRIES cfg)); [|lia].
  destruct (get_http_client_session s) as (Hc & Hse & Hre & Hrq & Hsl & Hsu & Hfa).
  destruct (_get_http_client s) as [client s1]. cbn [fst snd] in *. subst client.
  rewrite Henv. cbn [try_body]. rewrite Hst, Hce, Hjs. cbn -[sleep Z.ltb].
  match goal with
  | |- context [if page_num <? end_page then sleep 1 ?t else Ok ?t] =>
      destruct (page_pause page_num end_page t)
        as (t' & -> & Hse' & Hre' & Hrq' & Hsu' & Hfa' & Hsl')
  end.
  exists t'. split; [done|]. rewrite Hse', Hre', Hrq', Hsu', Hfa', Hsl'.
  change (session_of (count_success (log_request page_num (session_of s) s1)))
    with (session_of s1).
  cbn [count_success log_request resets success_pages failed_pages requests
       sleeps].
  by rewrite Hse, Hre, Hrq, Hsl, Hsu, Hfa.
Qed.

Lemma fetch_pages_saved cfg env end_page (n : nat) : ∀ (a : Z) s,
  0 < MAX_RETRIES cfg →
  a + Z.of_nat n ≤ end_page + 1 →
  (∀ p, a ≤ p < a + Z.of_nat n →
        ∃ r, env p 0%nat = GetResponse r ∧ saved_response r) →
  ∃ s', fetch_pages cfg env end_page (seqZ a (Z.of_nat n)) s = Ok s' ∧
    session_of s' = session_of s ∧ resets s' = resets s ∧
    success_pages s' = success_pages s + Z.of_nat n ∧
    failed_pages s' = failed_pages s ∧
    requests s' = requests s ++ ((λ p, (p, session_of s)) <$> seqZ a (Z.of_nat n)) ∧
    sleeps s'
    = sleeps s ++ replicate (Z.to_nat (Z.min (end_page - a) (Z.of_nat n))) 1.
Proof.
  induction n as [|n IH]; intros a s Hmax Hend Henv.
  - exists s.
    replace (Z.to_nat (Z.min (end_page - a) (Z.of_nat 0))) with 0%nat by lia.
    cbn. rewrite !app_nil_r. repeat split; lia.
  - rewrite Nat2Z.inj_succ, seqZ_cons by lia. cbn [fetch_pages].
    destruct (Henv a) as (r & Hr & Hsaved); [lia|].
    destruct (fetch_page_saved cfg env end_page a s r Hmax Hr Hsaved)
      as (s1 & -> & Hse1 & Hre1 & Hsu1 & Hfa1 & Hrq1 & Hsl1).
    cbn [mbind result_bind bind].
    replace (Z.pred (Z.succ (Z.of_nat n))) with (Z.of_nat n) by lia.
    destruct (IH (Z.succ a) s1 Hmax) as (s' & -> & Hse & Hre & Hsu & Hfa & Hrq & Hsl).
    { lia. }
    { intros p Hp. apply Henv. lia. }
    exists s'. split; [done|].
    rewrite Hse, Hre, Hsu, Hfa, Hrq, Hsl, Hse1, Hre1, Hsu1, Hfa1, Hrq1, Hsl1.
    cbn [fmap list_fmap]. rewrite <- !app_assoc. cbn [app].
    repeat split; try lia. f_equal.
    destruct (Z.ltb_spec a end_page) as [Hlt | Hge].
    + replace (Z.to_nat (Z.min (end_page - a) (Z.succ (Z.of_nat n))))
        with (S (Z.to_nat (Z.min (end_page - Z.succ a) (Z.of_nat n)))) by lia.
      done.
    + replace (Z.to_nat (Z.min (end_page - a) (Z.succ (Z.of_nat n))))
        with 0%nat by lia.
      replace (Z.to_nat (Z.min (end_page - Z.succ a) (Z.of_nat n)))
        with 0%nat by lia.
      done.
Qed.

End SessionFacts.

(** X5. [get_data] never renews its HTTP session.  With retry constants
    whose backoff delays [time.sleep] takes, whatever the network does, a
    run leaves the reset counter where it was, and every request it makes
    goes through one session: the one that was current when the run
    started, or the one created for its first request.  (The only call of
    [_reset_http_client] sits in the 403 branch of the handler, which the
    exceptions raised by the try body cannot reach.) *)
Theorem get_data_keeps_one_session (cfg : config)
    (env : Z → nat → Konachan.get_outcome) (start_page end_page limit : Z)
    (s : Konachan.fetch_state) :
  backoff_ok cfg →
  ∃ (st : Konachan.stats) (s' : Konachan.fetch_state) (log : list (Z * nat)),
    Konachan.get_data cfg env start_page end_page limit s = Ok (st, s') ∧
    Konachan.resets s' = Konachan.resets s ∧
    Konachan.requests s' = Konachan.requests s ++ log ∧
    Forall (λ q, q.2 = session_of s) log.
Proof.
  intros Hcfg. unfold Konachan.get_data.
  destruct (_ || _); [eexists _, s, []; by rewrite app_nil_r|].
  destruct (_ >? _); [eexists _, s, []; by rewrite app_nil_r|].
  match goal with
  | |- context [Konachan.fetch_pages cfg env end_page ?pages ?s0] =>
      destruct (fetch_pages_counts cfg env end_page pages s0 Hcfg)
        as (s' & Hrun & _);
      pose proof (fetch_pages_trace cfg env end_page pages s0 s' Hrun)
        as (_ & Hre & log & Hrq & Hall & _)
  end.
  rewrite Hrun. cbn [mbind result_bind bind].
  eexists _, s', log. split; [done|]. split; [exact Hre|]. split; [exact Hrq|].
  eapply Forall_impl; [exact Hall|]. by intros q [_ ->].
Qed.

Lemma get_data_keeps_one_session_witness :
  backoff_ok DEFAULT_CONFIG ∧
  ∃ (st : Konachan.stats) (s' : Konachan.fetch_state) (log : list (Z * nat)),
    Konachan.get_data DEFAULT_CONFIG forbidden_env 1 3 10 fresh_fetch_state
    = Ok (st, s') ∧
    Konachan.resets s' = Konachan.resets fresh_fetch_state ∧
    Konachan.requests s' = Konachan.requests fresh_fetch_state ++ log ∧
    Forall (λ q, q.2 = session_of fresh_fetch_state) log.
Proof.
  assert (backoff_ok DEFAULT_CONFIG) as Hcfg by (split; by vm_compute).
  split; [exact Hcfg|].
  exact (get_data_keeps_one_session DEFAULT_CONFIG forbidden_env 1 3 10
           fresh_fetch_state Hcfg).
Defined.

(** X6. [get_data] makes at most [MAX_RETRIES] requests per page: with
    retry constants whose backoff delays [time.sleep] takes, the requests
    of a run number at most [MAX_RETRIES * total], where [total] is the
    page count it reports. *)
Theorem get_data_request_bound (cfg : config)
    (env : Z → nat → Konachan.get_outcome) (start_page end_page limit : Z)
    (s : Konachan.fetch_state) :
  backoff_ok cfg →
  ∃ (st : Konachan.stats) (s' : Konachan.fetch_state),
    Konachan.get_data cfg env start_page end_page limit s = Ok (st, s') ∧
    Z.of_nat (length (Konachan.requests s'))
    ≤ Z.of_nat (length (Konachan.requests s))
      + Z.max (MAX_RETRIES cfg) 0 * Konachan.total st.
Proof.
  intros Hcfg. unfold Konachan.get_data.
  destruct (_ || _); [eexists _, s; split; [done|cbn; lia]|].
  destruct (Z.gtb_spec start_page end_page);
    [eexists _, s; split; [done|cbn; lia]|].
  match goal with
  | |- context [Konachan.fetch_pages cfg env end_page ?pages ?s0] =>
      destruct (fetch_pages_counts cfg env end_page pages s0 Hcfg)
        as (s' & Hrun & _);
      pose proof (fetch_pages_trace cfg env end_page pages s0 s' Hrun)
        as (_ & _ & log & Hrq & _ & Hlen & _)
  end.
  rewrite Hrun. cbn [mbind result_bind bind].
  eexists _, s'. split; [done|]. cbn [Konachan.total Konachan.requests] in *.
  rewrite Hrq, length_app, length_seqZ in *. lia.
Qed.

Lemma get_data_request_bound_witness :
  backoff_ok DEFAULT_CONFIG ∧
  ∃ (st : Konachan.stats) (s' : Konachan.fetch_state),
    Konachan.get_data DEFAULT_CONFIG dead_env 1 3 10 fresh_fetch_state
    = Ok (st, s') ∧
    Z.of_nat (length (Konachan.requests s'))
    ≤ Z.of_nat (length (Konachan.requests fresh_fetch_state))
      + Z.max (MAX_RETRIES DEFAULT_CONFIG) 0 * Konachan.total st.
Proof.
  assert (backoff_ok DEFAULT_CONFIG) as Hcfg by (split; by vm_compute).
  split; [exact Hcfg|].
  exact (get_data_request_bound DEFAULT_CONFIG dead_env 1 3 10
           fresh_fetch_state Hcfg).
Defined.

Section RetryOutcomes.
Import Konachan.

Lemma no_response_retried o :
  no_response o → ∃ e, try_body o = Raise e ∧ retried e.
Proof. destruct o; cbn; try done; eauto. Qed.

Lemma unusable_body_raises r :
  unusable_body r → try_body (GetResponse r) = Raise ValueError.
Proof.
  intros [Hst Hbody]. cbn. rewrite Hst. cbn.
  destruct (content_empty r); [done|].
  destruct Hbody as [? | [-> | [-> | ->]]]; done.
Qed.

End RetryOutcomes.

(** X7. A page that never gets a response uses up its retries.  With
    retry constants whose backoff delays [time.sleep] takes: when every
    attempt ends in a timeout, a connection error, another requests
    exception or an exception that is no ValueError, the page costs
    exactly [MAX_RETRIES] requests, the delay [BASE_DELAY * 2^(k-1)] is
    slept after failure [k] for [k = 1 .. MAX_RETRIES - 1] and none after
    the last failure, and the page is counted as failed once. *)
Theorem unanswered_page_uses_all_retries (cfg : config)
    (env : Z → nat → Konachan.get_outcome) (end_page page_num : Z)
    (s : Konachan.fetch_state) :
  backoff_ok cfg →
  0 < MAX_RETRIES cfg →
  (∀ k, Z.of_nat k < MAX_RETRIES cfg → no_response (env page_num k)) →
  ∃ s', Konachan.fetch_page cfg env end_page page_num s = Ok s' ∧
    Konachan.failed_pages s' = Konachan.failed_pages s + 1 ∧
    Konachan.success_pages s' = Konachan.success_pages s ∧
    Z.of_nat (length (Konachan.requests s'))
    = Z.of_nat (length (Konachan.requests s)) + MAX_RETRIES cfg ∧
    Konachan.sleeps s'
    = Konachan.sleeps s
      ++ backoffs cfg 0 (Z.to_nat (MAX_RETRIES cfg) - 1)
      ++ (if page_num <? end_page then [1] else []).
Proof.
  intros Hcfg Hmax Henv. unfold Konachan.fetch_page, Konachan.process_page.
  destruct (retry_loop_exhausted cfg page_num
              (λ k, Konachan.try_body (env page_num k))
              (Z.to_nat (MAX_RETRIES cfg)) (Konachan.retry_fuel cfg) 0 s)
    as (s' & -> & Hsu & Hfa & Hrq & Hsl).
  - done.
  - lia.
  - lia.
  - unfold Konachan.retry_fuel. lia.
  - intros k Hk. apply no_response_retried, Henv. lia.
  - cbn [mbind result_bind bind Konachan.page_success Konachan.retry_count
         Konachan.fetch negb andb].
    destruct (Z.geb_spec (Z.of_nat (Z.to_nat (MAX_RETRIES cfg)))
                (MAX_RETRIES cfg)); [|lia].
    destruct (page_pause page_num end_page (Konachan.count_failed s'))
      as (t' & -> & _ & _ & Hrq' & Hsu' & Hfa' & Hsl').
    exists t'. split; [done|]. rewrite Hrq', Hsu', Hfa', Hsl'. cbn.
    rewrite Hsu, Hfa, Hrq, Hsl, <- app_assoc. repeat split; lia.
Qed.

Lemma unanswered_page_uses_all_retries_witness :
  backoff_ok DEFAULT_CONFIG ∧
  0 < MAX_RETRIES DEFAULT_CONFIG ∧
  (∀ k, Z.of_nat k < MAX_RETRIES DEFAULT_CONFIG → no_response (dead_env 1 k)) ∧
  backoffs DEFAULT_CONFIG 0 (Z.to_nat (MAX_RETRIES DEFAULT_CONFIG) - 1)
    = [5; 10; 20; 40] ∧
  ∃ s', Konachan.fetch_page DEFAULT_CONFIG dead_env 1 1 fresh_fetch_state
        = Ok s' ∧
    Konachan.failed_pages s' = Konachan.failed_pages fresh_fetch_state + 1 ∧
    Konachan.success_pages s' = Konachan.success_pages fresh_fetch_state ∧
    Z.of_nat (length (Konachan.requests s'))
    = Z.of_nat (length (Konachan.requests fresh_fetch_state))
      + MAX_RETRIES DEFAULT_CONFIG ∧
    Konachan.sleeps s'
    = Konachan.sleeps fresh_fetch_state
      ++ backoffs DEFAULT_CONFIG 0 (Z.to_nat (MAX_RETRIES DEFAULT_CONFIG) - 1)
      ++ (if 1 <? 1 then [1] else []).
Proof.
  assert (backoff_ok DEFAULT_CONFIG) as Hcfg by (split; by vm_compute).
  split; [exact Hcfg|].
  split; [reflexivity|]. split; [intros k _; exact I|].
  split; [reflexivity|].
  apply (unanswered_page_uses_all_retries DEFAULT_CONFIG dead_env 1 1
           fresh_fetch_state Hcfg); [reflexivity|intros k _; exact I].
Defined.

(** X8. A response with status 200 that cannot be used is not retried.
    When the body is empty, is not JSON, is the document [null], or holds
    data that [save_data] rejects with a [ValueError], the page is counted
    as failed after that one request, without a backoff sleep. *)
Theorem unusable_body_is_not_retried (cfg : config)
    (env : Z → nat → Konachan.get_outcome) (end_page page_num : Z)
    (s : Konachan.fetch_state) (r : Konachan.response) :
  0 < MAX_RETRIES cfg →
  env page_num 0%nat = Konachan.GetResponse r →
  unusable_body r →
  ∃ s', Konachan.fetch_page cfg env end_page page_num s = Ok s' ∧
    Konachan.failed_pages s' = Konachan.failed_pages s + 1 ∧
    Konachan.success_pages s' = Konachan.success_pages s ∧
    Konachan.requests s'
    = Konachan.requests s ++ [(page_num, session_of s)] ∧
    Konachan.sleeps s'
    = Konachan.sleeps s ++ (if page_num <? end_page then [1] else []).
Proof.
  intros Hmax Henv Hbody.
  unfold Konachan.fetch_page, Konachan.process_page, Konachan.retry_fuel.
  cbn [Konachan.retry_loop Konachan.retry_count Konachan.fetch].
  destruct (Z.ltb_spec (Z.of_nat 0) (MAX_RETRIES cfg)); [|lia].
  destruct (get_http_client_session s) as (Hc & _ & _ & Hrq & Hsl & Hsu & Hfa).
  destruct (Konachan._get_http_client s) as [client s1].
  cbn [fst snd] in *. subst client.
  rewrite Henv, (unusable_body_raises r Hbody).
  cbn [Konachan.handle mbind result_bind bind Konachan.page_success
       Konachan.retry_count Konachan.fetch negb andb].
  destruct (Z.geb_spec (Z.of_nat 0) (MAX_RETRIES cfg)); [lia|].
  match goal with
  | |- context [if page_num <? end_page then Konachan.sleep 1 ?t else Ok ?t] =>
      destruct (page_pause page_num end_page t)
        as (t' & -> & _ & _ & Hrq' & Hsu' & Hfa' & Hsl')
  end.
  exists t'. split; [done|]. rewrite Hrq', Hsu', Hfa', Hsl'. cbn.
  by rewrite Hrq, Hsl, Hsu, Hfa.
Qed.

Lemma unusable_body_is_not_retried_witness :
  0 < MAX_RETRIES DEFAULT_CONFIG ∧
  unusable_body
    {| Konachan.status_code := 200; Konachan.content_empty := false;
       Konachan.json := Konachan.JsonInvalid |} ∧
  ∃ s', Konachan.fetch_page DEFAULT_CONFIG html_env 2 1 fresh_fetch_state
        = Ok s' ∧
    Konachan.failed_pages s' = Konachan.failed_pages fresh_fetch_state + 1 ∧
    Konachan.success_pages s' = Konachan.success_pages fresh_fetch_state ∧
    Konachan.requests s'
    = Konachan.requests fresh_fetch_state
      ++ [(1, session_of fresh_fetch_state)] ∧
    Konachan.sleeps s'
    = Konachan.sleeps fresh_fetch_state ++ (if 1 <? 2 then [1] else []).
Proof.
  assert (unusable_body
            {| Konachan.status_code := 200; Konachan.content_empty := false;
               Konachan.json := Konachan.JsonInvalid |}) as Hbody.
  { split; [reflexivity|]. right. left. reflexivity. }
  split; [reflexivity|]. split; [exact Hbody|].
  apply (unusable_body_is_not_retried DEFAULT_CONFIG html_env 2 1
           fresh_fetch_state _ eq_refl eq_refl Hbody).
Defined.

(** X9. The run without failures.  When the first response of every page
    of a valid range is saved, [get_data] reports every page as a
    success, makes exactly one request per page, in page order and all
    through one session, and sleeps one second between two pages and not
    after the last. *)
Theorem get_data_all_pages_saved (cfg : config)
    (env : Z → nat → Konachan.get_outcome) (start_page end_page limit : Z)
    (s : Konachan.fetch_state) :
  0 < MAX_RETRIES cfg →
  1 ≤ start_page ≤ end_page → 1 ≤ limit →
  (∀ p, start_page ≤ p ≤ end_page →
        ∃ r, env p 0%nat = Konachan.GetResponse r ∧ saved_response r) →
  ∃ s',
    Konachan.get_data cfg env start_page end_page limit s
    = Ok ({| Konachan.success := end_page - start_page + 1;
             Konachan.failed := 0;
             Konachan.total := end_page - start_page + 1 |}, s') ∧
    Konachan.requests s'
    = Konachan.requests s
      ++ ((λ p, (p, session_of s))
            <$> seqZ start_page (end_page - start_page + 1)) ∧
    Konachan.sleeps s'
    = Konachan.sleeps s ++ replicate (Z.to_nat (end_page - start_page)) 1 ∧
    Konachan.resets s' = Konachan.resets s.
Proof.
  intros Hmax Hrange Hlimit Henv. unfold Konachan.get_data.
  destruct (Z.ltb_spec start_page 1); [lia|].
  destruct (Z.ltb_spec end_page 1); [lia|].
  destruct (Z.ltb_spec limit 1); [lia|].
  destruct (Z.gtb_spec start_page end_page); [lia|]. cbn [orb].
  set (s0 := {| Konachan.http_client := Konachan.http_client s;
                Konachan.clients_created := Konachan.clients_created s;
                Konachan.resets := Konachan.resets s;
                Konachan.sleeps := Konachan.sleeps s;
                Konachan.requests := Konachan.requests s;
                Konachan.success_pages := 0; Konachan.failed_pages := 0 |}).
  destruct (fetch_pages_saved cfg env end_page
              (Z.to_nat (end_page + 1 - start_page)) start_page s0 Hmax)
    as (s' & Hrun & Hse & Hre & Hsu & Hfa & Hrq & Hsl).
  { lia. }
  { intros p Hp. apply Henv. lia. }
  rewrite Z2Nat.id in Hrun, Hsu, Hrq, Hsl by lia.
  rewrite Hrun. cbn [mbind result_bind bind].
  exists s'. rewrite Hsu, Hfa, Hrq, Hsl, Hre. cbn.
  replace (end_page + 1 - start_page) with (end_page - start_page + 1) by lia.
  replace (Z.min (end_page - start_page) (end_page - start_page + 1))
    with (end_page - start_page) by lia.
  split; [do 2 f_equal; f_equal; lia|]. done.
Qed.

Lemma get_data_all_pages_saved_witness :
  0 < MAX_RETRIES DEFAULT_CONFIG ∧
  ∃ s',
    Konachan.get_data DEFAULT_CONFIG good_env 3 5 10 fresh_fetch_state
    = Ok ({| Konachan.success := 5 - 3 + 1; Konachan.failed := 0;
             Konachan.total := 5 - 3 + 1 |}, s') ∧
    Konachan.requests s'
    = Konachan.requests fresh_fetch_state
      ++ ((λ p, (p, session_of fresh_fetch_state)) <$> seqZ 3 (5 - 3 + 1)) ∧
    Konachan.sleeps s'
    = Konachan.sleeps fresh_fetch_state ++ replicate (Z.to_nat (5 - 3)) 1 ∧
    Konachan.resets s' = Konachan.resets fresh_fetch_state.
Proof.
  split; [reflexivity|].
  apply (get_data_all_pages_saved DEFAULT_CONFIG good_env 3 5 10
           fresh_fetch_state); [reflexivity|lia|lia|].
  intros p _. eexists. split; [reflexivity|]. by repeat split.
Defined.

(** ** [download_file] *)

Section DownloadFileFacts.
Import PyStr Fs Utils UtilsFiles.

Lemma write_stream_spec (m : gmap string node) p blocks acc :
  m !! p = Some (File acc) →
  write_stream m p blocks = <[p := File (acc ++ concat blocks)]> m.
Proof.
  revert m acc. induction blocks as [|chunk blocks IH]; intros m acc Hp.
  - cbn. rewrite app_nil_r. by rewrite insert_id.
  - cbn [write_stream concat]. destruct chunk as [|b chunk].
    + by apply IH.
    + unfold FsApi.append_bytes. rewrite Hp.
      rewrite (IH _ (acc ++ b :: chunk)) by apply lookup_insert_eq.
      by rewrite insert_insert_eq, <- app_assoc.
Qed.

(** The directory [write_bytes] looks for is the one [download_file]
    makes. *)
Lemma parent_path_parent p d : parent p = Some d → path_parent p = d.
Proof.
  unfold parent, path_parent.
  destruct (rsplit_at "/" p) as [[[|c b] a]|]; [done| |done]. by intros [= <-].
Qed.

Lemma write_bytes_opens (m : gmap string node) p :
  m !! path_parent p = Some Dir → m !! p ≠ Some Dir →
  write_bytes m p [] = Ok (<[p := File []]> m).
Proof.
  intros Hd Hp. unfold write_bytes.
  destruct (parent p) as [d|] eqn:Hparent.
  - apply parent_path_parent in Hparent as <-. unfold isdir. rewrite Hd.
    by destruct (m !! p) as [[?|]|].
  - by destruct (m !! p) as [[?|]|].
Qed.

(** The directories above the parent of a path have shorter names than
    the path. *)
Lemma path_parent_ancestors p a :
  a ∈ ancestors (path_parent p) → (String.length a < String.length p)%nat.
Proof.
  destruct (parent p) as [d|] eqn:Hparent.
  - rewrite (parent_path_parent _ _ Hparent). intros Ha%ancestors_shorter.
    apply parent_shorter in Hparent. lia.
  - unfold parent in Hparent. unfold path_parent.
    destruct (rsplit_at "/" p) as [[[|c b] a']|]; [|done|];
      intros Ha; by apply elem_of_nil in Ha.
Qed.

Lemma mkdir_opens (m : gmap string node) save_path :
  creatable m (path_parent save_path) →
  m !! save_path ≠ Some Dir → save_path ≠ path_parent save_path →
  ∃ m', mkdir m (path_parent save_path) = Ok m' ∧
        write_bytes m' save_path [] = Ok (<[save_path := File []]> m') ∧
        ∀ q, q ≠ path_parent save_path →
             q ∉ ancestors (path_parent save_path) → m' !! q = m !! q.
Proof.
  intros Hparent Hfile Hne.
  destruct (mkdir_total _ _ Hparent) as (m' & Hmk). exists m'.
  assert (∀ q, q ≠ path_parent save_path →
               q ∉ ancestors (path_parent save_path) → m' !! q = m !! q)
    as Hframe by (intros q; apply (mkdir_frame _ _ _ _ Hmk)).
  split; [done|]. split; [|done]. apply write_bytes_opens.
  - by apply (mkdir_Ok _ _ _ Hmk).
  - rewrite Hframe; [done..|]. intros Hin%path_parent_ancestors. lia.
Qed.

(** The file [download_file] leaves once the response is accepted and
    the file could be opened: the blocks that arrived, with or without
    the end of the stream. *)
Lemma download_file_written server url save_path stream w r :
  server url = HttpResponse r → status_ok r = true →
  (stream = false → body_fails r = false) →
  creatable (files w) (path_parent save_path) →
  files w !! save_path ≠ Some Dir →
  save_path ≠ path_parent save_path →
  ∃ w',
    download_file server url save_path stream w
    = Returns (if body_fails r
               then (false, Some (DownloadFailed RequestException))
               else (true, None)) w' ∧
    files w' !! save_path = Some (File (concat (body r))) ∧
    requests w' = requests w ++ [url] ∧
    ∀ q, q ≠ save_path → q ≠ path_parent save_path →
         q ∉ ancestors (path_parent save_path) →
         files w' !! q = files w !! q.
Proof.
  intros Hsrv Hok Hstream Hparent Hfile Hne. unfold download_file.
  cbn [files requests]. rewrite Hsrv, Hok. cbn [negb].
  assert (negb stream && body_fails r = false) as ->.
  { destruct stream; [done|]. by rewrite Hstream. }
  destruct (mkdir_opens (files w) save_path Hparent Hfile Hne)
    as (m1 & -> & -> & Hframe).
  set (m2 := <[save_path := File []]> m1).
  assert (m2 !! save_path = Some (File [])) as Hopen by apply lookup_insert_eq.
  assert (∀ data q, q ≠ save_path → q ≠ path_parent save_path →
            q ∉ ancestors (path_parent save_path) →
            <[save_path := File data]> m2 !! q = files w !! q) as Hrest.
  { intros data q Hq1 Hq2 Hq3. unfold m2.
    rewrite !lookup_insert_ne by done. by apply Hframe. }
  destruct stream.
  - rewrite (write_stream_spec m2 save_path (body r) [] Hopen). cbn [app].
    destruct (body_fails r); eexists; (split; [done|]); cbn [files requests];
      (split; [apply lookup_insert_eq|]); (split; [done|]); apply Hrest.
  - rewrite Hstream by done. unfold FsApi.append_bytes. rewrite Hopen.
    cbn [app]. eexists. split; [done|]. cbn [files requests].
    split; [apply lookup_insert_eq|]. split; [done|]. apply Hrest.
Qed.

(** A regular file above the target: the directory cannot be made, and
    the call reports that the file could not be saved without writing
    anything. *)
Lemma download_file_blocked server url save_path stream w r below a data up :
  server url = HttpResponse r → status_ok r = true →
  (stream = false → body_fails r = false) →
  path_parent save_path :: ancestors (path_parent save_path)
    = below ++ a :: up →
  Forall (λ d, files w !! d = None) below →
  files w !! a = Some (File data) →
  download_file server url save_path stream w
  = Returns (false, Some (SaveFailed OSError))
      {| files := files w; requests := requests w ++ [url] |}.
Proof.
  intros Hsrv Hok Hstream Hchain Hbelow Ha. unfold download_file.
  cbn [files requests]. rewrite Hsrv, Hok. cbn [negb].
  assert (negb stream && body_fails r = false) as ->.
  { destruct stream; [done|]. by rewrite Hstream. }
  unfold mkdir. rewrite Hchain.
  by rewrite (make_dirs_blocked _ _ _ _ _ Hbelow Ha).
Qed.

End DownloadFileFacts.

(** X10. [download_file] stores exactly the payload.  Let [save_path] be
    a normalised path that is no directory, with no regular file at its
    parent directory or above it.  When the server answers with a
    success status and the stream is complete, the call returns
    [(True, None)] and the file at [save_path] holds the bytes of the
    body, nothing more and nothing less, replacing whatever the path
    held; apart from that file, its parent directory and the directories
    above the parent, which the call creates where they are missing, the
    disk is unchanged, and one request was made.  This holds with and
    without [stream]. *)
Theorem download_file_stores_payload
    (server : string → Utils.http_outcome) (url save_path : string)
    (stream : bool) (w : Utils.world) (r : Utils.response) :
  server url = Utils.HttpResponse r →
  Utils.status_ok r = true → Utils.body_fails r = false →
  normalised save_path →
  creatable (Utils.files w) (UtilsFiles.path_parent save_path) →
  Utils.files w !! save_path ≠ Some Fs.Dir →
  save_path ≠ UtilsFiles.path_parent save_path →
  ∃ w',
    UtilsFiles.download_file server url save_path stream w
    = Returns (true, None) w' ∧
    Utils.files w' !! save_path = Some (Fs.File (concat (Utils.body r))) ∧
    Utils.requests w' = Utils.requests w ++ [url] ∧
    (∀ q, q ∈ UtilsFiles.path_parent save_path
              :: Fs.ancestors (UtilsFiles.path_parent save_path) →
          Utils.files w' !! q = Utils.files w !! q ∨
          (Utils.files w !! q = None ∧ Utils.files w' !! q = Some Fs.Dir)) ∧
    ∀ q, q ≠ save_path → q ≠ UtilsFiles.path_parent save_path →
         q ∉ Fs.ancestors (UtilsFiles.path_parent save_path) →
         Utils.files w' !! q = Utils.files w !! q.
Proof.
  intros Hsrv Hok Hbody _ Hparent Hfile Hne.
  destruct (download_file_written server url save_path stream w r)
    as (w' & Hrun & Hsaved & Hreq & Hrest); [done..|].
  rewrite Hbody in Hrun. exists w'. split; [done|]. split; [done|].
  split; [done|]. split; [|done]. intros q Hq.
  assert (q ≠ save_path) as Hqs.
  { intros ->. apply elem_of_cons in Hq as [? | Hq]; [done|].
    apply path_parent_ancestors in Hq. lia. }
  revert Hrun. unfold UtilsFiles.download_file. cbn [Utils.files Utils.requests].
  rewrite Hsrv, Hok, Hbody, andb_false_r. cbn [negb].
  destruct (mkdir_opens (Utils.files w) save_path Hparent Hfile Hne)
    as (m1 & Hmk & Hopened & _).
  rewrite Hmk, Hopened. destruct (mkdir_Ok _ _ _ Hmk) as [_ Hall].
  assert (∀ m2, m2 !! save_path = Some (Fs.File []) →
            UtilsFiles.write_stream m2 save_path (Utils.body r) !! q = m2 !! q)
    as Hstream.
  { intros m2 Hopen. rewrite (write_stream_spec m2 save_path _ [] Hopen).
    by rewrite lookup_insert_ne. }
  destruct stream; intros [= <-]; cbn [Utils.files].
  - rewrite Hstream by apply lookup_insert_eq.
    rewrite lookup_insert_ne by done.
    destruct (Hall q) as [? | (_ & ? & ?)]; [by left|by right].
  - unfold FsApi.append_bytes. rewrite lookup_insert_eq.
    rewrite !lookup_insert_ne by done.
    destruct (Hall q) as [? | (_ & ? & ?)]; [by left|by right].
Qed.

Lemma download_file_stores_payload_witness :
  normalised "media/a.png" ∧
  creatable (Utils.files empty_world) (UtilsFiles.path_parent "media/a.png") ∧
  ∃ w',
    UtilsFiles.download_file (λ _, Utils.HttpResponse hello_response)
      "http://host/a.png" "media/a.png" true empty_world
    = Returns (true, None) w' ∧
    Utils.files w' !! "media/a.png"%string
    = Some (Fs.File (concat (Utils.body hello_response))) ∧
    Utils.requests w' = Utils.requests empty_world ++ ["http://host/a.png"%string] ∧
    (∀ q, q ∈ UtilsFiles.path_parent "media/a.png"
              :: Fs.ancestors (UtilsFiles.path_parent "media/a.png") →
          Utils.files w' !! q = Utils.files empty_world !! q ∨
          (Utils.files empty_world !! q = None ∧
           Utils.files w' !! q = Some Fs.Dir)) ∧
    ∀ q, q ≠ "media/a.png"%string →
         q ≠ UtilsFiles.path_parent "media/a.png" →
         q ∉ Fs.ancestors (UtilsFiles.path_parent "media/a.png") →
         Utils.files w' !! q = Utils.files empty_world !! q.
Proof.
  assert (normalised "media/a.png") as Hpath
    by (repeat constructor; by vm_compute).
  assert (creatable (Utils.files empty_world)
            (UtilsFiles.path_parent "media/a.png")) as Hparent
    by (repeat constructor; intros data; by vm_compute).
  split; [exact Hpath|]. split; [exact Hparent|].
  apply (download_file_stores_payload (λ _, Utils.HttpResponse hello_response)
           "http://host/a.png" "media/a.png" true empty_world hello_response);
    first [reflexivity | assumption | discriminate].
Defined.

(** X11. A streamed download that breaks leaves a partial file.  For a
    normalised [save_path] that is no directory, with no regular file at
    its parent directory or above it: when the transfer fails after the response was accepted,
    [download_file] returns [(False, message)] and does not remove what
    it wrote: the file at [save_path] holds the bytes that arrived
    before the failure, and what the path held before the call is
    gone. *)
Theorem download_file_keeps_partial_file
    (server : string → Utils.http_outcome) (url save_path : string)
    (w : Utils.world) (r : Utils.response) :
  server url = Utils.HttpResponse r →
  Utils.status_ok r = true → Utils.body_fails r = true →
  normalised save_path →
  creatable (Utils.files w) (UtilsFiles.path_parent save_path) →
  Utils.files w !! save_path ≠ Some Fs.Dir →
  save_path ≠ UtilsFiles.path_parent save_path →
  ∃ w',
    UtilsFiles.download_file server url save_path true w
    = Returns (false, Some (UtilsFiles.DownloadFailed RequestException)) w' ∧
    Utils.files w' !! save_path = Some (Fs.File (concat (Utils.body r))).
Proof.
  intros Hsrv Hok Hbody _ Hparent Hfile Hne.
  destruct (download_file_written server url save_path true w r)
    as (w' & Hrun & Hsaved & _); [done..|].
  rewrite Hbody in Hrun. by exists w'.
Qed.

Lemma download_file_keeps_partial_file_witness :
  normalised "media/a.png" ∧
  creatable {[ "media/a.png"%string
                 := Fs.File (String.list_byte_of_string "older content") ]}
    (UtilsFiles.path_parent "media/a.png") ∧
  ∃ w',
    UtilsFiles.download_file (λ _, Utils.HttpResponse broken_response)
      "http://host/a.png" "media/a.png" true
      {| Utils.files :=
           {[ "media/a.png"%string
                := Fs.File (String.list_byte_of_string "older content") ]};
         Utils.requests := [] |}
    = Returns (false, Some (UtilsFiles.DownloadFailed RequestException)) w' ∧
    Utils.files w' !! "media/a.png"%string
    = Some (Fs.File (concat (Utils.body broken_response))).
Proof.
  assert (creatable {[ "media/a.png"%string
                         := Fs.File (String.list_byte_of_string "older content") ]}
            (UtilsFiles.path_parent "media/a.png")) as Hparent
    by (repeat constructor; intros data; by vm_compute).
  assert (normalised "media/a.png") as Hpath
    by (repeat constructor; by vm_compute).
  split; [exact Hpath|]. split; [exact Hparent|].
  apply (download_file_keeps_partial_file
           (λ _, Utils.HttpResponse broken_response)
           "http://host/a.png" "media/a.png" _ broken_response);
    first [reflexivity | assumption | discriminate].
Defined.

(** The hypothesis on the directories above [save_path] is needed: with
    a regular file [media] where the directory [media/2024] has to be
    made, the same broken transfer ends in the other message, and no
    file is written. *)
Lemma download_file_under_a_file :
  let w := {| Utils.files :=
                {[ "media"%string
                     := Fs.File (String.list_byte_of_string "not a directory") ]};
              Utils.requests := [] |} in
  (∀ data, Utils.files w !! UtilsFiles.path_parent "media/2024/a.png"
           ≠ Some (Fs.File data)) ∧
  UtilsFiles.download_file (λ _, Utils.HttpResponse broken_response)
    "http://host/a.png" "media/2024/a.png" true w
  = Returns (false, Some (UtilsFiles.SaveFailed OSError))
      {| Utils.files := Utils.files w; Utils.requests := ["http://host/a.png"%string] |}.
Proof. split; [intros data; by vm_compute|by vm_compute]. Qed.

(** X12. A refused download does not touch the disk.  When the request
    raises, when the status is an error, or when the body of a
    non-streamed request cannot be read, [download_file] returns
    [(False, message)] after one request and leaves every path as it
    was: no directory is created and no file is opened. *)
Theorem download_file_refused_leaves_disk
    (server : string → Utils.http_outcome) (url save_path : string)
    (stream : bool) (w : Utils.world) :
  match server url with
  | Utils.HttpRaised => True
  | Utils.HttpResponse r =>
      Utils.status_ok r = false ∨ (stream = false ∧ Utils.body_fails r = true)
  end →
  ∃ e,
    UtilsFiles.download_file server url save_path stream w
    = Returns (false, Some (UtilsFiles.DownloadFailed e))
        {| Utils.files := Utils.files w;
           Utils.requests := Utils.requests w ++ [url] |}.
Proof.
  intros Hrefused. unfold UtilsFiles.download_file.
  destruct (server url) as [|r]; [by eexists|].
  destruct Hrefused as [Hst | [-> Hbody]].
  - rewrite Hst. destruct (negb stream && Utils.body_fails r); by eexists.
  - rewrite Hbody. by eexists.
Qed.

Lemma download_file_refused_leaves_disk_witness :
  ∃ e,
    UtilsFiles.download_file (λ _, Utils.HttpRaised) "http://host/a.png"
      "media/a.png" true empty_world
    = Returns (false, Some (UtilsFiles.DownloadFailed e))
        {| Utils.files := Utils.files empty_world;
           Utils.requests := Utils.requests empty_world ++ ["http://host/a.png"%string] |}.
Proof.
  apply (download_file_refused_leaves_disk (λ _, Utils.HttpRaised)
           "http://host/a.png" "media/a.png" true empty_world).
  exact I.
Defined.

(** ** [get_mime_type] *)

Section MimeFacts.
Import PyStr UtilsFiles.

Lemma ascii_lower_app (a b : string) :
  ascii_lower (a +:+ b) = ascii_lower a +:+ ascii_lower b.
Proof.
  induction a as [|c a IH]; [by rewrite !string_app_nil|].
  rewrite string_app_cons. cbn [ascii_lower].
  by rewrite string_app_cons, IH.
Qed.

Lemma only_dots_lower (d : string) : only_dots d = true → ascii_lower d = d.
Proof.
  induction d as [|c d IH]; [done|]. cbn [only_dots ascii_lower].
  intros [Hc Hd]%andb_prop. apply Ascii.eqb_eq in Hc as ->.
  by rewrite IH.
Qed.

Lemma lstrip_dots_app (d s : string) :
  only_dots d = true → lstrip_dots (d +:+ s) = lstrip_dots s.
Proof.
  induction d as [|c d IH]; [by rewrite string_app_nil|]. cbn [only_dots].
  intros [Hc Hd]%andb_prop. apply Ascii.eqb_eq in Hc as ->.
  rewrite string_app_cons. cbn [lstrip_dots]. by apply IH.
Qed.

End MimeFacts.

(** X13. [get_mime_type] looks at the extension without its leading dots
    and without regard to the case of ASCII letters: two extensions that
    differ only in these get the same MIME type ([.JPG], [jpg] and
    [..Jpg] are all [image/jpeg]). *)
Theorem get_mime_type_ignores_dots_and_case (dots_a a dots_b b : string) :
  only_dots dots_a = true → only_dots dots_b = true →
  ascii_lower a = ascii_lower b →
  UtilsFiles.get_mime_type posix_lib (dots_a +:+ a)
  = UtilsFiles.get_mime_type posix_lib (dots_b +:+ b).
Proof.
  intros Ha Hb Hab. unfold UtilsFiles.get_mime_type. cbn [lower posix_lib].
  rewrite !ascii_lower_app.
  rewrite (only_dots_lower dots_a Ha), (only_dots_lower dots_b Hb).
  by rewrite (lstrip_dots_app dots_a _ Ha), (lstrip_dots_app dots_b _ Hb), Hab.
Qed.

Lemma get_mime_type_ignores_dots_and_case_witness :
  UtilsFiles.get_mime_type posix_lib ("." +:+ "JPG") = "image/jpeg"%string ∧
  UtilsFiles.get_mime_type posix_lib ("." +:+ "JPG")
  = UtilsFiles.get_mime_type posix_lib ("" +:+ "jpg").
Proof.
  split; [reflexivity|].
  apply (get_mime_type_ignores_dots_and_case "." "JPG" "" "jpg"); reflexivity.
Defined.

(** ** [find_file_in_date_dirs] *)

Section DateDirFacts.
Import PyStr Fs Utils UtilsFiles.

Lemma drop_prefix_app (pre t : string) : drop_prefix pre (pre +:+ t) = Some t.
Proof.
  induction pre as [|c pre IH]; [by rewrite string_app_nil|].
  rewrite string_app_cons. cbn [drop_prefix]. by rewrite Ascii.eqb_refl.
Qed.

Lemma drop_prefix_inv (pre s t : string) :
  drop_prefix pre s = Some t → s = pre +:+ t.
Proof.
  revert s. induction pre as [|c pre IH]; intros s; cbn [drop_prefix].
  - intros [= ->]. by rewrite string_app_nil.
  - destruct s as [|c' s]; [done|].
    destruct (Ascii.eqb_spec c c') as [<- | ?]; [|done].
    intros H. rewrite string_app_cons. f_equal. by apply IH.
Qed.

Lemma existsb_slash_lacks (s : string) :
  existsb (Ascii.eqb "/") (String.list_ascii_of_string s) = false ↔ lacks "/" s.
Proof.
  induction s as [|c s IH]; [done|].
  cbn [String.list_ascii_of_string existsb lacks].
  rewrite orb_false_iff, IH. split.
  - intros [Hc Hs]. split; [|done]. intros ->. by rewrite Ascii.eqb_refl in Hc.
  - intros [Hc Hs]. split; [|done]. apply Ascii.eqb_neq. congruence.
Qed.

Lemma entry_name_join (d name : string) :
  plain_name name → entry_name d (path_join d name) = Some name.
Proof.
  intros [Hne Hlacks]. unfold entry_name, path_join.
  rewrite <- string_app_assoc, drop_prefix_app.
  destruct name as [|c name]; [done|].
  by rewrite (proj2 (existsb_slash_lacks _) Hlacks).
Qed.

Lemma entry_name_inv (d p name : string) :
  entry_name d p = Some name → p = path_join d name ∧ plain_name name.
Proof.
  unfold entry_name.
  destruct (drop_prefix (d +:+ "/") p) as [[|c rest]|] eqn:Hdrop; [done| |done].
  destruct (existsb _ _) eqn:Hex; [done|]. intros [= <-].
  apply drop_prefix_inv in Hdrop. split.
  - unfold path_join. by rewrite <- string_app_assoc.
  - split; [done|]. by apply existsb_slash_lacks.
Qed.

(** The entries of a directory are the paths of the map that lie
    directly below it. *)
Lemma iterdir_spec (m : gmap string node) (d : string) :
  m !! d = Some Dir →
  ∃ entries, iterdir m d = Ok entries ∧
    ∀ p, p ∈ entries ↔ is_Some (m !! p) ∧ is_Some (entry_name d p).
Proof.
  intros Hd. unfold iterdir. rewrite Hd. eexists. split; [done|].
  intros p. rewrite list_elem_of_filter, list_elem_of_fmap. split.
  - intros [Hentry ([q x] & -> & Hq)]. apply elem_of_map_to_list in Hq.
    cbn in *. by rewrite Hq.
  - intros [[x Hx] Hentry]. split; [done|]. exists (p, x).
    split; [done|]. by apply elem_of_map_to_list.
Qed.

(** The order of strings. *)
Lemma string_leb_refl (s : string) : String.leb s s = true.
Proof. by destruct (String.leb_total s s). Qed.

(** The order on strings is the lexicographic order of the character
    codes. *)
Lemma string_leb_cons (x y : ascii) (a b : string) :
  String.leb (String x a) (String y b)
  = if (N_of_ascii x <? N_of_ascii y)%N then true
    else if (N_of_ascii x =? N_of_ascii y)%N then String.leb a b
    else false.
Proof.
  unfold String.leb. cbn [String.compare]. unfold Ascii.compare.
  destruct (N.compare_spec (N_of_ascii x) (N_of_ascii y)) as [H|H|H].
  - rewrite H, N.ltb_irrefl, N.eqb_refl. done.
  - by rewrite (proj2 (N.ltb_lt _ _) H).
  - rewrite (proj2 (N.ltb_ge _ _)) by lia.
    by rewrite (proj2 (N.eqb_neq _ _)) by lia.
Qed.

Lemma string_leb_nil (b : string) : String.leb "" b = true.
Proof. by destruct b. Qed.

Lemma string_leb_trans (a b c : string) :
  String.leb a b = true → String.leb b c = true → String.leb a c = true.
Proof.
  revert b c. induction a as [|x a IH]; intros b c;
    [intros _ _; apply string_leb_nil|].
  destruct b as [|y b]; [done|]. destruct c as [|z c]; [done|].
  rewrite !string_leb_cons.
  destruct (N.ltb_spec (N_of_ascii x) (N_of_ascii y));
    destruct (N.ltb_spec (N_of_ascii y) (N_of_ascii z));
    destruct (N.ltb_spec (N_of_ascii x) (N_of_ascii z)); try lia; try done;
    destruct (N.eqb_spec (N_of_ascii x) (N_of_ascii y));
    destruct (N.eqb_spec (N_of_ascii y) (N_of_ascii z));
    destruct (N.eqb_spec (N_of_ascii x) (N_of_ascii z)); try lia; try done.
  apply IH.
Qed.

Lemma string_leb_app (p a b : string) :
  String.leb (p +:+ a) (p +:+ b) = String.leb a b.
Proof.
  induction p as [|c p IH]; [by rewrite !string_app_nil|].
  rewrite !string_app_cons, string_leb_cons.
  by rewrite N.ltb_irrefl, N.eqb_refl.
Qed.

Lemma path_join_leb (d a b : string) :
  String.leb (path_join d a) (path_join d b) = String.leb a b.
Proof. unfold path_join. by rewrite !string_leb_app. Qed.

(** The descending sort permutes, and puts every element before those
    that are not greater. *)
Lemma insert_desc_elem_of (x y : string) (l : list string) :
  y ∈ insert_desc x l ↔ y = x ∨ y ∈ l.
Proof.
  induction l as [|z l IH]; cbn.
  - rewrite list_elem_of_singleton, elem_of_nil. tauto.
  - destruct (String.leb z x); rewrite !elem_of_cons; [tauto|].
    rewrite IH. tauto.
Qed.

Lemma sorted_reverse_elem_of (y : string) (l : list string) :
  y ∈ sorted_reverse l ↔ y ∈ l.
Proof.
  unfold sorted_reverse. induction l as [|x l IH]; cbn; [done|].
  by rewrite insert_desc_elem_of, IH, elem_of_cons.
Qed.

Lemma insert_desc_sorted (x : string) (l : list string) :
  StronglySorted (λ a b, String.leb b a = true) l →
  StronglySorted (λ a b, String.leb b a = true) (insert_desc x l).
Proof.
  induction 1 as [|z l Hl IH Hz]; cbn.
  - by repeat constructor.
  - destruct (String.leb z x) eqn:Hzx.
    + constructor; [by constructor|]. constructor; [done|].
      eapply Forall_impl; [exact Hz|]. intros b Hb. cbn in Hb.
      by apply (string_leb_trans b z x).
    + constructor; [done|]. apply Forall_forall. intros b Hb.
      apply insert_desc_elem_of in Hb as [-> | Hb].
      * destruct (String.leb_total x z) as [H|H]; [done|congruence].
      * by apply (proj1 (Forall_forall _ _) Hz).
Qed.

Lemma sorted_reverse_sorted (l : list string) :
  StronglySorted (λ a b, String.leb b a = true) (sorted_reverse l).
Proof.
  unfold sorted_reverse. induction l as [|x l IH]; cbn; [constructor|].
  by apply insert_desc_sorted.
Qed.

(** The scan returns the target of the first directory that holds one;
    on a descending list that is the greatest. *)
Lemma scan_date_dirs_spec m file_id subdir (l : list string) :
  StronglySorted (λ a b, String.leb b a = true) l →
  match scan_date_dirs m file_id subdir l with
  | Some d =>
      ∃ date_dir, date_dir ∈ l ∧ d = target_in date_dir file_id subdir ∧
        is_dir m date_dir = true ∧ exists_ m d = true ∧
        ∀ other, other ∈ l → is_dir m other = true →
          exists_ m (target_in other file_id subdir) = true →
          String.leb other date_dir = true
  | None =>
      ∀ other, other ∈ l → is_dir m other = true →
        exists_ m (target_in other file_id subdir) = false
  end.
Proof.
  induction 1 as [|x l Hl IH Hx]; cbn [scan_date_dirs].
  - intros other Hin. by apply elem_of_nil in Hin.
  - destruct (is_dir m x) eqn:Hdir.
    + destruct (exists_ m (target_in x file_id subdir)) eqn:Hex.
      * exists x. split; [by left|]. split; [done|]. split; [done|].
        split; [done|]. intros other Hin _ _.
        apply elem_of_cons in Hin as [-> | Hin]; [apply string_leb_refl|].
        by apply (proj1 (Forall_forall _ _) Hx).
      * destruct (scan_date_dirs m file_id subdir l) as [d|].
        -- destruct IH as (dd & Hin & -> & Hd & He & Hmax).
           exists dd. split; [by right|]. split; [done|]. split; [done|].
           split; [done|]. intros other Ho Hod Hoe.
           apply elem_of_cons in Ho as [-> | Ho]; [congruence|].
           by apply Hmax.
        -- intros other Ho Hod.
           apply elem_of_cons in Ho as [-> | Ho]; [done|]. by apply IH.
    + destruct (scan_date_dirs m file_id subdir l) as [d|].
      * destruct IH as (dd & Hin & -> & Hd & He & Hmax).
        exists dd. split; [by right|]. split; [done|]. split; [done|].
        split; [done|]. intros other Ho Hod Hoe.
        apply elem_of_cons in Ho as [-> | Ho]; [congruence|].
        by apply Hmax.
      * intros other Ho Hod.
        apply elem_of_cons in Ho as [-> | Ho]; [congruence|]. by apply IH.
Qed.

Lemma is_dir_exists (m : gmap string node) p :
  is_dir m p = true → is_Some (m !! p).
Proof. unfold is_dir. destruct (m !! p) as [[?|]|]; [done|eauto|done]. Qed.

End DateDirFacts.

(** X14. When the directory of the day does not hold the identifier,
    [find_file_in_date_dirs] returns the one in the directory of
    [media_root] whose name is greatest (the newest date), and [None]
    exactly when no directory of [media_root] holds it.  Entries of
    [media_root] that are not directories are passed over. *)
Theorem find_file_scans_newest_first (m : gmap string Fs.node)
    (date_str media_root file_id : string) (subdir : option string) :
  m !! media_root = Some Fs.Dir →
  Fs.exists_ m
    (UtilsFiles.target_in (PyStr.path_join media_root date_str) file_id subdir)
  = false →
  ∃ found,
    UtilsFiles.find_file_in_date_dirs m date_str media_root file_id subdir
    = Ok found ∧
    match found with
    | Some d =>
        ∃ name, plain_name name ∧
          d = UtilsFiles.target_in (PyStr.path_join media_root name)
                file_id subdir ∧
          UtilsFiles.is_dir m (PyStr.path_join media_root name) = true ∧
          Fs.exists_ m d = true ∧
          ∀ other, plain_name other →
            UtilsFiles.is_dir m (PyStr.path_join media_root other) = true →
            Fs.exists_ m
              (UtilsFiles.target_in (PyStr.path_join media_root other)
                 file_id subdir) = true →
            String.leb other name = true
    | None =>
        ∀ other, plain_name other →
          UtilsFiles.is_dir m (PyStr.path_join media_root other) = true →
          Fs.exists_ m
            (UtilsFiles.target_in (PyStr.path_join media_root other)
               file_id subdir) = false
    end.
Proof.
  intros Hroot Htoday. unfold UtilsFiles.find_file_in_date_dirs.
  rewrite Htoday. unfold Fs.exists_ at 1. rewrite Hroot.
  destruct (iterdir_spec m media_root Hroot) as (entries & -> & Hentries).
  cbn [mbind result_bind bind]. eexists. split; [done|].
  assert (∀ other, plain_name other →
            UtilsFiles.is_dir m (PyStr.path_join media_root other) = true →
            PyStr.path_join media_root other
            ∈ UtilsFiles.sorted_reverse entries) as Hlisted.
  { intros other Hplain Hdir. apply sorted_reverse_elem_of, Hentries.
    split; [by apply is_dir_exists|]. by rewrite entry_name_join. }
  pose proof (scan_date_dirs_spec m file_id subdir
                (UtilsFiles.sorted_reverse entries)
                (sorted_reverse_sorted entries)) as Hscan.
  destruct (UtilsFiles.scan_date_dirs m file_id subdir
              (UtilsFiles.sorted_reverse entries)) as [d|].
  - destruct Hscan as (date_dir & Hin & -> & Hdir & Hex & Hmax).
    apply sorted_reverse_elem_of, Hentries in Hin as [_ [name Hname]].
    apply entry_name_inv in Hname as [-> Hplain].
    exists name. split; [done|]. split; [done|]. split; [done|].
    split; [done|]. intros other Hother Hodir Hoex.
    rewrite <- (path_join_leb media_root). by apply Hmax; [apply Hlisted|..].
  - intros other Hother Hodir. by apply Hscan; [apply Hlisted|].
Qed.

Lemma find_file_scans_newest_first_witness :
  dated_disk !! "M"%string = Some Fs.Dir ∧
  UtilsFiles.find_file_in_date_dirs dated_disk "20240401" "M" "abc" None
  = Ok (Some "M/20240201/abc"%string) ∧
  ∃ found,
    UtilsFiles.find_file_in_date_dirs dated_disk "20240401" "M" "abc" None
    = Ok found ∧
    match found with
    | Some d =>
        ∃ name, plain_name name ∧
          d = UtilsFiles.target_in (PyStr.path_join "M" name) "abc" None ∧
          UtilsFiles.is_dir dated_disk (PyStr.path_join "M" name) = true ∧
          Fs.exists_ dated_disk d = true ∧
          ∀ other, plain_name other →
            UtilsFiles.is_dir dated_disk (PyStr.path_join "M" other) = true →
            Fs.exists_ dated_disk
              (UtilsFiles.target_in (PyStr.path_join "M" other) "abc" None)
            = true →
            String.leb other name = true
    | None =>
        ∀ other, plain_name other →
          UtilsFiles.is_dir dated_disk (PyStr.path_join "M" other) = true →
          Fs.exists_ dated_disk
            (UtilsFiles.target_in (PyStr.path_join "M" other) "abc" None)
          = false
    end.
Proof.
  split; [reflexivity|]. split; [vm_compute; reflexivity|].
  apply (find_file_scans_newest_first dated_disk "20240401" "M" "abc" None);
    reflexivity.
Defined.

(** ** The chunk size of a download *)


